(** * Reviewer assignment service: model and verified properties

    A shallow embedding of the Go packages [model], [repository] and
    [service] of the pull-request review service.

    - [model]: the structs and sentinel errors.
    - [repository]: the three PostgreSQL tables as finite maps keyed by their
      primary key, the SQL statements of [PostgresRepository] /
      [txRepository] as functions on that state, and [WithTransaction] with
      its explicit rollback.
    - [service]: [CreateTeam], [SetUserActiveStatus], [CreatePullRequest],
      [MergePullRequest], [ReassignReviewer] and the candidate selector
      ([activeReviewers], [selectRandom], [isReviewerAssigned]).

    What the environment decides is an explicit argument: the numbers drawn
    by [rand.Shuffle] ([rnd]), the Go clock read by [time.Now()] ([now]) and
    the database clock behind [DEFAULT NOW()] ([dbnow]). *)

From stdpp Require Import strings gmap list fin_maps sorting.
From Stdlib Require Import ZArith.

Set Warnings "-clear-no-such-hyp".

Local Open Scope string_scope.
Local Open Scope list_scope.
Local Open Scope nat_scope.

(** ** Package model *)

(** Go's [error] values that occur in the three packages: the sentinels of
    [model], those of [repository], and the two shapes of driver error that
    [handleError] inspects. *)
Inductive pgcode := UniqueViolation | ForeignKeyViolation.

Inductive error :=
  | model_ErrNotFound
  | model_ErrTeamExists
  | model_ErrPRExists
  | model_ErrPRMerged
  | model_ErrNotAssigned
  | model_ErrNoCandidate
  | model_ErrBadRequest
  | model_ErrInternal
  | repo_ErrNotFound
  | repo_ErrAlreadyExists
  | pgx_ErrNoRows
  | PgError (code : pgcode).

#[global] Instance pgcode_eq_dec : EqDecision pgcode.
Proof. solve_decision. Defined.
#[global] Instance error_eq_dec : EqDecision error.
Proof. solve_decision. Defined.

(** [errors.Is err target]: none of the errors above wraps another one, so
    the chain that [errors.Is] walks has length one. *)
Definition errors_Is (err target : error) : bool := bool_decide (err = target).

Inductive outcome (A : Type) :=
  | Ok (a : A)
  | Err (e : error).
Arguments Ok {A} a.
Arguments Err {A} e.

Inductive PRStatus := PROpen | PRMerged.

#[global] Instance PRStatus_eq_dec : EqDecision PRStatus.
Proof. solve_decision. Defined.

(** A [time.Time] is the number of nanoseconds since the epoch. *)
Definition Time := Z.
Bind Scope Z_scope with Time.

Module TeamMember.
Record t := mk { UserID : string; Username : string; IsActive : bool }.
End TeamMember.

Module Team.
Record t := mk { TeamName : string; Members : list TeamMember.t }.
End Team.

Module User.
Record t := mk {
  UserID : string; Username : string; TeamName : string; IsActive : bool }.
End User.

#[global] Instance User_eq_dec : EqDecision User.t.
Proof. solve_decision. Defined.

Module PullRequest.
Record t := mk {
  ID : string;
  Name : string;
  AuthorID : string;
  Status : PRStatus;
  AssignedReviewers : list string;
  CreatedAt : option Time;
  MergedAt : option Time }.
End PullRequest.

(** ** Package repository *)

(** *** The database

    [teams(team_name PRIMARY KEY)],
    [users(user_id PRIMARY KEY, username, team_name, is_active)] and
    [pull_requests(pull_request_id PRIMARY KEY, pull_request_name, author_id,
    status, assigned_reviewers, created_at, merged_at)].  A table is the
    finite map from its primary key to the other columns of the row. *)

(** A [TIMESTAMPTZ] value is a number of microseconds.  Writing a Go time
    into such a column drops its sub-microsecond part; scanning the column
    gives a Go time on a microsecond boundary. *)
Definition timestamptz := Z.
Bind Scope Z_scope with timestamptz.

Definition encode_timestamptz (t : Time) : timestamptz := (t / 1000)%Z.
Definition decode_timestamptz (us : timestamptz) : Time := (us * 1000)%Z.

Record users_row := mk_users_row {
  username : string; team_name : string; is_active : bool }.

Record pull_requests_row := mk_pr_row {
  pull_request_name : string;
  author_id : string;
  status : PRStatus;
  assigned_reviewers : list string;
  created_at : timestamptz;
  merged_at : option timestamptz }.

Record DB := mk_DB {
  teams : gset string;
  users : gmap string users_row;
  pull_requests : gmap string pull_requests_row }.

Definition empty_DB : DB := mk_DB ∅ ∅ ∅.

(** [handleError] *)
Definition handleError (err : error) : error :=
  match err with
  | pgx_ErrNoRows => repo_ErrNotFound
  | PgError UniqueViolation => repo_ErrAlreadyExists
  | PgError ForeignKeyViolation => repo_ErrNotFound
  | _ => err
  end.

(** *** Statements inside a transaction

    A statement reads the database, may change it, and returns a value or an
    error. *)
Definition Tx (A : Type) : Type := DB → outcome A * DB.

Definition tx_ret {A} (a : A) : Tx A := λ db, (Ok a, db).
Definition tx_fail {A} (e : error) : Tx A := λ db, (Err e, db).
Definition tx_bind {A B} (m : Tx A) (k : A → Tx B) : Tx B :=
  λ db, match m db with
        | (Ok a, db') => k a db'
        | (Err e, db') => (Err e, db')
        end.

Notation "'let*' x := m 'in' k" := (tx_bind m (λ x, k))
  (at level 10, x name, m at level 100, k at level 200).

(** Columns of a row scanned into the Go struct. *)
Definition scan_user (user_id : string) (r : users_row) : User.t :=
  User.mk user_id (username r) (team_name r) (is_active r).

Definition scan_pr (pull_request_id : string) (r : pull_requests_row)
  : PullRequest.t :=
  PullRequest.mk pull_request_id (pull_request_name r) (author_id r)
    (status r) (assigned_reviewers r)
    (Some (decode_timestamptz (created_at r)))
    (decode_timestamptz <$> merged_at r).

(** [getUser]: [SELECT ... FROM users WHERE user_id = $1]. *)
Definition getUser (userID : string) : Tx User.t :=
  λ db, match users db !! userID with
        | Some r => (Ok (scan_user userID r), db)
        | None => (Err (handleError pgx_ErrNoRows), db)
        end.

(** [ListTeamMembers]: [SELECT ... FROM users WHERE team_name = $1], in the
    order the table yields its rows. *)
Definition select_team_members (teamName : string) (db : DB) : list User.t :=
  (λ kr, scan_user kr.1 kr.2) <$>
    filter (λ kr, team_name kr.2 = teamName) (map_to_list (users db)).

Definition ListTeamMembers (teamName : string) : Tx (list User.t) :=
  λ db, (Ok (select_team_members teamName db), db).

(** [CreatePR]: [INSERT INTO pull_requests ... RETURNING created_at].  The
    primary key is checked when the row is inserted, the foreign key on
    [author_id] when the statement ends; [created_at] is the column default
    [NOW()], here [dbnow], scanned back into [pr.CreatedAt]. *)
Definition CreatePR (dbnow : timestamptz) (pr : PullRequest.t)
  : Tx PullRequest.t :=
  λ db,
    if decide (is_Some (pull_requests db !! PullRequest.ID pr)) then
      (Err (handleError (PgError UniqueViolation)), db)
    else if decide (is_Some (users db !! PullRequest.AuthorID pr)) then
      let row := mk_pr_row (PullRequest.Name pr) (PullRequest.AuthorID pr)
                   (PullRequest.Status pr) (PullRequest.AssignedReviewers pr)
                   dbnow
                   (encode_timestamptz <$> PullRequest.MergedAt pr) in
      (Ok (PullRequest.mk (PullRequest.ID pr) (PullRequest.Name pr)
             (PullRequest.AuthorID pr) (PullRequest.Status pr)
             (PullRequest.AssignedReviewers pr)
             (Some (decode_timestamptz (created_at row)))
             (PullRequest.MergedAt pr)),
       mk_DB (teams db) (users db)
             (<[PullRequest.ID pr := row]> (pull_requests db)))
    else (Err (handleError (PgError ForeignKeyViolation)), db).

(** [fetchPR]: [SELECT ... FROM pull_requests WHERE pull_request_id = $1],
    with [FOR UPDATE] appended when [forUpdate] is set.  The row lock that
    [FOR UPDATE] takes has no effect on what a single transaction reads. *)
Definition fetchPR (prID : string) (forUpdate : bool) : Tx PullRequest.t :=
  λ db, match pull_requests db !! prID with
        | Some r => (Ok (scan_pr prID r), db)
        | None => (Err (handleError pgx_ErrNoRows), db)
        end.

Definition GetPRByID (prID : string) : Tx PullRequest.t := fetchPR prID false.
Definition GetPRByIDForUpdate (prID : string) : Tx PullRequest.t :=
  fetchPR prID true.

(** [UpdatePR]: [UPDATE pull_requests SET status = $2, assigned_reviewers =
    $3, merged_at = $4 WHERE pull_request_id = $1 RETURNING ...]. *)
Definition UpdatePR (pr : PullRequest.t) : Tx PullRequest.t :=
  λ db, match pull_requests db !! PullRequest.ID pr with
        | Some r =>
            let r' := mk_pr_row (pull_request_name r) (author_id r)
                        (PullRequest.Status pr)
                        (PullRequest.AssignedReviewers pr)
                        (created_at r)
                        (encode_timestamptz <$> PullRequest.MergedAt pr) in
            (Ok (scan_pr (PullRequest.ID pr) r'),
             mk_DB (teams db) (users db)
                   (<[PullRequest.ID pr := r']> (pull_requests db)))
        | None => (Err (handleError pgx_ErrNoRows), db)
        end.

(** [WithTransaction]: run [fn]; on an error roll back, otherwise commit.
    Opening and committing the transaction are taken to succeed. *)
Definition WithTransaction {A} (fn : Tx A) : Tx A :=
  λ db, match fn db with
        | (Err e, _) => (Err e, db)
        | (Ok a, db') => (Ok a, db')
        end.

(** *** Statements outside a transaction *)

(** One [INSERT INTO users ... ON CONFLICT (user_id) DO UPDATE SET username,
    is_active, team_name] of the batch. *)
Definition upsert_user (teamName : string) (us : gmap string users_row)
    (member : TeamMember.t) : gmap string users_row :=
  <[TeamMember.UserID member :=
      mk_users_row (TeamMember.Username member) teamName
                   (TeamMember.IsActive member)]> us.

(** [CreateTeamTx]: insert the team, then upsert every member, in one
    transaction of its own. *)
Definition CreateTeamTx (team : Team.t) : Tx unit :=
  λ db,
    if decide (Team.TeamName team ∈ teams db) then
      (Err (handleError (PgError UniqueViolation)), db)
    else
      (Ok (),
       mk_DB ({[Team.TeamName team]} ∪ teams db)
             (foldl (upsert_user (Team.TeamName team)) (users db)
                    (Team.Members team))
             (pull_requests db)).

(** [SetUserActiveStatus]: [UPDATE users SET is_active = $2 WHERE user_id =
    $1 RETURNING ...]. *)
Definition SetUserActiveStatus (userID : string) (isActive : bool)
  : Tx User.t :=
  λ db, match users db !! userID with
        | Some r =>
            let r' := mk_users_row (username r) (team_name r) isActive in
            (Ok (scan_user userID r'),
             mk_DB (teams db) (<[userID := r']> (users db))
                   (pull_requests db))
        | None => (Err (handleError pgx_ErrNoRows), db)
        end.

(** ** Package service *)

(** [mapError] *)
Definition mapError (err : error) : error :=
  if errors_Is err model_ErrPRMerged || errors_Is err model_ErrNotAssigned
     || errors_Is err model_ErrNoCandidate then err
  else if errors_Is err repo_ErrNotFound then model_ErrNotFound
  else err.

(** *** Candidate selector *)

(** The [excludeSet] map of [activeReviewers]: the author first, then every
    entry of [exclude]. *)
Definition excludeSet (authorID : string) (exclude : list string)
  : gset string :=
  foldl (λ set id, {[id]} ∪ set) {[authorID]} exclude.

(** [activeReviewers]: one pass over [users], appending the identifier of
    every active user that is not in [excludeSet]. *)
Definition activeReviewers (users : list User.t) (authorID : string)
    (exclude : list string) : list string :=
  foldl (λ result u,
           if negb (User.IsActive u) then result
           else if decide (User.UserID u ∈ excludeSet authorID exclude)
                then result
                else result ++ [User.UserID u])
        [] users.

(** [activeReviewersFromTeam]: the exclusion list is
    [append(currentReviewers, oldUserID)]. *)
Definition activeReviewersFromTeam (teamName authorID oldUserID : string)
    (currentReviewers : list string) : Tx (list string) :=
  let* members := ListTeamMembers teamName in
  tx_ret (activeReviewers members authorID (currentReviewers ++ [oldUserID])).

(** The callback handed to [rand.Shuffle]:
    [ids[i], ids[j] = ids[j], ids[i]].  An index out of range panics in Go;
    [rand.Shuffle] only passes indices below [len(ids)]. *)
Definition swap (ids : list string) (i j : nat) : list string :=
  match ids !! i, ids !! j with
  | Some a, Some b => <[j := a]> (<[i := b]> ids)
  | _, _ => ids
  end.

(** [rand.Shuffle(n, swap)] of math/rand:
    [for i := n - 1; i > 0; i-- { j := r.Intn(i + 1); swap(i, j) }].
    [rnd i] is the number the generator yields at step [i]; [Intn (i + 1)]
    is below [i + 1]. *)
Fixpoint Shuffle_loop (rnd : nat → nat) (i : nat) (ids : list string)
  : list string :=
  match i with
  | 0 => ids
  | S i' => Shuffle_loop rnd i' (swap ids i (rnd i mod (i + 1)))
  end.

Definition Shuffle (rnd : nat → nat) (ids : list string) : list string :=
  Shuffle_loop rnd (length ids - 1) ids.

(** [selectRandom].  With at most [limit] entries it returns a copy of
    [ids]; otherwise it reseeds the generator from the clock, shuffles [ids]
    and returns a copy of the first [limit] entries.  [rnd] is what the
    reseeded generator yields.  [limit] is a Go [int]; the two call sites
    pass the literals 2 and 1, and the function is modelled on the
    non-negative range. *)
Definition selectRandom (rnd : nat → nat) (ids : list string) (limit : nat)
  : list string :=
  if decide (length ids ≤ limit) then ids
  else take limit (Shuffle rnd ids).

(** [isReviewerAssigned] *)
Fixpoint isReviewerAssigned (reviewers : list string) (userID : string)
  : bool :=
  match reviewers with
  | [] => false
  | r :: reviewers' =>
      if decide (r = userID) then true
      else isReviewerAssigned reviewers' userID
  end.

(** *** The selector on slices and their backing arrays *)

(** A Go slice value is nil or a window of [len] entries, starting at offset
    [off], of the backing array at address [base].  The memory holds the
    backing arrays. *)
Inductive slice :=
  | nil_slice
  | mk_slice (base off len : nat).

Abbreviation Memory := (gmap nat (list string)).

Definition slice_len (s : slice) : nat :=
  match s with
  | nil_slice => 0
  | mk_slice _ _ len => len
  end.

(** The entries a slice shows. *)
Definition elems (m : Memory) (s : slice) : list string :=
  match s with
  | nil_slice => []
  | mk_slice base off len => take len (drop off (default [] (m !! base)))
  end.

(** A slice that lies within an allocated array. *)
Definition slice_ok (m : Memory) (s : slice) : Prop :=
  match s with
  | nil_slice => True
  | mk_slice base off len =>
      ∃ arr, m !! base = Some arr ∧ off + len ≤ length arr
  end.

(** [append([]string(nil), xs...)]: nothing to append leaves nil; otherwise
    the entries are copied into a newly allocated array. *)
Definition append_to_nil (xs : list string) (m : Memory) : slice * Memory :=
  match xs with
  | [] => (nil_slice, m)
  | _ :: _ =>
      let base := fresh (dom m) in
      (mk_slice base 0 (length xs), <[base := xs]> m)
  end.

(** [ids[i], ids[j] = ids[j], ids[i]], written into the backing array. *)
Definition swap_mem (ids : slice) (i j : nat) (m : Memory) : Memory :=
  match ids with
  | nil_slice => m
  | mk_slice base off len =>
      match m !! base with
      | Some arr =>
          if decide (i < len ∧ j < len) then
            match arr !! (off + i), arr !! (off + j) with
            | Some a, Some b =>
                <[base := <[off + j := a]> (<[off + i := b]> arr)]> m
            | _, _ => m
            end
          else m
      | None => m
      end
  end.

Fixpoint Shuffle_loop_mem (rnd : nat → nat) (i : nat) (ids : slice)
    (m : Memory) : Memory :=
  match i with
  | 0 => m
  | S i' => Shuffle_loop_mem rnd i' ids (swap_mem ids i (rnd i mod (i + 1)) m)
  end.

(** [ids[:limit]] *)
Definition reslice (ids : slice) (limit : nat) : slice :=
  match ids with
  | nil_slice => nil_slice
  | mk_slice base off _ => mk_slice base off limit
  end.

(** [selectRandom] on slices: where the entries it returns are stored. *)
Definition selectRandom_mem (rnd : nat → nat) (ids : slice) (limit : nat)
    (m : Memory) : slice * Memory :=
  if decide (slice_len ids ≤ limit) then append_to_nil (elems m ids) m
  else
    let m' := Shuffle_loop_mem rnd (slice_len ids - 1) ids m in
    append_to_nil (elems m' (reslice ids limit)) m'.

(** The replacement loop of [ReassignReviewer]:
    [for i, r := range rs { if r == oldUserID { rs[i] = replacedBy; break } }].
    [rest] is the part of [rs] from index [i] on. *)
Fixpoint replace_loop (oldUserID replacedBy : string) (i : nat)
    (rest rs : list string) : list string :=
  match rest with
  | [] => rs
  | r :: rest' =>
      if decide (r = oldUserID) then <[i := replacedBy]> rs
      else replace_loop oldUserID replacedBy (S i) rest' rs
  end.

Definition replace_reviewer (oldUserID replacedBy : string)
    (rs : list string) : list string :=
  replace_loop oldUserID replacedBy 0 rs rs.

(** *** Teams and users *)

Definition CreateTeam (team : Team.t) : Tx unit :=
  λ db, match CreateTeamTx team db with
        | (Err e, db') =>
            if errors_Is e repo_ErrAlreadyExists
            then (Err model_ErrTeamExists, db')
            else (Err (mapError e), db')
        | (Ok u, db') => (Ok u, db')
        end.

Definition service_SetUserActiveStatus (userID : string) (isActive : bool)
  : Tx User.t :=
  λ db, match SetUserActiveStatus userID isActive db with
        | (Err e, db') => (Err (mapError e), db')
        | (Ok u, db') => (Ok u, db')
        end.

(** *** Pull requests *)

Definition with_reviewers (pr : PullRequest.t) (rs : list string)
  : PullRequest.t :=
  PullRequest.mk (PullRequest.ID pr) (PullRequest.Name pr)
    (PullRequest.AuthorID pr) (PullRequest.Status pr) rs
    (PullRequest.CreatedAt pr) (PullRequest.MergedAt pr).

Definition with_merged (pr : PullRequest.t) (now : Time) : PullRequest.t :=
  PullRequest.mk (PullRequest.ID pr) (PullRequest.Name pr)
    (PullRequest.AuthorID pr) PRMerged (PullRequest.AssignedReviewers pr)
    (PullRequest.CreatedAt pr) (Some now).

Definition CreatePullRequest (rnd : nat → nat) (dbnow : timestamptz)
    (prID prName authorID : string) : Tx PullRequest.t :=
  λ db,
    let pr := PullRequest.mk prID prName authorID PROpen [] None None in
    match WithTransaction
            (let* author := getUser authorID in
             let* teamMembers := ListTeamMembers (User.TeamName author) in
             let candidates := activeReviewers teamMembers authorID [] in
             CreatePR dbnow (with_reviewers pr (selectRandom rnd candidates 2)))
            db with
    | (Err e, db') =>
        if errors_Is e repo_ErrAlreadyExists
        then (Err model_ErrPRExists, db')
        else (Err (mapError e), db')
    | (Ok pr', db') => (Ok pr', db')
    end.

Definition MergePullRequest (now : Time) (prID : string)
  : Tx PullRequest.t :=
  λ db,
    match WithTransaction
            (let* current := GetPRByIDForUpdate prID in
             if decide (PullRequest.Status current = PRMerged)
             then tx_ret current
             else UpdatePR (with_merged current now))
            db with
    | (Err e, db') => (Err (mapError e), db')
    | (Ok pr, db') => (Ok pr, db')
    end.

(** [ReassignReviewer] returns the updated pull request together with
    [replacedBy]. *)
Definition ReassignReviewer (rnd : nat → nat) (prID oldUserID : string)
  : Tx (PullRequest.t * string) :=
  λ db,
    match WithTransaction
            (let* current := GetPRByIDForUpdate prID in
             if decide (PullRequest.Status current = PRMerged)
             then tx_fail model_ErrPRMerged
             else
               let* oldUser := getUser oldUserID in
               if negb (isReviewerAssigned
                          (PullRequest.AssignedReviewers current) oldUserID)
               then tx_fail model_ErrNotAssigned
               else
                 let* candidates :=
                   activeReviewersFromTeam (User.TeamName oldUser)
                     (PullRequest.AuthorID current) oldUserID
                     (PullRequest.AssignedReviewers current) in
                 match selectRandom rnd candidates 1 with
                 | [] => tx_fail model_ErrNoCandidate
                 | replacedBy :: _ =>
                     let* updated :=
                       UpdatePR
                         (with_reviewers current
                            (replace_reviewer oldUserID replacedBy
                               (PullRequest.AssignedReviewers current))) in
                     tx_ret (updated, replacedBy)
                 end)
            db with
    | (Err e, db') => (Err (mapError e), db')
    | (Ok r, db') => (Ok r, db')
    end.

(** ** The public API as a whole *)

(** One call of the public API together with what the environment decides
    during the call. *)
Inductive ApiCall :=
  | CallCreateTeam (team : Team.t)
  | CallGetTeam (teamName : string)
  | CallSetUserActiveStatus (userID : string) (isActive : bool)
  | CallCreatePullRequest (rnd : nat → nat) (dbnow : timestamptz)
      (prID prName authorID : string)
  | CallMergePullRequest (now : Time) (prID : string)
  | CallReassignReviewer (rnd : nat → nat) (prID oldUserID : string)
  | CallGetUserReviewPRs (userID : string).

(** The database after a call.  [GetTeam] and [GetUserReviewPRs] only issue
    [SELECT] statements. *)
Definition exec (db : DB) (call : ApiCall) : DB :=
  match call with
  | CallCreateTeam team => (CreateTeam team db).2
  | CallGetTeam _ => db
  | CallSetUserActiveStatus userID isActive =>
      (service_SetUserActiveStatus userID isActive db).2
  | CallCreatePullRequest rnd dbnow prID prName authorID =>
      (CreatePullRequest rnd dbnow prID prName authorID db).2
  | CallMergePullRequest now prID => (MergePullRequest now prID db).2
  | CallReassignReviewer rnd prID oldUserID =>
      (ReassignReviewer rnd prID oldUserID db).2
  | CallGetUserReviewPRs _ => db
  end.

Definition run (calls : list ApiCall) (db : DB) : DB := foldl exec db calls.

(** ** Vocabulary of the statements *)

(** The active members of team [teamName] other than [authorID]: a view of
    the [users] table that does not go through the code. *)
Definition active_non_author_members (db : DB) (teamName authorID : string)
  : gmap string users_row :=
  filter (λ kr, team_name kr.2 = teamName ∧ is_active kr.2 = true
                ∧ kr.1 ≠ authorID)
         (users db).

(** The reviewers [CreatePullRequest] picks for an author of team
    [teamName]. *)
Definition create_reviewers (rnd : nat → nat) (db : DB)
    (teamName authorID : string) : list string :=
  selectRandom rnd
    (activeReviewers (select_team_members teamName db) authorID []) 2.

(** The candidates [ReassignReviewer] computes for a reviewer of team
    [teamName]. *)
Definition reassign_candidates (db : DB) (teamName authorID oldUserID : string)
    (assigned : list string) : list string :=
  activeReviewers (select_team_members teamName db) authorID
    (assigned ++ [oldUserID]).

(** [id] may replace a reviewer of team [teamName] on a pull request by
    [authorID] whose reviewers are [assigned]. *)
Definition eligible_replacement (db : DB) (teamName authorID : string)
    (assigned : list string) (id : string) : Prop :=
  ∃ row, users db !! id = Some row ∧ team_name row = teamName
         ∧ is_active row = true ∧ id ≠ authorID ∧ id ∉ assigned.

(** What every stored pull request satisfies in a database built through the
    API. *)
Definition pr_row_ok (db : DB) (r : pull_requests_row) : Prop :=
  NoDup (assigned_reviewers r)
  ∧ (author_id r ∉ assigned_reviewers r)
  ∧ length (assigned_reviewers r) ≤ 2
  ∧ (∀ id, id ∈ assigned_reviewers r → is_Some (users db !! id)).

Definition db_ok (db : DB) : Prop :=
  ∀ prID r, pull_requests db !! prID = Some r → pr_row_ok db r.

(** *** The answers of the generator *)

(** Every way the generator can answer at steps [i], [i - 1], ..., 1 of
    [rand.Shuffle]: one number per step, in the order the steps are taken,
    the number at step [k] being one of 0, ..., [k]. *)
Fixpoint all_draws (i : nat) : list (list nat) :=
  match i with
  | 0 => [[]]
  | S i' => j ← seq 0 (S (S i')); cons j <$> all_draws i'
  end.

(** The generator that gives the answers [js] at steps [i], [i - 1], ... *)
Definition draws_rnd (i : nat) (js : list nat) : nat → nat :=
  λ k, default 0 (js !! (i - k)).

(** What the loop of [rand.Shuffle] makes of [ids], for each way the
    generator can answer. *)
Definition outcomes (i : nat) (ids : list string) : list (list string) :=
  (λ js, Shuffle_loop (draws_rnd i js) i ids) <$> all_draws i.

(** The list [rs] with its first occurrence of [oldUserID] replaced. *)
Fixpoint replace_first (oldUserID replacedBy : string) (rs : list string)
  : list string :=
  match rs with
  | [] => []
  | r :: rs' =>
      if decide (r = oldUserID) then replacedBy :: rs'
      else r :: replace_first oldUserID replacedBy rs'
  end.

(** ** Sample data

    A team of four active users and one inactive user, and the database
    after creating the team and a pull request by [u1]; a team of two, and
    the database after creating it and a pull request by its first member. *)

Definition backend : Team.t :=
  Team.mk "backend"
    [TeamMember.mk "u1" "alice" true; TeamMember.mk "u2" "bob" true;
     TeamMember.mk "u3" "carol" true; TeamMember.mk "u4" "dave" true;
     TeamMember.mk "u5" "erin" false].

Definition frontend : Team.t :=
  Team.mk "frontend" [TeamMember.mk "u1" "alice" true].

Definition pair : Team.t :=
  Team.mk "pair"
    [TeamMember.mk "p1" "frank" true; TeamMember.mk "p2" "grace" true].

Definition rnd0 : nat → nat := λ _, 0.

Definition now1 : Time := 1700000000123456789%Z.
Definition now2 : Time := 1700000005000000001%Z.
Definition dbnow1 : timestamptz := 1700000000000000%Z.

Definition alice_row : users_row := mk_users_row "alice" "backend" true.
Definition bob_row : users_row := mk_users_row "bob" "backend" true.

Definition team_db : DB := run [CallCreateTeam backend] empty_DB.

Definition demo_calls : list ApiCall :=
  [CallCreateTeam backend;
   CallCreatePullRequest rnd0 dbnow1 "pr1" "feat" "u1"].

Definition demo_db : DB := run demo_calls empty_DB.

Definition demo_row : pull_requests_row :=
  mk_pr_row "feat" "u1" PROpen ["u2"; "u4"] dbnow1 None.

Definition merged_db : DB :=
  run [CallMergePullRequest now1 "pr1"] demo_db.

Definition merged_row : pull_requests_row :=
  mk_pr_row "feat" "u1" PRMerged ["u2"; "u4"] dbnow1
    (Some 1700000000123456%Z).

Definition pair_db : DB :=
  run [CallCreateTeam pair;
       CallCreatePullRequest rnd0 dbnow1 "pr7" "fix" "p1"]
      empty_DB.

Definition pair_row : pull_requests_row :=
  mk_pr_row "fix" "p1" PROpen ["p2"] dbnow1 None.

(** ** The read operations of the repository and the service *)

Module PullRequestShort.
Record t := mk {
  ID : string; Name : string; AuthorID : string; Status : PRStatus }.
End PullRequestShort.

#[global] Instance PullRequestShort_eq_dec : EqDecision PullRequestShort.t.
Proof. solve_decision. Defined.

#[global] Instance TeamMember_eq_dec : EqDecision TeamMember.t.
Proof. solve_decision. Defined.

(** Columns of a [users] row scanned into a [TeamMember], and of a
    [pull_requests] row scanned into a [PullRequestShort]. *)
Definition scan_member (kr : string * users_row) : TeamMember.t :=
  TeamMember.mk kr.1 (username kr.2) (is_active kr.2).

Definition scan_short (kr : string * pull_requests_row)
  : PullRequestShort.t :=
  PullRequestShort.mk kr.1 (pull_request_name kr.2) (author_id kr.2)
    (status kr.2).

(** [ORDER BY user_id] under the comparison [collate], and
    [ORDER BY created_at DESC]. *)
Definition by_user_id (collate : relation string)
  : relation (string * users_row) :=
  λ a b, collate a.1 b.1.

#[global] Instance by_user_id_dec (collate : relation string)
  `{!RelDecision collate} : RelDecision (by_user_id collate).
Proof. intros a b. unfold by_user_id. apply _. Defined.

Definition by_created_at_desc : relation (string * pull_requests_row) :=
  λ a b, (created_at b.2 ≤ created_at a.2)%Z.

#[global] Instance by_created_at_desc_dec : RelDecision by_created_at_desc.
Proof. intros a b. unfold by_created_at_desc. apply _. Defined.

(** [PostgresRepository.GetTeam]: [SELECT EXISTS(SELECT 1 FROM teams WHERE
    team_name = $1)], then [SELECT user_id, username, is_active FROM users
    WHERE team_name = $1 ORDER BY user_id].  [collate] is the order in which
    the database compares [user_id] values. *)
Definition GetTeam (collate : relation string) `{!RelDecision collate}
    (teamName : string) : Tx Team.t :=
  λ db,
    if decide (teamName ∈ teams db) then
      (Ok (Team.mk teamName
             (scan_member <$>
                merge_sort (by_user_id collate)
                  (filter (λ kr, team_name kr.2 = teamName)
                          (map_to_list (users db))))), db)
    else (Err repo_ErrNotFound, db).

(** [GetPRsByReviewer]: [SELECT pull_request_id, pull_request_name,
    author_id, status FROM pull_requests WHERE assigned_reviewers @>
    ARRAY[$1] ORDER BY created_at DESC]. *)
Definition GetPRsByReviewer (userID : string)
  : Tx (list PullRequestShort.t) :=
  λ db,
    (Ok (scan_short <$>
           merge_sort by_created_at_desc
             (filter (λ kr, userID ∈ assigned_reviewers kr.2)
                     (map_to_list (pull_requests db)))), db).

(** [Service.GetTeam] and [Service.GetUserReviewPRs]. *)
Definition service_GetTeam (collate : relation string)
    `{!RelDecision collate} (teamName : string) : Tx Team.t :=
  λ db, match GetTeam collate teamName db with
        | (Err e, db') => (Err (mapError e), db')
        | (Ok team, db') => (Ok team, db')
        end.

Definition GetUserReviewPRs (userID : string)
  : Tx (list PullRequestShort.t) :=
  λ db, match GetPRsByReviewer userID db with
        | (Err e, db') => (Err (mapError e), db')
        | (Ok prs, db') => (Ok prs, db')
        end.

(** ** Package handler *)

(** The text of [err.Error()].  For a driver error the model carries the
    SQLSTATE only; [respondError] never shows the text of such an error. *)
Definition Error (err : error) : string :=
  match err with
  | model_ErrNotFound => "resource not found"
  | model_ErrTeamExists => "team_name already exists"
  | model_ErrPRExists => "PR id already exists"
  | model_ErrPRMerged => "cannot reassign on merged PR"
  | model_ErrNotAssigned => "reviewer is not assigned to this PR"
  | model_ErrNoCandidate => "no active replacement candidate in team"
  | model_ErrBadRequest => "invalid request payload or parameters"
  | model_ErrInternal => "internal error"
  | repo_ErrNotFound => "repository: not found"
  | repo_ErrAlreadyExists => "repository: already exists"
  | pgx_ErrNoRows => "no rows in result set"
  | PgError UniqueViolation => "SQLSTATE 23505"
  | PgError ForeignKeyViolation => "SQLSTATE 23503"
  end.

Definition StatusOK : nat := 200.
Definition StatusCreated : nat := 201.
Definition StatusBadRequest : nat := 400.
Definition StatusNotFound : nat := 404.
Definition StatusConflict : nat := 409.
Definition StatusInternalServerError : nat := 500.

(** What a handler hands to [respondJSON]: the status and the value that is
    encoded as the body. *)
Inductive Payload :=
  | APIErrorResponse (code message : string)
  | HealthBody
  | TeamCreatedBody (team : Team.t)
  | TeamBody (team : Team.t)
  | UserBody (user : User.t)
  | UserReviewsBody (user_id : string)
      (pull_requests : list PullRequestShort.t)
  | PRBody (pr : PullRequest.t)
  | ReassignedBody (pr : PullRequest.t) (replaced_by : string).

Module Response.
Record t := mk { Status : nat; Body : Payload }.
End Response.

(** [respondError] *)
Definition respondError (err : error) : Response.t :=
  let message := Error err in
  if errors_Is err model_ErrNotFound then
    Response.mk StatusNotFound (APIErrorResponse "NOT_FOUND" message)
  else if errors_Is err model_ErrBadRequest then
    Response.mk StatusBadRequest (APIErrorResponse "BAD_REQUEST" message)
  else if errors_Is err model_ErrTeamExists then
    Response.mk StatusConflict (APIErrorResponse "TEAM_EXISTS" message)
  else if errors_Is err model_ErrPRExists then
    Response.mk StatusConflict (APIErrorResponse "PR_EXISTS" message)
  else if errors_Is err model_ErrPRMerged then
    Response.mk StatusConflict (APIErrorResponse "PR_MERGED" message)
  else if errors_Is err model_ErrNotAssigned then
    Response.mk StatusConflict (APIErrorResponse "NOT_ASSIGNED" message)
  else if errors_Is err model_ErrNoCandidate then
    Response.mk StatusConflict (APIErrorResponse "NO_CANDIDATE" message)
  else
    Response.mk StatusInternalServerError
      (APIErrorResponse "INTERNAL_ERROR" "An unexpected error occurred").

(** [decode]: the request body is given as what [json.Decoder] makes of it,
    [None] when it fails. *)
Definition decode {A} (body : option A) : outcome A :=
  match body with
  | Some v => Ok v
  | None => Err model_ErrBadRequest
  end.

(** The anonymous request structs of the handlers.  A field that the JSON
    body leaves out is the empty string, or [None] for a [*bool]. *)
Module CreateTeamRequest.
Record member := mk_member {
  UserID : string; Username : string; IsActive : option bool }.
Record t := mk { TeamName : string; Members : list member }.
End CreateTeamRequest.

Module SetUserActivityRequest.
Record t := mk { UserID : string; IsActive : option bool }.
End SetUserActivityRequest.

Module CreatePRRequest.
Record t := mk { ID : string; Name : string; AuthorID : string }.
End CreatePRRequest.

Module MergePRRequest.
Record t := mk { ID : string }.
End MergePRRequest.

Module ReassignRequest.
Record t := mk { PRID : string; OldUserID : string; LegacyOld : string }.
End ReassignRequest.

(** The loop of [Handler.CreateTeam] over [req.Members], with its [seen] set
    and the members collected so far.  [TrimSpace] is [strings.TrimSpace]. *)
Fixpoint validate_members (TrimSpace : string → string)
    (ms : list CreateTeamRequest.member) (seen : gset string)
    (members : list TeamMember.t) : outcome (list TeamMember.t) :=
  match ms with
  | [] => Ok members
  | m :: ms' =>
      match CreateTeamRequest.IsActive m with
      | None => Err model_ErrBadRequest
      | Some isActive =>
          if decide (TrimSpace (CreateTeamRequest.UserID m) = ""
                     ∨ TrimSpace (CreateTeamRequest.Username m) = "")
          then Err model_ErrBadRequest
          else if decide (CreateTeamRequest.UserID m ∈ seen)
          then Err model_ErrBadRequest
          else
            validate_members TrimSpace ms'
              ({[CreateTeamRequest.UserID m]} ∪ seen)
              (members ++ [TeamMember.mk (CreateTeamRequest.UserID m)
                             (CreateTeamRequest.Username m) isActive])
      end
  end.

Module handler.

(** [GET /health] *)
Definition Health : Response.t := Response.mk StatusOK HealthBody.

(** [POST /team/add] *)
Definition CreateTeam (TrimSpace : string → string)
    (body : option CreateTeamRequest.t) (db : DB) : Response.t * DB :=
  match decode body with
  | Err err => (respondError err, db)
  | Ok req =>
      if decide (TrimSpace (CreateTeamRequest.TeamName req) = "") then
        (respondError model_ErrBadRequest, db)
      else
        match validate_members TrimSpace (CreateTeamRequest.Members req)
                ∅ [] with
        | Err err => (respondError err, db)
        | Ok members =>
            let team := Team.mk (CreateTeamRequest.TeamName req) members in
            match CreateTeam team db with
            | (Err err, db') => (respondError err, db')
            | (Ok _, db') =>
                (Response.mk StatusCreated (TeamCreatedBody team), db')
            end
        end
  end.

(** [GET /team/get]; [teamName] is the query parameter, empty when
    absent. *)
Definition GetTeam (collate : relation string) `{!RelDecision collate}
    (teamName : string) (db : DB) : Response.t * DB :=
  if decide (teamName = "") then (respondError model_ErrBadRequest, db)
  else
    match service_GetTeam collate teamName db with
    | (Err err, db') => (respondError err, db')
    | (Ok team, db') => (Response.mk StatusOK (TeamBody team), db')
    end.

(** [POST /users/setIsActive] *)
Definition SetUserActivity (TrimSpace : string → string)
    (body : option SetUserActivityRequest.t) (db : DB) : Response.t * DB :=
  match decode body with
  | Err err => (respondError err, db)
  | Ok req =>
      match SetUserActivityRequest.IsActive req with
      | None => (respondError model_ErrBadRequest, db)
      | Some isActive =>
          if decide (TrimSpace (SetUserActivityRequest.UserID req) = "")
          then (respondError model_ErrBadRequest, db)
          else
            match service_SetUserActiveStatus
                    (SetUserActivityRequest.UserID req) isActive db with
            | (Err err, db') => (respondError err, db')
            | (Ok user, db') => (Response.mk StatusOK (UserBody user), db')
            end
      end
  end.

(** [GET /users/getReview]; [userID] is the query parameter. *)
Definition GetUserReviews (userID : string) (db : DB) : Response.t * DB :=
  if decide (userID = "") then (respondError model_ErrBadRequest, db)
  else
    match GetUserReviewPRs userID db with
    | (Err err, db') => (respondError err, db')
    | (Ok prs, db') =>
        (Response.mk StatusOK (UserReviewsBody userID prs), db')
    end.

(** [POST /pullRequest/create] *)
Definition CreatePR (TrimSpace : string → string) (rnd : nat → nat)
    (dbnow : timestamptz) (body : option CreatePRRequest.t) (db : DB)
  : Response.t * DB :=
  match decode body with
  | Err err => (respondError err, db)
  | Ok req =>
      if decide (TrimSpace (CreatePRRequest.ID req) = ""
                 ∨ TrimSpace (CreatePRRequest.AuthorID req) = ""
                 ∨ TrimSpace (CreatePRRequest.Name req) = "")
      then (respondError model_ErrBadRequest, db)
      else
        match CreatePullRequest rnd dbnow (CreatePRRequest.ID req)
                (CreatePRRequest.Name req) (CreatePRRequest.AuthorID req)
                db with
        | (Err err, db') => (respondError err, db')
        | (Ok pr, db') => (Response.mk StatusCreated (PRBody pr), db')
        end
  end.

(** [POST /pullRequest/merge] *)
Definition MergePR (TrimSpace : string → string) (now : Time)
    (body : option MergePRRequest.t) (db : DB) : Response.t * DB :=
  match decode body with
  | Err err => (respondError err, db)
  | Ok req =>
      if decide (TrimSpace (MergePRRequest.ID req) = "")
      then (respondError model_ErrBadRequest, db)
      else
        match MergePullRequest now (MergePRRequest.ID req) db with
        | (Err err, db') => (respondError err, db')
        | (Ok pr, db') => (Response.mk StatusOK (PRBody pr), db')
        end
  end.

(** [POST /pullRequest/reassign]: [old_user_id], or [old_reviewer_id] when
    [old_user_id] is empty. *)
Definition ReassignReviewer (TrimSpace : string → string) (rnd : nat → nat)
    (body : option ReassignRequest.t) (db : DB) : Response.t * DB :=
  match decode body with
  | Err err => (respondError err, db)
  | Ok req =>
      let oldUserID :=
        if decide (ReassignRequest.OldUserID req = "")
        then ReassignRequest.LegacyOld req
        else ReassignRequest.OldUserID req in
      if decide (TrimSpace (ReassignRequest.PRID req) = ""
                 ∨ TrimSpace oldUserID = "")
      then (respondError model_ErrBadRequest, db)
      else
        match ReassignReviewer rnd (ReassignRequest.PRID req) oldUserID
                db with
        | (Err err, db') => (respondError err, db')
        | (Ok (pr, replacedBy), db') =>
            (Response.mk StatusOK (ReassignedBody pr replacedBy), db')
        end
  end.

End handler.

(** ** The ways a call changes the database *)

(** What a call of the public API can do to the database: nothing (a read,
    an error, a repeated merge), or one of five writes. *)
Inductive db_change (db : DB) : DB → Prop :=
  | change_none : db_change db db
  | change_team team :
      Team.TeamName team ∉ teams db →
      db_change db
        (mk_DB ({[Team.TeamName team]} ∪ teams db)
           (foldl (upsert_user (Team.TeamName team)) (users db)
              (Team.Members team))
           (pull_requests db))
  | change_active userID isActive row :
      users db !! userID = Some row →
      db_change db
        (mk_DB (teams db)
           (<[userID := mk_users_row (username row) (team_name row)
                          isActive]> (users db))
           (pull_requests db))
  | change_create rnd dbnow prID prName authorID a :
      users db !! authorID = Some a →
      pull_requests db !! prID = None →
      db_change db
        (mk_DB (teams db) (users db)
           (<[prID := mk_pr_row prName authorID PROpen
                        (create_reviewers rnd db (team_name a) authorID)
                        dbnow None]> (pull_requests db)))
  | change_merge now prID r :
      pull_requests db !! prID = Some r →
      status r = PROpen →
      db_change db
        (mk_DB (teams db) (users db)
           (<[prID := mk_pr_row (pull_request_name r) (author_id r) PRMerged
                        (assigned_reviewers r) (created_at r)
                        (Some (encode_timestamptz now))]>
              (pull_requests db)))
  | change_reassign rnd prID oldUserID r u replacedBy rest :
      pull_requests db !! prID = Some r →
      status r = PROpen →
      users db !! oldUserID = Some u →
      oldUserID ∈ assigned_reviewers r →
      selectRandom rnd
        (reassign_candidates db (team_name u) (author_id r) oldUserID
           (assigned_reviewers r)) 1 = replacedBy :: rest →
      db_change db
        (mk_DB (teams db) (users db)
           (<[prID := mk_pr_row (pull_request_name r) (author_id r) PROpen
                        (replace_reviewer oldUserID replacedBy
                           (assigned_reviewers r))
                        (created_at r) (merged_at r)]>
              (pull_requests db))).

(** What holds of every database built through the API, beyond [db_ok]: the
    two foreign keys, and the merge timestamp being set exactly on merged
    pull requests. *)
Definition db_refs_ok (db : DB) : Prop :=
  (∀ prID r, pull_requests db !! prID = Some r →
     is_Some (users db !! author_id r)
     ∧ (status r = PROpen ↔ merged_at r = None))
  ∧ (∀ userID row, users db !! userID = Some row →
       team_name row ∈ teams db).

(** Row [r'] is pull request [r] at a later time: the same name, author,
    creation timestamp and number of reviewers, and not reopened. *)
Definition same_pull_request (r r' : pull_requests_row) : Prop :=
  pull_request_name r' = pull_request_name r
  ∧ author_id r' = author_id r
  ∧ created_at r' = created_at r
  ∧ length (assigned_reviewers r') = length (assigned_reviewers r)
  ∧ (status r = PRMerged → status r' = PRMerged).


(** The error a call of the public API returns, if any.  [collate] is the
    order [GetTeam] sorts by. *)
Definition error_of {A} (res : outcome A) : option error :=
  match res with
  | Ok _ => None
  | Err e => Some e
  end.

Definition exec_error (collate : relation string) `{!RelDecision collate}
    (db : DB) (call : ApiCall) : option error :=
  match call with
  | CallCreateTeam team => error_of (CreateTeam team db).1
  | CallGetTeam teamName => error_of (service_GetTeam collate teamName db).1
  | CallSetUserActiveStatus userID isActive =>
      error_of (service_SetUserActiveStatus userID isActive db).1
  | CallCreatePullRequest rnd dbnow prID prName authorID =>
      error_of (CreatePullRequest rnd dbnow prID prName authorID db).1
  | CallMergePullRequest now prID => error_of (MergePullRequest now prID db).1
  | CallReassignReviewer rnd prID oldUserID =>
      error_of (ReassignReviewer rnd prID oldUserID db).1
  | CallGetUserReviewPRs userID => error_of (GetUserReviewPRs userID db).1
  end.

(** The errors of the service's own vocabulary that its operations
    return. *)
Definition domain_errors : list error :=
  [model_ErrNotFound; model_ErrTeamExists; model_ErrPRExists;
   model_ErrPRMerged; model_ErrNotAssigned; model_ErrNoCandidate].

(** The order of byte strings, for the sample data. *)
Definition bytewise : relation string := λ a b, String.leb a b = true.

#[global] Instance bytewise_dec : RelDecision bytewise.
Proof. intros a b. unfold bytewise. apply _. Defined.

Definition final_calls : list ApiCall :=
  [CallReassignReviewer rnd0 "pr1" "u2";
   CallSetUserActiveStatus "u4" false;
   CallCreateTeam frontend;
   CallCreatePullRequest rnd0 dbnow1 "pr1" "again" "u3";
   CallMergePullRequest now2 "pr1"].


(** The identifiers of the pull requests that [GetUserReviewPRs] lists for a
    user. *)
Definition review_ids (userID : string) (db : DB) : list string :=
  match (GetUserReviewPRs userID db).1 with
  | Ok prs => PullRequestShort.ID <$> prs
  | Err _ => []
  end.

(** The calls that can make [userID] active: creating a team that lists the
    user, and setting the user's flag. *)
Definition activates (userID : string) (call : ApiCall) : Prop :=
  match call with
  | CallCreateTeam team =>
      userID ∈ TeamMember.UserID <$> Team.Members team
  | CallSetUserActiveStatus userID' isActive =>
      userID' = userID ∧ isActive = true
  | _ => False
  end.

#[global] Instance activates_dec userID call : Decision (activates userID call).
Proof. destruct call; simpl; apply _. Defined.

Definition quiet_calls : list ApiCall :=
  [CallSetUserActiveStatus "u4" false;
   CallReassignReviewer rnd0 "pr1" "u2";
   CallCreatePullRequest rnd0 dbnow1 "pr2" "docs" "u1";
   CallMergePullRequest now2 "pr1"].

(** ** The router *)

(** The requests that [SetupRouter] routes to a handler of this package
    ([/metrics], the middleware and the paths that have no route are left
    out).  A request carries what the handler reads: the decoded body or the
    query parameter, and the answers of the random generator and of the
    clocks while it is served. *)
Inductive Request :=
  | GetHealth
  | PostTeamAdd (body : option CreateTeamRequest.t)
  | GetTeamGet (team_name : string)
  | PostUsersSetIsActive (body : option SetUserActivityRequest.t)
  | GetUsersGetReview (user_id : string)
  | PostPullRequestCreate (rnd : nat → nat) (dbnow : timestamptz)
      (body : option CreatePRRequest.t)
  | PostPullRequestMerge (now : Time) (body : option MergePRRequest.t)
  | PostPullRequestReassign (rnd : nat → nat)
      (body : option ReassignRequest.t).

(** [SetupRouter]: the router, as the answer and the database after a
    request. *)
Definition SetupRouter (TrimSpace : string → string)
    (collate : relation string) `{!RelDecision collate} (req : Request) (db : DB) : Response.t * DB :=
  match req with
  | GetHealth => (handler.Health, db)
  | PostTeamAdd body => handler.CreateTeam TrimSpace body db
  | GetTeamGet teamName => handler.GetTeam collate teamName db
  | PostUsersSetIsActive body => handler.SetUserActivity TrimSpace body db
  | GetUsersGetReview userID => handler.GetUserReviews userID db
  | PostPullRequestCreate rnd dbnow body =>
      handler.CreatePR TrimSpace rnd dbnow body db
  | PostPullRequestMerge now body => handler.MergePR TrimSpace now body db
  | PostPullRequestReassign rnd body =>
      handler.ReassignReviewer TrimSpace rnd body db
  end.

(** The database after serving the requests one after the other. *)
Definition serve_all (TrimSpace : string → string)
    (collate : relation string) `{!RelDecision collate}
    (reqs : list Request) (db : DB) : DB :=
  foldl (λ db req, (SetupRouter TrimSpace collate req db).2) db reqs.

Definition is_error_body (body : Payload) : bool :=
  match body with
  | APIErrorResponse _ _ => true
  | _ => false
  end.

(** The JSON member object that carries all three fields of a member. *)
Definition request_member (m : TeamMember.t) : CreateTeamRequest.member :=
  CreateTeamRequest.mk_member (TeamMember.UserID m) (TeamMember.Username m)
    (Some (TeamMember.IsActive m)).

(** Members that pass the checks of [Handler.CreateTeam]: no blank
    identifier or name, no identifier twice. *)
Definition members_valid (TrimSpace : string → string)
    (members : list TeamMember.t) : Prop :=
  (∀ m, m ∈ members → TrimSpace (TeamMember.UserID m) ≠ ""
                      ∧ TrimSpace (TeamMember.Username m) ≠ "")
  ∧ NoDup (TeamMember.UserID <$> members).

(** No stored identifier or name is blank. *)
Definition no_blank (TrimSpace : string → string) (db : DB) : Prop :=
  (∀ teamName, teamName ∈ teams db → TrimSpace teamName ≠ "")
  ∧ (∀ userID row, users db !! userID = Some row →
       TrimSpace userID ≠ "" ∧ TrimSpace (username row) ≠ "")
  ∧ (∀ prID r, pull_requests db !! prID = Some r →
       TrimSpace prID ≠ "" ∧ TrimSpace (pull_request_name r) ≠ "").

(** A stand-in for [strings.TrimSpace] on the sample data: it removes
    leading spaces. *)
Definition space : Ascii.ascii := Ascii.ascii_of_nat 32.

Fixpoint trim_left (s : string) : string :=
  match s with
  | String c s' => if Ascii.eqb c space then trim_left s' else s
  | EmptyString => s
  end.

Definition erin_row : users_row := mk_users_row "erin" "backend" false.

Definition pair_body : option CreateTeamRequest.t :=
  Some (CreateTeamRequest.mk "pair" (request_member <$> Team.Members pair)).

Definition sample_requests : list Request :=
  [PostTeamAdd pair_body;
   PostPullRequestCreate rnd0 dbnow1
     (Some (CreatePRRequest.mk "pr7" "fix" "p1"));
   PostPullRequestCreate rnd0 dbnow1
     (Some (CreatePRRequest.mk "  " "fix" "p1"));
   PostPullRequestMerge now1 (Some (MergePRRequest.mk "pr9"))].

Definition sample_memory : Memory :=
  {[0 := ["z"; "a"; "b"; "c"]; 5 := ["k"]]}.

(** * Properties *)

(** ** Candidate selector *)

Section selector.
Implicit Types (users : list User.t) (ids exclude : list string).

Lemma elem_of_excludeSet authorID exclude id :
  id ∈ excludeSet authorID exclude ↔ id = authorID ∨ id ∈ exclude.
Proof.
  unfold excludeSet.
  assert (∀ (set : gset string),
            id ∈ foldl (λ set id, {[id]} ∪ set) set exclude
            ↔ id ∈ set ∨ id ∈ exclude) as Hgen.
  { induction exclude as [|x exclude IH]; intros set; simpl.
    - set_solver.
    - rewrite IH. set_solver. }
  rewrite Hgen. set_solver.
Qed.

(** The loop of [activeReviewers] computes a filter followed by a
    projection. *)
Lemma activeReviewers_filter users authorID exclude :
  activeReviewers users authorID exclude =
  User.UserID <$>
    filter (λ u, User.IsActive u = true
                 ∧ User.UserID u ∉ excludeSet authorID exclude) users.
Proof.
  unfold activeReviewers.
  set (step := λ (result : list string) (u : User.t), _).
  assert (∀ acc, foldl step acc users =
                 acc ++ (User.UserID <$>
                   filter (λ u, User.IsActive u = true
                                ∧ User.UserID u ∉ excludeSet authorID exclude)
                          users)) as Hgen.
  { induction users as [|u users IH]; intros acc; simpl.
    - by rewrite app_nil_r.
    - rewrite IH. unfold step at 1. rewrite filter_cons.
      destruct (User.IsActive u) eqn:Hact; simpl;
        repeat case_decide; try naive_solver.
      by rewrite fmap_cons, <- app_assoc. }
  apply (Hgen []).
Qed.

Lemma elem_of_activeReviewers users authorID exclude id :
  id ∈ activeReviewers users authorID exclude ↔
  ∃ u, u ∈ users ∧ User.UserID u = id ∧ User.IsActive u = true
       ∧ id ≠ authorID ∧ id ∉ exclude.
Proof.
  rewrite activeReviewers_filter, list_elem_of_fmap.
  split.
  - intros (u & -> & Hu). apply list_elem_of_filter in Hu as [[Hact Hex] Hu].
    rewrite elem_of_excludeSet in Hex. exists u. naive_solver.
  - intros (u & Hu & <- & Hact & Hne & Hex). exists u. split; [done|].
    apply list_elem_of_filter. rewrite elem_of_excludeSet. naive_solver.
Qed.

Lemma NoDup_activeReviewers users authorID exclude :
  NoDup (User.UserID <$> users) →
  NoDup (activeReviewers users authorID exclude).
Proof.
  intros Hnd. rewrite activeReviewers_filter.
  induction users as [|u users IH]; simpl; [constructor|].
  rewrite fmap_cons in Hnd. apply NoDup_cons in Hnd as [Hu Hnd].
  rewrite filter_cons. case_decide; [|by apply IH].
  rewrite fmap_cons. apply NoDup_cons. split; [|by apply IH].
  intros Hin. apply Hu. apply list_elem_of_fmap in Hin as (u' & -> & Hu').
  apply list_elem_of_filter in Hu' as [_ Hu']. by apply list_elem_of_fmap_2.
Qed.

(** *** The shuffle *)

Lemma swap_Permutation ids i j : swap ids i j ≡ₚ ids.
Proof.
  unfold swap.
  destruct (ids !! i) as [a|] eqn:Hi; [|done].
  destruct (ids !! j) as [b|] eqn:Hj; [|done].
  by apply Permutation_insert_swap.
Qed.

Lemma Shuffle_loop_Permutation rnd i ids : Shuffle_loop rnd i ids ≡ₚ ids.
Proof.
  revert ids. induction i as [|i IH]; intros ids; simpl; [done|].
  rewrite IH. apply swap_Permutation.
Qed.

Lemma Shuffle_Permutation rnd ids : Shuffle rnd ids ≡ₚ ids.
Proof. apply Shuffle_loop_Permutation. Qed.

Lemma Shuffle_length rnd ids : length (Shuffle rnd ids) = length ids.
Proof. by rewrite Shuffle_Permutation. Qed.

Lemma selectRandom_length rnd ids limit :
  length (selectRandom rnd ids limit) = Nat.min limit (length ids).
Proof.
  unfold selectRandom. case_decide; [lia|].
  rewrite length_take, Shuffle_length. lia.
Qed.

(** What [selectRandom] returns, followed by what it leaves out, is the
    candidate list rearranged. *)
Lemma selectRandom_sub rnd ids limit :
  ∃ rest, selectRandom rnd ids limit ++ rest ≡ₚ ids.
Proof.
  unfold selectRandom. case_decide.
  - exists []. by rewrite app_nil_r.
  - exists (drop limit (Shuffle rnd ids)).
    rewrite take_drop. apply Shuffle_Permutation.
Qed.

Lemma selectRandom_elem_of rnd ids limit id :
  id ∈ selectRandom rnd ids limit → id ∈ ids.
Proof.
  destruct (selectRandom_sub rnd ids limit) as [rest Hp].
  intros Hin. rewrite <- Hp. apply elem_of_app. by left.
Qed.

Lemma selectRandom_NoDup rnd ids limit :
  NoDup ids → NoDup (selectRandom rnd ids limit).
Proof.
  destruct (selectRandom_sub rnd ids limit) as [rest Hp].
  intros Hnd. rewrite <- Hp in Hnd. by apply NoDup_app in Hnd as [? _].
Qed.

Lemma isReviewerAssigned_elem_of reviewers userID :
  isReviewerAssigned reviewers userID = true ↔ userID ∈ reviewers.
Proof.
  induction reviewers as [|r reviewers IH]; simpl.
  - split; [done|]. by intros ?%elem_of_nil.
  - rewrite elem_of_cons. case_decide; naive_solver.
Qed.
End selector.

(** ** The selector on slices *)

Section memory.
Implicit Types (m : Memory) (s ids : slice).

Lemma elems_length m s : slice_ok m s → length (elems m s) = slice_len s.
Proof.
  destruct s as [|base off len]; simpl; [done|].
  intros (arr & -> & Hle). simpl. rewrite length_take, length_drop. lia.
Qed.

Lemma elems_lookup m base off len arr i :
  m !! base = Some arr → i < len →
  elems m (mk_slice base off len) !! i = arr !! (off + i).
Proof.
  intros Hm Hi. simpl. rewrite Hm. simpl.
  by rewrite lookup_take_lt, lookup_drop by done.
Qed.

Lemma elems_insert m base off len arr arr' :
  m !! base = Some arr →
  elems (<[base := arr']> m) (mk_slice base off len) = take len (drop off arr').
Proof. intros _. simpl. by rewrite lookup_insert_eq. Qed.

Lemma window_insert (arr : list string) off len i x :
  i < len →
  take len (drop off (<[off + i := x]> arr)) =
  <[i := x]> (take len (drop off arr)).
Proof.
  intros Hi. rewrite drop_insert_ge by lia.
  rewrite take_insert_lt by lia. f_equal. lia.
Qed.

Lemma swap_mem_ok m ids i j s :
  slice_ok m s → slice_ok (swap_mem ids i j m) s.
Proof.
  destruct ids as [|base off len]; simpl; [done|].
  destruct (m !! base) as [arr|] eqn:Hm; [|done].
  case_decide; [|done].
  destruct (arr !! (off + i)) as [a|]; [|done].
  destruct (arr !! (off + j)) as [b|]; [|done].
  destruct s as [|base' off' len']; simpl; [done|].
  intros (arr' & Harr' & Hle).
  destruct (decide (base = base')) as [->|Hne].
  - rewrite lookup_insert_eq. eexists. split; [done|].
    rewrite !length_insert. congruence.
  - rewrite lookup_insert_ne by done. by eexists.
Qed.

Lemma swap_mem_elems m ids i j :
  slice_ok m ids →
  elems (swap_mem ids i j m) ids = swap (elems m ids) i j.
Proof.
  destruct ids as [|base off len]; [done|].
  intros (arr & Hm & Hle). unfold swap_mem. rewrite Hm.
  unfold swap. case_decide as Hij.
  - destruct Hij as [Hi Hj].
    rewrite !(elems_lookup m base off len arr) by done.
    destruct (arr !! (off + i)) as [a|] eqn:Ha; [|done].
    destruct (arr !! (off + j)) as [b|] eqn:Hb; [|done].
    rewrite (elems_insert _ _ _ _ arr) by done.
    rewrite !window_insert by done. simpl. by rewrite Hm.
  - assert (length (elems m (mk_slice base off len)) = len) as Hlen.
    { apply (elems_length m (mk_slice base off len)). by exists arr. }
    destruct (elems m (mk_slice base off len) !! i) as [a|] eqn:Ha; [|done].
    destruct (elems m (mk_slice base off len) !! j) as [b|] eqn:Hb; [|done].
    apply lookup_lt_Some in Ha, Hb. lia.
Qed.

Lemma swap_mem_dom m ids i j : dom (swap_mem ids i j m) = dom m.
Proof.
  destruct ids as [|base off len]; simpl; [done|].
  destruct (m !! base) as [arr|] eqn:Hm; [|done].
  case_decide; [|done].
  destruct (arr !! (off + i)) as [a|]; [|done].
  destruct (arr !! (off + j)) as [b|]; [|done].
  rewrite dom_insert_L. apply elem_of_dom_2 in Hm. set_solver.
Qed.

Lemma Shuffle_loop_mem_elems rnd i ids m :
  slice_ok m ids →
  elems (Shuffle_loop_mem rnd i ids m) ids = Shuffle_loop rnd i (elems m ids).
Proof.
  revert m. induction i as [|i IH]; intros m Hs; simpl; [done|].
  rewrite IH by (by apply swap_mem_ok). by rewrite swap_mem_elems.
Qed.

Lemma Shuffle_loop_mem_dom rnd i ids m :
  dom (Shuffle_loop_mem rnd i ids m) = dom m.
Proof.
  revert m. induction i as [|i IH]; intros m; simpl; [done|].
  by rewrite IH, swap_mem_dom.
Qed.

Lemma elems_reslice m ids limit :
  limit ≤ slice_len ids →
  elems m (reslice ids limit) = take limit (elems m ids).
Proof.
  destruct ids as [|base off len]; simpl; [by rewrite take_nil|].
  intros Hle. rewrite take_take. f_equal. lia.
Qed.

Lemma append_to_nil_elems xs m :
  elems (append_to_nil xs m).2 (append_to_nil xs m).1 = xs.
Proof.
  destruct xs as [|x xs]; [done|]. unfold append_to_nil, elems.
  cbn [fst snd]. rewrite lookup_insert_eq. simpl. by rewrite take_ge.
Qed.

Lemma append_to_nil_fresh xs m base off len :
  (append_to_nil xs m).1 = mk_slice base off len → base ∉ dom m.
Proof.
  destruct xs as [|x xs]; [done|]. simpl. intros [= <- _ _]. apply is_fresh.
Qed.

End memory.

(** ** The shuffle under every answer of the generator *)

Section uniform.
Implicit Types (l ids p q : list string) (js : list nat).

Lemma swap_length l i j : length (swap l i j) = length l.
Proof. by rewrite swap_Permutation. Qed.

Lemma swap_lookup_l l i j a b :
  l !! i = Some a → l !! j = Some b → swap l i j !! i = Some b.
Proof.
  intros Hi Hj. unfold swap. rewrite Hi, Hj.
  destruct (decide (i = j)) as [->|Hne].
  - rewrite list_lookup_insert_eq; [congruence|].
    rewrite length_insert. by eapply lookup_lt_Some.
  - rewrite list_lookup_insert_ne by done.
    apply list_lookup_insert_eq. by eapply lookup_lt_Some.
Qed.

Lemma swap_app l1 l2 i j :
  i < length l1 → j < length l1 → swap (l1 ++ l2) i j = swap l1 i j ++ l2.
Proof.
  intros Hi Hj. unfold swap. rewrite !lookup_app_l by done.
  destruct (l1 !! i) as [a|]; [|done]. destruct (l1 !! j) as [b|]; [|done].
  rewrite insert_app_l by done.
  rewrite insert_app_l by (by rewrite length_insert). done.
Qed.

Lemma Shuffle_loop_app rnd i l1 l2 :
  i < length l1 →
  Shuffle_loop rnd i (l1 ++ l2) = Shuffle_loop rnd i l1 ++ l2.
Proof.
  revert l1. induction i as [|i IH]; intros l1 Hi; simpl; [done|].
  assert (rnd (S i) `mod` (S i + 1) < S i + 1)
    by (apply Nat.mod_upper_bound; lia).
  rewrite swap_app by lia. apply IH. rewrite swap_length. lia.
Qed.

Lemma Shuffle_loop_ext rnd rnd' i l :
  (∀ k, 1 ≤ k ≤ i → rnd k = rnd' k) →
  Shuffle_loop rnd i l = Shuffle_loop rnd' i l.
Proof.
  revert l. induction i as [|i IH]; intros l Hext; simpl; [done|].
  rewrite (Hext (S i)) by lia. apply IH. intros k Hk. apply Hext. lia.
Qed.

Lemma Shuffle_loop_draws_cons i j js l :
  j ≤ S i →
  Shuffle_loop (draws_rnd (S i) (j :: js)) (S i) l =
  Shuffle_loop (draws_rnd i js) i (swap l (S i) j).
Proof.
  intros Hj. cbn [Shuffle_loop].
  assert (draws_rnd (S i) (j :: js) (S i) = j) as ->.
  { unfold draws_rnd. by rewrite Nat.sub_diag. }
  rewrite Nat.mod_small by lia.
  apply Shuffle_loop_ext. intros k Hk. unfold draws_rnd.
  replace (S i - k) with (S (i - k)) by lia. done.
Qed.

Lemma fmap_bind_list {A B C} (f : B → C) (g : A → list B) (xs : list A) :
  f <$> (xs ≫= g) = xs ≫= (λ x, f <$> g x).
Proof.
  induction xs as [|x xs IH]; [done|].
  by rewrite !bind_cons, fmap_app, IH.
Qed.

Lemma outcomes_0 l : outcomes 0 l = [l].
Proof. done. Qed.

Lemma outcomes_S i l :
  outcomes (S i) l = j ← seq 0 (S (S i)); outcomes i (swap l (S i) j).
Proof.
  unfold outcomes. cbn [all_draws]. rewrite fmap_bind_list.
  apply Forall_bind_ext, Forall_forall. intros j Hj%elem_of_seq.
  rewrite <- list_fmap_compose. apply list_fmap_ext.
  intros _ js _. simpl. apply Shuffle_loop_draws_cons. lia.
Qed.

Lemma outcomes_app i l1 l2 :
  i < length l1 → outcomes i (l1 ++ l2) = (λ p, p ++ l2) <$> outcomes i l1.
Proof.
  intros Hi. unfold outcomes. rewrite <- list_fmap_compose.
  apply list_fmap_ext. intros _ js _. simpl. by apply Shuffle_loop_app.
Qed.

(** After the swap of step [S i] the last entry is the one that was at
    position [j]; the loop goes on with the entries before it. *)
Lemma swap_last l i j x :
  length l = S (S i) → l !! j = Some x →
  ∃ l0, swap l (S i) j = l0 ++ [x] ∧ length l0 = S i ∧ l0 ++ [x] ≡ₚ l.
Proof.
  intros Hlen Hj.
  destruct (lookup_lt_is_Some_2 l (S i)) as [z Hz]; [lia|].
  pose proof (swap_lookup_l l (S i) j z x Hz Hj) as Hlast.
  pose proof (swap_length l (S i) j) as Hslen.
  pose proof (swap_Permutation l (S i) j) as Hperm.
  destruct (swap l (S i) j) as [|y s] using rev_ind; [simpl in *; lia|].
  clear IHs. rewrite length_app in Hslen. simpl in Hslen.
  rewrite lookup_app_r in Hlast by lia.
  replace (S i - length s) with 0 in Hlast by lia. simpl in Hlast.
  injection Hlast as ->. exists s. split; [done|]. split; [lia|done].
Qed.

Lemma outcomes_S_block i l j x :
  length l = S (S i) → l !! j = Some x →
  ∃ l0, outcomes i (swap l (S i) j) = (λ p, p ++ [x]) <$> outcomes i l0
        ∧ length l0 = S i ∧ l0 ++ [x] ≡ₚ l.
Proof.
  intros Hlen Hj. destruct (swap_last l i j x Hlen Hj) as (l0 & -> & Hl0 & Hp).
  exists l0. split; [|done]. apply outcomes_app. lia.
Qed.

(** The outcomes of the shuffle are the rearrangements of the list. *)
Lemma elem_of_outcomes i l p :
  length l = S i → p ∈ outcomes i l ↔ p ≡ₚ l.
Proof.
  revert l p. induction i as [|i IH]; intros l p Hlen.
  - rewrite outcomes_0, list_elem_of_singleton.
    destruct l as [|x [|??]]; try done. by rewrite Permutation_singleton_r.
  - rewrite outcomes_S, list_elem_of_bind. split.
    + intros (j & Hp & Hj%elem_of_seq).
      destruct (lookup_lt_is_Some_2 l j) as [x Hx]; [lia|].
      destruct (outcomes_S_block i l j x Hlen Hx) as (l0 & Heq & Hl0 & Hperm).
      rewrite Heq in Hp. apply list_elem_of_fmap in Hp as (p0 & -> & Hp0).
      apply IH in Hp0; [|done]. by rewrite Hp0.
    + intros Hperm.
      assert (length p = S (S i)) as Hplen by (by rewrite Hperm).
      destruct p as [|x p0] using rev_ind; [done|]. clear IHp0.
      assert (x ∈ l) as [j Hj]%list_elem_of_lookup.
      { rewrite <- Hperm. apply elem_of_app. right. by left. }
      exists j. split; [|apply elem_of_seq; apply lookup_lt_Some in Hj; lia].
      destruct (outcomes_S_block i l j x Hlen Hj) as (l0 & Heq & Hl0 & Hperm').
      rewrite Heq. apply list_elem_of_fmap. exists p0. split; [done|].
      apply IH; [done|]. rewrite <- Hperm' in Hperm.
      by apply Permutation_app_inv_r in Hperm.
Qed.

(** Different answers of the generator give different outcomes. *)
Lemma NoDup_outcomes i l :
  length l = S i → NoDup l → NoDup (outcomes i l).
Proof.
  revert l. induction i as [|i IH]; intros l Hlen Hnd.
  - rewrite outcomes_0. apply NoDup_singleton.
  - rewrite outcomes_S. apply NoDup_bind; [| |apply NoDup_seq].
    + intros j1 j2 p Hj1%elem_of_seq Hj2%elem_of_seq Hp1 Hp2.
      destruct (lookup_lt_is_Some_2 l j1) as [x1 Hx1]; [lia|].
      destruct (lookup_lt_is_Some_2 l j2) as [x2 Hx2]; [lia|].
      destruct (outcomes_S_block i l j1 x1 Hlen Hx1) as (l1 & Heq1 & _).
      destruct (outcomes_S_block i l j2 x2 Hlen Hx2) as (l2 & Heq2 & _).
      rewrite Heq1 in Hp1. rewrite Heq2 in Hp2.
      apply list_elem_of_fmap in Hp1 as (p1 & -> & _).
      apply list_elem_of_fmap in Hp2 as (p2 & Heq & _).
      apply app_inj_tail in Heq as [_ <-].
      by eapply NoDup_lookup.
    + intros j Hj%elem_of_seq.
      destruct (lookup_lt_is_Some_2 l j) as [x Hx]; [lia|].
      destruct (outcomes_S_block i l j x Hlen Hx) as (l0 & -> & Hl0 & Hperm).
      apply NoDup_fmap_2; [intros ?? [? _]%app_inj_tail; done|].
      apply IH; [done|]. rewrite <- Hperm in Hnd.
      by apply NoDup_app in Hnd as [? _].
Qed.

Lemma length_bind_const {A B} (f : A → list B) (xs : list A) c :
  (∀ x, x ∈ xs → length (f x) = c) → length (xs ≫= f) = length xs * c.
Proof.
  induction xs as [|x xs IH]; intros Hc; [done|].
  rewrite bind_cons, length_app, IH, Hc; [simpl; lia|by left|].
  intros y Hy. apply Hc. by right.
Qed.

(** There are [(i + 1)!] ways to answer at steps [i], ..., 1. *)
Lemma all_draws_length i : length (all_draws i) = fact (S i).
Proof.
  induction i as [|i IH]; [done|]. cbn [all_draws].
  rewrite (length_bind_const _ _ (fact (S i))).
  - rewrite length_seq. done.
  - intros j _. by rewrite length_fmap.
Qed.

Lemma outcomes_length i l : length (outcomes i l) = fact (S i).
Proof. unfold outcomes. by rewrite length_fmap, all_draws_length. Qed.

Lemma length_filter_fmap {A B} (f : A → B) (P : B → Prop)
    `{!∀ y, Decision (P y)} (xs : list A) :
  length (filter P (f <$> xs)) = length (filter (λ x, P (f x)) xs).
Proof.
  induction xs as [|x xs IH]; [done|].
  rewrite fmap_cons, !filter_cons. case_decide; simpl; by rewrite IH.
Qed.

Lemma Permutation_list_difference l q :
  NoDup l → NoDup q → q ⊆ l → l ≡ₚ q ++ list_difference l q.
Proof.
  intros Hl Hq Hsub. apply NoDup_Permutation; [done| |].
  - apply NoDup_app. split; [done|]. split.
    + intros x Hx [_ Hn]%list_elem_of_difference. done.
    + by apply NoDup_list_difference.
  - intros x. rewrite elem_of_app, list_elem_of_difference.
    destruct (decide (x ∈ q)); set_solver.
Qed.

(** Among the outcomes, those that begin with [q] are [q] followed by the
    outcomes of shuffling what [q] leaves. *)
Lemma outcomes_with_prefix i l q :
  length l = S i → NoDup l → NoDup q → q ⊆ l → length q < length l →
  filter (λ p, take (length q) p = q) (outcomes i l)
  ≡ₚ (λ p, q ++ p) <$> outcomes (i - length q) (list_difference l q).
Proof.
  intros Hlen Hl Hq Hsub Hk.
  pose proof (Permutation_list_difference l q Hl Hq Hsub) as Hsplit.
  assert (length (list_difference l q) = S (i - length q)) as Hrest.
  { apply Permutation_length in Hsplit. rewrite length_app in Hsplit. lia. }
  apply NoDup_Permutation.
  - by apply NoDup_filter, NoDup_outcomes.
  - apply NoDup_fmap_2; [intros ??; apply app_inv_head|].
    apply NoDup_outcomes; [done|]. by apply NoDup_list_difference.
  - intros p. rewrite list_elem_of_filter, list_elem_of_fmap.
    rewrite elem_of_outcomes by done. split.
    + intros [Hpre Hperm]. exists (drop (length q) p).
      split; [by rewrite <- Hpre at 1; rewrite take_drop|].
      apply elem_of_outcomes; [done|].
      rewrite <- (take_drop (length q) p), Hpre, Hsplit in Hperm.
      by apply Permutation_app_inv_l in Hperm.
    + intros (p' & -> & Hp'). apply elem_of_outcomes in Hp'; [|done].
      split; [by rewrite take_app_length|]. by rewrite Hp', <- Hsplit.
Qed.

(** Every beginning of [limit] pairwise distinct entries of [l] is produced
    by the same number, [(length l - limit)!], of the ways the generator can
    answer. *)
Lemma count_draws_prefix i l q :
  length l = S i → NoDup l → NoDup q → q ⊆ l → length q < length l →
  length (filter (λ js, take (length q) (Shuffle_loop (draws_rnd i js) i l) = q)
                 (all_draws i))
  = fact (length l - length q).
Proof.
  intros Hlen Hl Hq Hsub Hk.
  trans (length (filter (λ p, take (length q) p = q) (outcomes i l))).
  { unfold outcomes. by rewrite length_filter_fmap. }
  rewrite outcomes_with_prefix by done.
  rewrite length_fmap, outcomes_length. f_equal. lia.
Qed.

(** The enumeration of the answers is faithful: it lists each way once,
    every listed way stays within the range of its step, and whatever the
    generator yields, the loop does what it does for one of the listed
    ways. *)
Lemma NoDup_all_draws i : NoDup (all_draws i).
Proof.
  induction i as [|i IH]; [apply NoDup_singleton|]. cbn [all_draws].
  apply NoDup_bind; [| |apply NoDup_seq].
  - intros j1 j2 js _ _ (js1 & -> & _)%list_elem_of_fmap
      (js2 & [= -> _] & _)%list_elem_of_fmap. done.
  - intros j _. apply NoDup_fmap_2; [|done]. by intros ?? [= ].
Qed.

Lemma all_draws_complete rnd i l :
  ∃ js, js ∈ all_draws i
        ∧ Shuffle_loop rnd i l = Shuffle_loop (draws_rnd i js) i l.
Proof.
  revert l. induction i as [|i IH]; intros l.
  - exists []. split; [by left|done].
  - set (j := rnd (S i) `mod` (S i + 1)).
    assert (j < S i + 1) by (apply Nat.mod_upper_bound; lia).
    destruct (IH (swap l (S i) j)) as (js & Hjs & Heq).
    exists (j :: js). split.
    + cbn [all_draws]. apply list_elem_of_bind. exists j.
      split; [by apply list_elem_of_fmap_2|]. apply elem_of_seq. lia.
    + rewrite Shuffle_loop_draws_cons by lia. by rewrite <- Heq.
Qed.
End uniform.

(** ** Team membership as the candidate selector sees it *)

Section members.
Implicit Types (db : DB) (u : User.t).

Lemma elem_of_select_team_members db teamName u :
  u ∈ select_team_members teamName db ↔
  ∃ r, users db !! User.UserID u = Some r ∧ team_name r = teamName
       ∧ u = scan_user (User.UserID u) r.
Proof.
  unfold select_team_members. rewrite list_elem_of_fmap. split.
  - intros ([k r] & -> & Hin). apply list_elem_of_filter in Hin as [Ht Hin].
    apply elem_of_map_to_list in Hin. exists r. simpl in *. done.
  - intros (r & Hr & Ht & Hu). exists (User.UserID u, r). split; [done|].
    apply list_elem_of_filter. split; [done|].
    by apply elem_of_map_to_list.
Qed.

Lemma select_team_members_ids db teamName :
  User.UserID <$> select_team_members teamName db =
  (filter (λ kr, team_name kr.2 = teamName) (map_to_list (users db))).*1.
Proof.
  unfold select_team_members. rewrite <- list_fmap_compose.
  by apply list_fmap_ext.
Qed.

Lemma sublist_fmap_fst {A B} (l1 l2 : list (A * B)) :
  l1 `sublist_of` l2 → l1.*1 `sublist_of` l2.*1.
Proof. induction 1; simpl; by constructor. Qed.

(** [user_id] is the primary key: no identifier is listed twice. *)
Lemma select_team_members_NoDup db teamName :
  NoDup (User.UserID <$> select_team_members teamName db).
Proof.
  rewrite select_team_members_ids.
  eapply sublist_NoDup; [apply (NoDup_fst_map_to_list (users db))|].
  apply sublist_fmap_fst, sublist_filter.
Qed.

Lemma candidates_NoDup db teamName authorID exclude :
  NoDup (activeReviewers (select_team_members teamName db) authorID exclude).
Proof. apply NoDup_activeReviewers, select_team_members_NoDup. Qed.

Lemma elem_of_candidates db teamName authorID exclude id :
  id ∈ activeReviewers (select_team_members teamName db) authorID exclude ↔
  ∃ r, users db !! id = Some r ∧ team_name r = teamName
       ∧ is_active r = true ∧ id ≠ authorID ∧ id ∉ exclude.
Proof.
  rewrite elem_of_activeReviewers. split.
  - intros (u & Hu & <- & Hact & Hne & Hex).
    apply elem_of_select_team_members in Hu as (r & Hr & Ht & Hu).
    exists r. rewrite Hu in Hact. done.
  - intros (r & Hr & Ht & Hact & Hne & Hex).
    exists (scan_user id r). split; [|done].
    apply elem_of_select_team_members. by exists r.
Qed.

Lemma elem_of_candidates_nil db teamName authorID id :
  id ∈ activeReviewers (select_team_members teamName db) authorID [] ↔
  is_Some (active_non_author_members db teamName authorID !! id).
Proof.
  rewrite elem_of_candidates. unfold active_non_author_members, is_Some.
  setoid_rewrite map_lookup_filter_Some. simpl.
  split.
  - intros (r & ? & ? & ? & ? & _). by exists r.
  - intros (r & ? & ? & ? & ?). exists r. repeat split; try done.
    by intros ?%elem_of_nil.
Qed.

(** There are exactly as many candidates at creation as there are active
    members of the author's team other than the author. *)
Lemma candidates_length db teamName authorID :
  length (activeReviewers (select_team_members teamName db) authorID []) =
  size (active_non_author_members db teamName authorID).
Proof.
  rewrite <- (size_dom (D := gset string)).
  apply Permutation_length, NoDup_Permutation.
  - apply candidates_NoDup.
  - apply NoDup_elements.
  - intros id. rewrite elem_of_candidates_nil, elem_of_elements.
    by rewrite elem_of_dom.
Qed.
End members.

(** ** Timestamps *)

Lemma encode_decode_timestamptz us :
  encode_timestamptz (decode_timestamptz us) = us.
Proof. unfold encode_timestamptz, decode_timestamptz. by apply Z.div_mul. Qed.

Lemma encode_decode_timestamptz_fmap (o : option timestamptz) :
  encode_timestamptz <$> (decode_timestamptz <$> o) = o.
Proof. destruct o; simpl; [|done]. by rewrite encode_decode_timestamptz. Qed.

(** ** Creating a pull request *)

(** Closed decidable facts about the sample data. *)
Ltac by_compute := apply (bool_decide_unpack _); vm_compute; exact I.

Ltac unfold_tx :=
  unfold WithTransaction, tx_bind, tx_ret, tx_fail, getUser, ListTeamMembers,
    activeReviewersFromTeam, GetPRByIDForUpdate, GetPRByID, fetchPR,
    CreatePR, UpdatePR, handleError, mapError, errors_Is in *.

Lemma CreatePullRequest_no_author rnd dbnow prID prName authorID db :
  users db !! authorID = None →
  CreatePullRequest rnd dbnow prID prName authorID db
  = (Err model_ErrNotFound, db).
Proof. intros Ha. unfold CreatePullRequest. unfold_tx. by rewrite Ha. Qed.

Lemma CreatePullRequest_taken rnd dbnow prID prName authorID db :
  is_Some (users db !! authorID) →
  is_Some (pull_requests db !! prID) →
  CreatePullRequest rnd dbnow prID prName authorID db
  = (Err model_ErrPRExists, db).
Proof.
  intros [a Ha] Hpr. unfold CreatePullRequest. unfold_tx. rewrite Ha. simpl.
  by rewrite decide_True by done.
Qed.

Lemma CreatePullRequest_fresh rnd dbnow prID prName authorID db a :
  users db !! authorID = Some a →
  pull_requests db !! prID = None →
  let reviewers := create_reviewers rnd db (team_name a) authorID in
  CreatePullRequest rnd dbnow prID prName authorID db =
  (Ok (PullRequest.mk prID prName authorID PROpen reviewers
         (Some (decode_timestamptz dbnow)) None),
   mk_DB (teams db) (users db)
     (<[prID := mk_pr_row prName authorID PROpen reviewers dbnow None]>
        (pull_requests db))).
Proof.
  intros Ha Hpr. unfold CreatePullRequest, create_reviewers. unfold_tx.
  rewrite Ha. simpl. rewrite Hpr.
  rewrite decide_False by (by intros [? ?]).
  rewrite decide_True by (by rewrite Ha). done.
Qed.

Lemma CreatePullRequest_error_unchanged rnd dbnow prID prName authorID db e
    db' :
  CreatePullRequest rnd dbnow prID prName authorID db = (Err e, db') →
  db' = db.
Proof.
  destruct (users db !! authorID) as [a|] eqn:Ha.
  2: { rewrite CreatePullRequest_no_author by done. by intros [= ]. }
  destruct (pull_requests db !! prID) as [r|] eqn:Hpr.
  - rewrite CreatePullRequest_taken by (by eexists). by intros [= ].
  - by rewrite (CreatePullRequest_fresh _ _ _ _ _ _ a).
Qed.

Lemma create_reviewers_spec rnd db teamName authorID :
  let reviewers := create_reviewers rnd db teamName authorID in
  length reviewers =
    Nat.min 2 (size (active_non_author_members db teamName authorID))
  ∧ NoDup reviewers
  ∧ (authorID ∉ reviewers)
  ∧ ∀ r, r ∈ reviewers →
         is_Some (active_non_author_members db teamName authorID !! r).
Proof.
  unfold create_reviewers. split; [|split; [|split]].
  - by rewrite selectRandom_length, candidates_length.
  - apply selectRandom_NoDup, candidates_NoDup.
  - intros Hin%selectRandom_elem_of%elem_of_candidates. naive_solver.
  - intros r Hin%selectRandom_elem_of. by apply elem_of_candidates_nil.
Qed.

(** C4. When the author exists and the identifier is free,
    [CreatePullRequest] succeeds whatever the team looks like.  The pull
    request it returns and the row it inserts have status OPEN and carry
    [min 2 n] reviewers, where [n] is the number of active members of the
    author's team other than the author: two when [n >= 2], one when
    [n = 1], none when [n = 0].  The reviewers are pairwise distinct, none
    is the author, and each is an active member of the author's team. *)
Theorem CreatePullRequest_assigns rnd dbnow prID prName authorID db a :
  users db !! authorID = Some a →
  pull_requests db !! prID = None →
  ∃ reviewers,
    CreatePullRequest rnd dbnow prID prName authorID db =
      (Ok (PullRequest.mk prID prName authorID PROpen reviewers
             (Some (decode_timestamptz dbnow)) None),
       mk_DB (teams db) (users db)
         (<[prID := mk_pr_row prName authorID PROpen reviewers dbnow None]>
            (pull_requests db)))
    ∧ length reviewers =
        Nat.min 2 (size (active_non_author_members db (team_name a) authorID))
    ∧ NoDup reviewers
    ∧ (authorID ∉ reviewers)
    ∧ ∀ r, r ∈ reviewers →
           is_Some (active_non_author_members db (team_name a) authorID !! r).
Proof.
  intros Ha Hpr. exists (create_reviewers rnd db (team_name a) authorID).
  split; [by apply CreatePullRequest_fresh|apply create_reviewers_spec].
Qed.

Lemma CreatePullRequest_assigns_witness :
  users team_db !! "u1" = Some alice_row
  ∧ pull_requests team_db !! "pr1" = None
  ∧ ∃ reviewers,
      CreatePullRequest rnd0 dbnow1 "pr1" "feat" "u1" team_db =
        (Ok (PullRequest.mk "pr1" "feat" "u1" PROpen reviewers
               (Some (decode_timestamptz dbnow1)) None),
         mk_DB (teams team_db) (users team_db)
           (<["pr1" := mk_pr_row "feat" "u1" PROpen reviewers dbnow1 None]>
              (pull_requests team_db)))
      ∧ length reviewers =
          Nat.min 2
            (size (active_non_author_members team_db (team_name alice_row)
                     "u1"))
      ∧ NoDup reviewers
      ∧ ("u1" ∉ reviewers)
      ∧ ∀ r, r ∈ reviewers →
             is_Some (active_non_author_members team_db
                        (team_name alice_row) "u1" !! r).
Proof.
  assert (users team_db !! "u1" = Some alice_row) as Ha
    by (vm_compute; reflexivity).
  assert (pull_requests team_db !! "pr1" = None) as Hpr
    by (vm_compute; reflexivity).
  split; [exact Ha|]. split; [exact Hpr|].
  exact (CreatePullRequest_assigns rnd0 dbnow1 "pr1" "feat" "u1" team_db
           alice_row Ha Hpr).
Defined.

(** C5. [CreatePullRequest] answers NotFound when the author is not a user,
    and PRExists when the author is a user and the identifier is taken; the
    checks are made in that order.  Whenever it answers with an error the
    database is the one it started from: no pull request row was written. *)
Theorem CreatePullRequest_errors rnd dbnow prID prName authorID db :
  (users db !! authorID = None →
   CreatePullRequest rnd dbnow prID prName authorID db
   = (Err model_ErrNotFound, db))
  ∧ (is_Some (users db !! authorID) →
     is_Some (pull_requests db !! prID) →
     CreatePullRequest rnd dbnow prID prName authorID db
     = (Err model_ErrPRExists, db))
  ∧ (∀ e db',
     CreatePullRequest rnd dbnow prID prName authorID db = (Err e, db') →
     db' = db).
Proof.
  split; [|split].
  - apply CreatePullRequest_no_author.
  - apply CreatePullRequest_taken.
  - apply CreatePullRequest_error_unchanged.
Qed.

Lemma CreatePullRequest_errors_witness :
  (users demo_db !! "ghost" = None
   ∧ CreatePullRequest rnd0 dbnow1 "pr2" "fix" "ghost" demo_db
     = (Err model_ErrNotFound, demo_db))
  ∧ (is_Some (users demo_db !! "u1")
     ∧ is_Some (pull_requests demo_db !! "pr1")
     ∧ CreatePullRequest rnd0 dbnow1 "pr1" "fix" "u1" demo_db
       = (Err model_ErrPRExists, demo_db))
  ∧ (CreatePullRequest rnd0 dbnow1 "pr1" "fix" "u1" demo_db
     = (Err model_ErrPRExists, demo_db)
     ∧ demo_db = demo_db).
Proof.
  assert (users demo_db !! "ghost" = None) as Hghost
    by (vm_compute; reflexivity).
  assert (is_Some (users demo_db !! "u1")) as Hu1
    by (eexists; vm_compute; reflexivity).
  assert (is_Some (pull_requests demo_db !! "pr1")) as Hpr
    by (eexists; vm_compute; reflexivity).
  pose proof (CreatePullRequest_errors rnd0 dbnow1 "pr2" "fix" "ghost" demo_db)
    as (Habsent & _ & _).
  pose proof (CreatePullRequest_errors rnd0 dbnow1 "pr1" "fix" "u1" demo_db)
    as (_ & Htaken & Hsame).
  split; [exact (conj Hghost (Habsent Hghost))|].
  split; [exact (conj Hu1 (conj Hpr (Htaken Hu1 Hpr)))|].
  exact (conj (Htaken Hu1 Hpr) (Hsame _ _ (Htaken Hu1 Hpr))).
Defined.

(** ** Merging a pull request *)

Lemma MergePullRequest_absent now prID db :
  pull_requests db !! prID = None →
  MergePullRequest now prID db = (Err model_ErrNotFound, db).
Proof. intros Hpr. unfold MergePullRequest. unfold_tx. by rewrite Hpr. Qed.

Lemma MergePullRequest_merged now prID db r :
  pull_requests db !! prID = Some r →
  status r = PRMerged →
  MergePullRequest now prID db = (Ok (scan_pr prID r), db).
Proof.
  intros Hpr Hst. unfold MergePullRequest. unfold_tx. rewrite Hpr. simpl.
  by rewrite decide_True by done.
Qed.

Lemma MergePullRequest_open now prID db r :
  pull_requests db !! prID = Some r →
  status r = PROpen →
  let r' := mk_pr_row (pull_request_name r) (author_id r) PRMerged
              (assigned_reviewers r) (created_at r)
              (Some (encode_timestamptz now)) in
  MergePullRequest now prID db =
  (Ok (scan_pr prID r'),
   mk_DB (teams db) (users db) (<[prID := r']> (pull_requests db))).
Proof.
  intros Hpr Hst. unfold MergePullRequest. unfold_tx. rewrite Hpr. simpl.
  rewrite decide_False by (rewrite Hst; discriminate). simpl.
  by rewrite Hpr.
Qed.

(** C1. On a pull request that is already MERGED, [MergePullRequest]
    returns the stored pull request as it is, without an error, and leaves
    the database (so also the merge timestamp) untouched.  Hence two merges
    in a row of an existing pull request, at whatever clock readings [now1]
    and [now2], both succeed and return the same pull request: the same
    status MERGED and exactly the same [MergedAt]. *)
Theorem MergePullRequest_idempotent now1 now2 prID db r :
  pull_requests db !! prID = Some r →
  (status r = PRMerged →
   MergePullRequest now1 prID db = (Ok (scan_pr prID r), db))
  ∧ ∃ pr1 db1 pr2,
      MergePullRequest now1 prID db = (Ok pr1, db1)
      ∧ MergePullRequest now2 prID db1 = (Ok pr2, db1)
      ∧ PullRequest.Status pr1 = PRMerged
      ∧ PullRequest.Status pr2 = PullRequest.Status pr1
      ∧ PullRequest.MergedAt pr2 = PullRequest.MergedAt pr1
      ∧ pr2 = pr1.
Proof.
  intros Hpr. split; [by apply MergePullRequest_merged|].
  destruct (status r) eqn:Hst.
  - eexists _, _, _. split; [by apply MergePullRequest_open|].
    split; [|done].
    apply MergePullRequest_merged; [|done]. simpl. apply lookup_insert_eq.
  - exists (scan_pr prID r), db, (scan_pr prID r).
    rewrite (MergePullRequest_merged _ _ _ r) by done.
    rewrite (MergePullRequest_merged _ _ _ r) by done. done.
Qed.

Lemma MergePullRequest_idempotent_witness :
  pull_requests demo_db !! "pr1" = Some demo_row
  ∧ (status demo_row = PRMerged →
     MergePullRequest now1 "pr1" demo_db
     = (Ok (scan_pr "pr1" demo_row), demo_db))
  ∧ ∃ pr1 db1 pr2,
      MergePullRequest now1 "pr1" demo_db = (Ok pr1, db1)
      ∧ MergePullRequest now2 "pr1" db1 = (Ok pr2, db1)
      ∧ PullRequest.Status pr1 = PRMerged
      ∧ PullRequest.Status pr2 = PullRequest.Status pr1
      ∧ PullRequest.MergedAt pr2 = PullRequest.MergedAt pr1
      ∧ pr2 = pr1.
Proof.
  assert (pull_requests demo_db !! "pr1" = Some demo_row) as Hpr
    by (vm_compute; reflexivity).
  split; [exact Hpr|].
  exact (MergePullRequest_idempotent now1 now2 "pr1" demo_db demo_row Hpr).
Defined.

(** C10. Merging an OPEN pull request sets its status to MERGED and its merge
    timestamp, and nothing else: in the returned pull request and in the
    stored row the identifier, name, author, reviewer list and creation
    timestamp are the ones stored before; every other pull request, every
    user and every team is unchanged. *)
Theorem MergePullRequest_frame now prID db r :
  pull_requests db !! prID = Some r →
  status r = PROpen →
  ∃ pr db' r',
    MergePullRequest now prID db = (Ok pr, db')
    ∧ (PullRequest.ID pr = prID
       ∧ PullRequest.Name pr = pull_request_name r
       ∧ PullRequest.AuthorID pr = author_id r
       ∧ PullRequest.AssignedReviewers pr = assigned_reviewers r
       ∧ PullRequest.CreatedAt pr = Some (decode_timestamptz (created_at r))
       ∧ PullRequest.Status pr = PRMerged
       ∧ PullRequest.MergedAt pr
         = Some (decode_timestamptz (encode_timestamptz now)))
    ∧ (pull_requests db' !! prID = Some r'
       ∧ pull_request_name r' = pull_request_name r
       ∧ author_id r' = author_id r
       ∧ assigned_reviewers r' = assigned_reviewers r
       ∧ created_at r' = created_at r
       ∧ status r' = PRMerged
       ∧ merged_at r' = Some (encode_timestamptz now))
    ∧ (∀ id, id ≠ prID → pull_requests db' !! id = pull_requests db !! id)
    ∧ users db' = users db
    ∧ teams db' = teams db.
Proof.
  intros Hpr Hst. eexists _, _, _.
  split; [by apply MergePullRequest_open|]. simpl.
  split; [done|]. split.
  - split; [apply lookup_insert_eq|done].
  - split; [|done]. intros id Hne. by apply lookup_insert_ne.
Qed.

Lemma MergePullRequest_frame_witness :
  pull_requests demo_db !! "pr1" = Some demo_row
  ∧ status demo_row = PROpen
  ∧ ∃ pr db' r',
      MergePullRequest now1 "pr1" demo_db = (Ok pr, db')
      ∧ (PullRequest.ID pr = "pr1"
         ∧ PullRequest.Name pr = pull_request_name demo_row
         ∧ PullRequest.AuthorID pr = author_id demo_row
         ∧ PullRequest.AssignedReviewers pr = assigned_reviewers demo_row
         ∧ PullRequest.CreatedAt pr
           = Some (decode_timestamptz (created_at demo_row))
         ∧ PullRequest.Status pr = PRMerged
         ∧ PullRequest.MergedAt pr
           = Some (decode_timestamptz (encode_timestamptz now1)))
      ∧ (pull_requests db' !! "pr1" = Some r'
         ∧ pull_request_name r' = pull_request_name demo_row
         ∧ author_id r' = author_id demo_row
         ∧ assigned_reviewers r' = assigned_reviewers demo_row
         ∧ created_at r' = created_at demo_row
         ∧ status r' = PRMerged
         ∧ merged_at r' = Some (encode_timestamptz now1))
      ∧ (∀ id, id ≠ "pr1" →
               pull_requests db' !! id = pull_requests demo_db !! id)
      ∧ users db' = users demo_db
      ∧ teams db' = teams demo_db.
Proof.
  assert (pull_requests demo_db !! "pr1" = Some demo_row) as Hpr
    by (vm_compute; reflexivity).
  assert (status demo_row = PROpen) as Hst by reflexivity.
  split; [exact Hpr|]. split; [exact Hst|].
  exact (MergePullRequest_frame now1 "pr1" demo_db demo_row Hpr Hst).
Defined.

(** ** Reassigning a reviewer *)

Section replace.
Implicit Types (rs pre rest : list string).

Lemma replace_loop_replace_first oldUserID replacedBy pre rest :
  replace_loop oldUserID replacedBy (length pre) rest (pre ++ rest) =
  pre ++ replace_first oldUserID replacedBy rest.
Proof.
  revert pre. induction rest as [|r rest IH]; intros pre; simpl; [done|].
  case_decide as Hr.
  - rewrite insert_app_r_alt by lia. by rewrite Nat.sub_diag.
  - specialize (IH (pre ++ [r])). rewrite length_app in IH. simpl in IH.
    rewrite Nat.add_1_r, <- !app_assoc in IH. done.
Qed.

Lemma replace_reviewer_replace_first oldUserID replacedBy rs :
  replace_reviewer oldUserID replacedBy rs =
  replace_first oldUserID replacedBy rs.
Proof. apply (replace_loop_replace_first oldUserID replacedBy []). Qed.

(** The entry that is overwritten is the first one equal to [oldUserID]. *)
Lemma replace_first_insert oldUserID replacedBy rs :
  oldUserID ∈ rs →
  ∃ i, rs !! i = Some oldUserID
       ∧ (∀ j, j < i → rs !! j ≠ Some oldUserID)
       ∧ replace_first oldUserID replacedBy rs = <[i := replacedBy]> rs.
Proof.
  induction rs as [|r rs IH]; [by intros ?%elem_of_nil|].
  intros Hin. simpl. case_decide as Hr.
  - exists 0. subst r. split; [done|]. split; [lia|done].
  - apply elem_of_cons in Hin as [->|Hin]; [done|].
    destruct (IH Hin) as (i & Hi & Hfirst & Heq).
    exists (S i). split; [done|]. split.
    + intros [|j] Hj; simpl; [congruence|]. apply Hfirst. lia.
    + simpl. by rewrite Heq.
Qed.

Lemma elem_of_insert_NoDup rs i oldUserID replacedBy x :
  NoDup rs → rs !! i = Some oldUserID →
  x ∈ <[i := replacedBy]> rs ↔
  x = replacedBy ∨ (x ∈ rs ∧ x ≠ oldUserID).
Proof.
  intros Hnd Hi. rewrite !list_elem_of_lookup. split.
  - intros [j Hj]. destruct (decide (j = i)) as [->|Hne].
    + rewrite list_lookup_insert_eq in Hj by (by eapply lookup_lt_Some).
      left. congruence.
    + rewrite list_lookup_insert_ne in Hj by done. right. split; [by exists j|].
      intros ->. apply Hne. by eapply NoDup_lookup.
  - intros [->|[[j Hj] Hne]].
    + exists i. apply list_lookup_insert_eq. by eapply lookup_lt_Some.
    + exists j. rewrite list_lookup_insert_ne; [done|]. congruence.
Qed.

Lemma NoDup_insert_fresh rs i replacedBy :
  NoDup rs → replacedBy ∉ rs → NoDup (<[i := replacedBy]> rs).
Proof.
  revert i. induction rs as [|r rs IH]; intros i Hnd Hnew; [done|].
  apply NoDup_cons in Hnd as [Hr Hnd]. apply not_elem_of_cons in Hnew as [? ?].
  destruct i as [|i]; simpl.
  - apply NoDup_cons. done.
  - apply NoDup_cons. split; [|by apply IH].
    intros Hin. apply list_elem_of_lookup in Hin as [j Hj].
    destruct (decide (j = i)) as [->|Hne].
    + destruct (decide (i < length rs)).
      * rewrite list_lookup_insert_eq in Hj by done. congruence.
      * rewrite list_insert_ge in Hj by lia. apply Hr.
        apply list_elem_of_lookup. by exists i.
    + rewrite list_lookup_insert_ne in Hj by done. apply Hr.
      apply list_elem_of_lookup. by exists j.
Qed.
End replace.

Lemma elem_of_reassign_candidates db teamName authorID oldUserID assigned id :
  oldUserID ∈ assigned →
  id ∈ reassign_candidates db teamName authorID oldUserID assigned ↔
  eligible_replacement db teamName authorID assigned id.
Proof.
  intros Hold. unfold reassign_candidates, eligible_replacement.
  rewrite elem_of_candidates. setoid_rewrite not_elem_of_app.
  setoid_rewrite list_elem_of_singleton.
  split; intros (row & ? & ? & ? & ? & ?); exists row; naive_solver.
Qed.

Lemma ReassignReviewer_open rnd prID oldUserID db r u :
  pull_requests db !! prID = Some r →
  status r = PROpen →
  users db !! oldUserID = Some u →
  oldUserID ∈ assigned_reviewers r →
  ReassignReviewer rnd prID oldUserID db =
  match selectRandom rnd
          (reassign_candidates db (team_name u) (author_id r) oldUserID
             (assigned_reviewers r)) 1 with
  | [] => (Err model_ErrNoCandidate, db)
  | replacedBy :: _ =>
      let r' := mk_pr_row (pull_request_name r) (author_id r) PROpen
                  (replace_reviewer oldUserID replacedBy (assigned_reviewers r))
                  (created_at r) (merged_at r) in
      (Ok (scan_pr prID r', replacedBy),
       mk_DB (teams db) (users db) (<[prID := r']> (pull_requests db)))
  end.
Proof.
  intros Hpr Hst Hu Hin. unfold ReassignReviewer, reassign_candidates.
  unfold_tx. rewrite Hpr. simpl.
  rewrite decide_False by (rewrite Hst; discriminate). simpl.
  rewrite Hu. simpl.
  apply isReviewerAssigned_elem_of in Hin. rewrite Hin. simpl.
  destruct (selectRandom _ _ _) as [|replacedBy ?]; [done|]. simpl.
  rewrite Hpr, Hst. simpl. by rewrite encode_decode_timestamptz_fmap.
Qed.

Lemma ReassignReviewer_absent rnd prID oldUserID db :
  pull_requests db !! prID = None →
  ReassignReviewer rnd prID oldUserID db = (Err model_ErrNotFound, db).
Proof. intros Hpr. unfold ReassignReviewer. unfold_tx. by rewrite Hpr. Qed.

Lemma ReassignReviewer_merged rnd prID oldUserID db r :
  pull_requests db !! prID = Some r →
  status r = PRMerged →
  ReassignReviewer rnd prID oldUserID db = (Err model_ErrPRMerged, db).
Proof.
  intros Hpr Hst. unfold ReassignReviewer. unfold_tx. rewrite Hpr. simpl.
  by rewrite decide_True by done.
Qed.

Lemma ReassignReviewer_no_user rnd prID oldUserID db r :
  pull_requests db !! prID = Some r →
  status r = PROpen →
  users db !! oldUserID = None →
  ReassignReviewer rnd prID oldUserID db = (Err model_ErrNotFound, db).
Proof.
  intros Hpr Hst Hu. unfold ReassignReviewer. unfold_tx. rewrite Hpr. simpl.
  rewrite decide_False by (rewrite Hst; discriminate). simpl.
  by rewrite Hu.
Qed.

Lemma ReassignReviewer_not_assigned rnd prID oldUserID db r u :
  pull_requests db !! prID = Some r →
  status r = PROpen →
  users db !! oldUserID = Some u →
  oldUserID ∉ assigned_reviewers r →
  ReassignReviewer rnd prID oldUserID db = (Err model_ErrNotAssigned, db).
Proof.
  intros Hpr Hst Hu Hin. unfold ReassignReviewer. unfold_tx.
  rewrite Hpr. simpl.
  rewrite decide_False by (rewrite Hst; discriminate). simpl.
  rewrite Hu. simpl.
  destruct (isReviewerAssigned _ _) eqn:Has; [|done].
  by apply isReviewerAssigned_elem_of in Has.
Qed.

Lemma selectRandom_nil_inv rnd ids limit :
  0 < limit → selectRandom rnd ids limit = [] → ids = [].
Proof.
  intros Hl Hnil. apply (f_equal length) in Hnil.
  rewrite selectRandom_length in Hnil. simpl in Hnil.
  apply length_zero_iff_nil. lia.
Qed.

Lemma ReassignReviewer_no_candidate rnd prID oldUserID db r u :
  pull_requests db !! prID = Some r →
  status r = PROpen →
  users db !! oldUserID = Some u →
  oldUserID ∈ assigned_reviewers r →
  (∀ id, ¬ eligible_replacement db (team_name u) (author_id r)
             (assigned_reviewers r) id) →
  ReassignReviewer rnd prID oldUserID db = (Err model_ErrNoCandidate, db).
Proof.
  intros Hpr Hst Hu Hin Hnone.
  rewrite (ReassignReviewer_open _ _ _ _ r u) by done.
  destruct (selectRandom _ _ _) as [|x rest] eqn:Hsel; [done|].
  exfalso. apply (Hnone x). apply (elem_of_reassign_candidates _ _ _ oldUserID).
  { done. }
  apply (selectRandom_elem_of rnd _ 1). rewrite Hsel. by left.
Qed.

(** An error of [ReassignReviewer] leaves the database as it was. *)
Lemma ReassignReviewer_error_unchanged rnd prID oldUserID db e db' :
  ReassignReviewer rnd prID oldUserID db = (Err e, db') → db' = db.
Proof.
  destruct (pull_requests db !! prID) as [r|] eqn:Hpr.
  2: { rewrite ReassignReviewer_absent by done. by intros [= ]. }
  destruct (status r) eqn:Hst.
  2: { rewrite (ReassignReviewer_merged _ _ _ _ r) by done. by intros [= ]. }
  destruct (users db !! oldUserID) as [u|] eqn:Hu.
  2: { rewrite (ReassignReviewer_no_user _ _ _ _ r) by done. by intros [= ]. }
  destruct (decide (oldUserID ∈ assigned_reviewers r)) as [Hin|Hin].
  2: { rewrite (ReassignReviewer_not_assigned _ _ _ _ r u) by done.
       by intros [= ]. }
  rewrite (ReassignReviewer_open _ _ _ _ r u) by done.
  destruct (selectRandom _ _ _); by intros [= ].
Qed.

(** ** What every database built through the API satisfies *)

Section invariant.
Implicit Types (db : DB) (call : ApiCall).

Lemma upsert_users_is_Some teamName members (us : gmap string users_row) id :
  is_Some (us !! id) →
  is_Some (foldl (upsert_user teamName) us members !! id).
Proof.
  revert us. induction members as [|m members IH]; intros us Hid; [done|].
  simpl. apply IH. unfold upsert_user.
  destruct (decide (TeamMember.UserID m = id)) as [->|Hne].
  - rewrite lookup_insert_eq. by eexists.
  - by rewrite lookup_insert_ne.
Qed.

Lemma pr_row_ok_users db db' r :
  (∀ id, is_Some (users db !! id) → is_Some (users db' !! id)) →
  pr_row_ok db r → pr_row_ok db' r.
Proof. intros Hsub (? & ? & ? & Hex). repeat split; auto. Qed.

Lemma CreateTeam_db_ok db team : db_ok db → db_ok (CreateTeam team db).2.
Proof.
  intros Hok. unfold CreateTeam, CreateTeamTx.
  case_decide; simpl; [done|].
  intros prID r Hr. simpl in Hr. eapply pr_row_ok_users; [|by eapply Hok].
  intros id. simpl. apply upsert_users_is_Some.
Qed.

Lemma SetUserActiveStatus_db_ok db userID isActive :
  db_ok db → db_ok (service_SetUserActiveStatus userID isActive db).2.
Proof.
  intros Hok. unfold service_SetUserActiveStatus, SetUserActiveStatus.
  destruct (users db !! userID) as [u|] eqn:Hu; simpl; [|done].
  intros prID r Hr. simpl in Hr. eapply pr_row_ok_users; [|by eapply Hok].
  intros id. simpl. destruct (decide (userID = id)) as [->|Hne].
  - rewrite lookup_insert_eq. by eexists.
  - by rewrite lookup_insert_ne.
Qed.

Lemma CreatePullRequest_db_ok db rnd dbnow prID prName authorID :
  db_ok db → db_ok (CreatePullRequest rnd dbnow prID prName authorID db).2.
Proof.
  intros Hok. destruct (users db !! authorID) as [a|] eqn:Ha.
  2: { by rewrite CreatePullRequest_no_author by done. }
  destruct (pull_requests db !! prID) as [r0|] eqn:Hpr.
  { by rewrite CreatePullRequest_taken by (by eexists). }
  rewrite (CreatePullRequest_fresh _ _ _ _ _ _ a) by done.
  destruct (create_reviewers_spec rnd db (team_name a) authorID)
    as (Hlen & Hnd & Hauth & Hmem).
  intros id r. simpl. destruct (decide (prID = id)) as [->|Hne].
  - rewrite lookup_insert_eq. intros [= <-]. repeat split; simpl; try done.
    + lia.
    + intros x Hx. destruct (Hmem x Hx) as [row Hrow].
      apply map_lookup_filter_Some in Hrow as [Hrow _]. by eexists.
  - rewrite lookup_insert_ne by done. intros Hr. by apply (Hok id).
Qed.

Lemma MergePullRequest_db_ok db now prID :
  db_ok db → db_ok (MergePullRequest now prID db).2.
Proof.
  intros Hok. destruct (pull_requests db !! prID) as [r|] eqn:Hpr.
  2: { by rewrite MergePullRequest_absent by done. }
  destruct (status r) eqn:Hst.
  2: { by rewrite (MergePullRequest_merged _ _ _ r) by done. }
  rewrite (MergePullRequest_open _ _ _ r) by done. simpl.
  intros id r'. simpl. destruct (decide (prID = id)) as [->|Hne].
  - rewrite lookup_insert_eq. intros [= <-]. by apply (Hok id r).
  - rewrite lookup_insert_ne by done. intros Hr. by apply (Hok id).
Qed.

Lemma ReassignReviewer_db_ok db rnd prID oldUserID :
  db_ok db → db_ok (ReassignReviewer rnd prID oldUserID db).2.
Proof.
  intros Hok.
  destruct (ReassignReviewer rnd prID oldUserID db) as [[res|e] db'] eqn:Hcall.
  2: { by apply ReassignReviewer_error_unchanged in Hcall as ->. }
  simpl. destruct (pull_requests db !! prID) as [r|] eqn:Hpr.
  2: { by rewrite ReassignReviewer_absent in Hcall by done. }
  destruct (status r) eqn:Hst.
  2: { by rewrite (ReassignReviewer_merged _ _ _ _ r) in Hcall by done. }
  destruct (users db !! oldUserID) as [u|] eqn:Hu.
  2: { by rewrite (ReassignReviewer_no_user _ _ _ _ r) in Hcall by done. }
  destruct (decide (oldUserID ∈ assigned_reviewers r)) as [Hin|Hin].
  2: { by rewrite (ReassignReviewer_not_assigned _ _ _ _ r u) in Hcall. }
  rewrite (ReassignReviewer_open _ _ _ _ r u) in Hcall by done.
  destruct (selectRandom _ _ _) as [|x rest] eqn:Hsel; [done|].
  injection Hcall as _ <-.
  assert (eligible_replacement db (team_name u) (author_id r)
            (assigned_reviewers r) x) as (row & Hrow & _ & _ & Hxa & Hxr).
  { apply (elem_of_reassign_candidates _ _ _ oldUserID); [done|].
    apply (selectRandom_elem_of rnd _ 1). rewrite Hsel. by left. }
  destruct (Hok prID r Hpr) as (Hnd & Hauth & Hlen & Hex).
  rewrite replace_reviewer_replace_first.
  destruct (replace_first_insert oldUserID x (assigned_reviewers r) Hin)
    as (i & Hi & _ & ->).
  intros id r'. simpl. destruct (decide (prID = id)) as [->|Hne].
  - rewrite lookup_insert_eq. intros [= <-]. repeat split; simpl.
    + by apply NoDup_insert_fresh.
    + rewrite (elem_of_insert_NoDup _ _ oldUserID) by done. naive_solver.
    + by rewrite length_insert.
    + intros y. rewrite (elem_of_insert_NoDup _ _ oldUserID) by done.
      intros [->|[Hy _]]; [by eexists|by apply Hex].
  - rewrite lookup_insert_ne by done. intros Hr. by apply (Hok id).
Qed.

Lemma exec_db_ok db call : db_ok db → db_ok (exec db call).
Proof.
  destruct call; simpl;
    auto using CreateTeam_db_ok, SetUserActiveStatus_db_ok,
      CreatePullRequest_db_ok, MergePullRequest_db_ok, ReassignReviewer_db_ok.
Qed.

Lemma empty_DB_ok : db_ok empty_DB.
Proof. intros prID r. simpl. by rewrite lookup_empty. Qed.

Lemma run_db_ok calls db : db_ok db → db_ok (run calls db).
Proof.
  revert db. induction calls as [|call calls IH]; intros db Hok; [done|].
  simpl. by apply IH, exec_db_ok.
Qed.
End invariant.

(** ** The two claims about [ReassignReviewer] *)

(** C2. Take any database built by calls of the public API, an OPEN pull
    request in it, one of its assigned reviewers [oldUserID], and suppose
    that some user may replace it.  Then [ReassignReviewer] succeeds.  The
    stored and returned reviewer list is the old one with the entry at the
    position [i] of [oldUserID] overwritten by [replacedBy]: it has the same
    length, does not contain [oldUserID], has no duplicates, and its members
    are [replacedBy] and the old reviewers other than [oldUserID].  The
    replacement is an active member of the team of [oldUserID], is not the
    author and was not assigned before; it is the second component of the
    result. *)
Theorem ReassignReviewer_replaces calls rnd prID oldUserID db r u :
  db = run calls empty_DB →
  pull_requests db !! prID = Some r →
  status r = PROpen →
  oldUserID ∈ assigned_reviewers r →
  users db !! oldUserID = Some u →
  (∃ id, eligible_replacement db (team_name u) (author_id r)
           (assigned_reviewers r) id) →
  ∃ i replacedBy r',
    ReassignReviewer rnd prID oldUserID db =
      (Ok (scan_pr prID r', replacedBy),
       mk_DB (teams db) (users db) (<[prID := r']> (pull_requests db)))
    ∧ r' = mk_pr_row (pull_request_name r) (author_id r) PROpen
             (<[i := replacedBy]> (assigned_reviewers r))
             (created_at r) (merged_at r)
    ∧ assigned_reviewers r !! i = Some oldUserID
    ∧ assigned_reviewers r' !! i = Some replacedBy
    ∧ length (assigned_reviewers r') = length (assigned_reviewers r)
    ∧ (oldUserID ∉ assigned_reviewers r')
    ∧ NoDup (assigned_reviewers r')
    ∧ eligible_replacement db (team_name u) (author_id r)
        (assigned_reviewers r) replacedBy
    ∧ (∀ x, x ∈ assigned_reviewers r' ↔
            x = replacedBy ∨ (x ∈ assigned_reviewers r ∧ x ≠ oldUserID)).
Proof.
  intros Hdb Hpr Hst Hin Hu [c Hc].
  assert (db_ok db) as Hok by (subst db; apply run_db_ok, empty_DB_ok).
  destruct (Hok prID r Hpr) as (Hnd & _ & _ & _).
  rewrite (ReassignReviewer_open _ _ _ _ r u) by done.
  destruct (selectRandom _ _ _) as [|x rest] eqn:Hsel.
  { apply selectRandom_nil_inv in Hsel; [|lia].
    apply (elem_of_reassign_candidates _ _ _ oldUserID) in Hc; [|done].
    rewrite Hsel in Hc. by apply elem_of_nil in Hc. }
  assert (eligible_replacement db (team_name u) (author_id r)
            (assigned_reviewers r) x) as Hx.
  { apply (elem_of_reassign_candidates _ _ _ oldUserID); [done|].
    apply (selectRandom_elem_of rnd _ 1). rewrite Hsel. by left. }
  rewrite replace_reviewer_replace_first.
  destruct (replace_first_insert oldUserID x (assigned_reviewers r) Hin)
    as (i & Hi & _ & ->).
  destruct Hx as (row & Hrow & Hteam & Hact & Hxa & Hxr).
  exists i, x. eexists. split; [reflexivity|]. split; [reflexivity|]. simpl.
  split; [done|]. split.
  { apply list_lookup_insert_eq. by eapply lookup_lt_Some. }
  split; [by rewrite length_insert|]. split.
  { rewrite (elem_of_insert_NoDup _ _ oldUserID) by done.
    intros [->|[_ ?]]; done. }
  split; [by apply NoDup_insert_fresh|]. split.
  { by exists row. }
  intros y. by apply elem_of_insert_NoDup.
Qed.

Lemma ReassignReviewer_replaces_witness :
  demo_db = run demo_calls empty_DB
  ∧ pull_requests demo_db !! "pr1" = Some demo_row
  ∧ status demo_row = PROpen
  ∧ "u2" ∈ assigned_reviewers demo_row
  ∧ users demo_db !! "u2" = Some bob_row
  ∧ (∃ id, eligible_replacement demo_db (team_name bob_row)
             (author_id demo_row) (assigned_reviewers demo_row) id)
  ∧ ∃ i replacedBy r',
      ReassignReviewer rnd0 "pr1" "u2" demo_db =
        (Ok (scan_pr "pr1" r', replacedBy),
         mk_DB (teams demo_db) (users demo_db)
           (<["pr1" := r']> (pull_requests demo_db)))
      ∧ r' = mk_pr_row (pull_request_name demo_row) (author_id demo_row)
               PROpen (<[i := replacedBy]> (assigned_reviewers demo_row))
               (created_at demo_row) (merged_at demo_row)
      ∧ assigned_reviewers demo_row !! i = Some "u2"
      ∧ assigned_reviewers r' !! i = Some replacedBy
      ∧ length (assigned_reviewers r') = length (assigned_reviewers demo_row)
      ∧ ("u2" ∉ assigned_reviewers r')
      ∧ NoDup (assigned_reviewers r')
      ∧ eligible_replacement demo_db (team_name bob_row) (author_id demo_row)
          (assigned_reviewers demo_row) replacedBy
      ∧ (∀ x, x ∈ assigned_reviewers r' ↔
              x = replacedBy
              ∨ (x ∈ assigned_reviewers demo_row ∧ x ≠ "u2")).
Proof.
  assert (demo_db = run demo_calls empty_DB) as Hdb by reflexivity.
  assert (pull_requests demo_db !! "pr1" = Some demo_row) as Hpr
    by (vm_compute; reflexivity).
  assert (status demo_row = PROpen) as Hst by reflexivity.
  assert ("u2" ∈ assigned_reviewers demo_row) as Hin by by_compute.
  assert (users demo_db !! "u2" = Some bob_row) as Hu
    by (vm_compute; reflexivity).
  assert (∃ id, eligible_replacement demo_db (team_name bob_row)
                  (author_id demo_row) (assigned_reviewers demo_row) id)
    as Hel.
  { exists "u3", (mk_users_row "carol" "backend" true).
    split; [vm_compute; reflexivity|]. repeat split; [done|by_compute]. }
  repeat (split; [assumption|]).
  exact (ReassignReviewer_replaces demo_calls rnd0 "pr1" "u2" demo_db demo_row
           bob_row Hdb Hpr Hst Hin Hu Hel).
Defined.

(** C3. The errors of [ReassignReviewer], in the order in which the
    preconditions are checked: NotFound when the pull request is absent;
    PRMerged when it is MERGED; NotFound when it is OPEN and [oldUserID] is
    not a user; NotAssigned when [oldUserID] is a user that is not among the
    reviewers; NoCandidate when [oldUserID] is assigned and no user may
    replace it.  In each of these cases, and whenever an error is returned,
    the database (so the stored pull request and its reviewer list) is
    the one before the call. *)
Theorem ReassignReviewer_errors rnd prID oldUserID db :
  (pull_requests db !! prID = None →
   ReassignReviewer rnd prID oldUserID db = (Err model_ErrNotFound, db))
  ∧ (∀ r, pull_requests db !! prID = Some r →
       status r = PRMerged →
       ReassignReviewer rnd prID oldUserID db = (Err model_ErrPRMerged, db))
  ∧ (∀ r, pull_requests db !! prID = Some r →
       status r = PROpen →
       users db !! oldUserID = None →
       ReassignReviewer rnd prID oldUserID db = (Err model_ErrNotFound, db))
  ∧ (∀ r u, pull_requests db !! prID = Some r →
       status r = PROpen →
       users db !! oldUserID = Some u →
       oldUserID ∉ assigned_reviewers r →
       ReassignReviewer rnd prID oldUserID db
       = (Err model_ErrNotAssigned, db))
  ∧ (∀ r u, pull_requests db !! prID = Some r →
       status r = PROpen →
       users db !! oldUserID = Some u →
       oldUserID ∈ assigned_reviewers r →
       (∀ id, ¬ eligible_replacement db (team_name u) (author_id r)
                  (assigned_reviewers r) id) →
       ReassignReviewer rnd prID oldUserID db
       = (Err model_ErrNoCandidate, db))
  ∧ (∀ e db',
       ReassignReviewer rnd prID oldUserID db = (Err e, db') → db' = db).
Proof.
  repeat split.
  - apply ReassignReviewer_absent.
  - intros r. apply ReassignReviewer_merged.
  - intros r. apply ReassignReviewer_no_user.
  - intros r u. apply ReassignReviewer_not_assigned.
  - intros r u. apply ReassignReviewer_no_candidate.
  - intros e db'. apply ReassignReviewer_error_unchanged.
Qed.

Lemma pair_db_users id row :
  users pair_db !! id = Some row → id = "p1" ∨ id = "p2".
Proof.
  intros Hrow%elem_of_map_to_list. vm_compute in Hrow.
  apply elem_of_cons in Hrow as [[= -> _]|Hrow]; [by auto|].
  apply elem_of_cons in Hrow as [[= -> _]|Hrow]; [by auto|].
  by apply elem_of_nil in Hrow.
Defined.

Lemma ReassignReviewer_errors_witness :
  (pull_requests demo_db !! "pr9" = None
   ∧ ReassignReviewer rnd0 "pr9" "u2" demo_db
     = (Err model_ErrNotFound, demo_db))
  ∧ (pull_requests merged_db !! "pr1" = Some merged_row
     ∧ status merged_row = PRMerged
     ∧ ReassignReviewer rnd0 "pr1" "u2" merged_db
       = (Err model_ErrPRMerged, merged_db))
  ∧ (pull_requests demo_db !! "pr1" = Some demo_row
     ∧ status demo_row = PROpen
     ∧ users demo_db !! "ghost" = None
     ∧ ReassignReviewer rnd0 "pr1" "ghost" demo_db
       = (Err model_ErrNotFound, demo_db))
  ∧ (users demo_db !! "u3" = Some (mk_users_row "carol" "backend" true)
     ∧ ("u3" ∉ assigned_reviewers demo_row)
     ∧ ReassignReviewer rnd0 "pr1" "u3" demo_db
       = (Err model_ErrNotAssigned, demo_db))
  ∧ (pull_requests pair_db !! "pr7" = Some pair_row
     ∧ status pair_row = PROpen
     ∧ users pair_db !! "p2" = Some (mk_users_row "grace" "pair" true)
     ∧ "p2" ∈ assigned_reviewers pair_row
     ∧ (∀ id, ¬ eligible_replacement pair_db "pair" (author_id pair_row)
                  (assigned_reviewers pair_row) id)
     ∧ ReassignReviewer rnd0 "pr7" "p2" pair_db
       = (Err model_ErrNoCandidate, pair_db))
  ∧ (ReassignReviewer rnd0 "pr9" "u2" demo_db
     = (Err model_ErrNotFound, demo_db)
     ∧ demo_db = demo_db).
Proof.
  assert (pull_requests demo_db !! "pr9" = None) as Hpr9
    by (vm_compute; reflexivity).
  assert (pull_requests merged_db !! "pr1" = Some merged_row) as Hmerged
    by (vm_compute; reflexivity).
  assert (pull_requests demo_db !! "pr1" = Some demo_row) as Hpr1
    by (vm_compute; reflexivity).
  assert (users demo_db !! "ghost" = None) as Hghost
    by (vm_compute; reflexivity).
  assert (users demo_db !! "u3" = Some (mk_users_row "carol" "backend" true))
    as Hu3 by (vm_compute; reflexivity).
  assert ("u3" ∉ assigned_reviewers demo_row) as Hnot by by_compute.
  assert (pull_requests pair_db !! "pr7" = Some pair_row) as Hpr7
    by (vm_compute; reflexivity).
  assert (users pair_db !! "p2" = Some (mk_users_row "grace" "pair" true))
    as Hp2 by (vm_compute; reflexivity).
  assert ("p2" ∈ assigned_reviewers pair_row) as Hin by by_compute.
  assert (∀ id, ¬ eligible_replacement pair_db "pair" (author_id pair_row)
                    (assigned_reviewers pair_row) id) as Hnone.
  { intros id (row & Hrow & _ & _ & Hne & Hnin).
    apply pair_db_users in Hrow as [->| ->]; [exact (Hne eq_refl)|].
    apply Hnin. by_compute. }
  pose proof (ReassignReviewer_errors rnd0 "pr9" "u2" demo_db)
    as (Habsent & _ & _ & _ & _ & Hsame).
  pose proof (ReassignReviewer_errors rnd0 "pr1" "u2" merged_db)
    as (_ & Hm & _).
  pose proof (ReassignReviewer_errors rnd0 "pr1" "ghost" demo_db)
    as (_ & _ & Hnouser & _).
  pose proof (ReassignReviewer_errors rnd0 "pr1" "u3" demo_db)
    as (_ & _ & _ & Hna & _).
  pose proof (ReassignReviewer_errors rnd0 "pr7" "p2" pair_db)
    as (_ & _ & _ & _ & Hnc & _).
  split; [exact (conj Hpr9 (Habsent Hpr9))|].
  split; [exact (conj Hmerged (conj eq_refl (Hm _ Hmerged eq_refl)))|].
  split.
  { exact (conj Hpr1 (conj eq_refl (conj Hghost
             (Hnouser _ Hpr1 eq_refl Hghost)))). }
  split; [exact (conj Hu3 (conj Hnot (Hna _ _ Hpr1 eq_refl Hu3 Hnot)))|].
  split.
  { exact (conj Hpr7 (conj eq_refl (conj Hp2 (conj Hin (conj Hnone
             (Hnc _ _ Hpr7 eq_refl Hp2 Hin Hnone)))))). }
  exact (conj (Habsent Hpr9) (Hsame _ _ (Habsent Hpr9))).
Defined.

(** ** A user's team reference *)

Section team_reference.
Implicit Types (db : DB) (us : gmap string users_row).

Lemma upsert_users_lookup teamName members us id :
  (id ∈ TeamMember.UserID <$> members →
   ∃ row, foldl (upsert_user teamName) us members !! id = Some row
          ∧ team_name row = teamName)
  ∧ (id ∉ TeamMember.UserID <$> members →
     foldl (upsert_user teamName) us members !! id = us !! id).
Proof.
  revert us. induction members as [|m members IH]; intros us; simpl.
  - split; [by intros ?%elem_of_nil|done].
  - destruct (IH (upsert_user teamName us m)) as [IHin IHout].
    destruct (decide (id ∈ TeamMember.UserID <$> members)) as [Hin|Hout].
    + split; [by intros _; apply IHin|].
      intros Hn. exfalso. apply Hn. by right.
    + split.
      * intros [->|?]%elem_of_cons; [|done].
        rewrite IHout by done. unfold upsert_user.
        rewrite lookup_insert_eq. by eexists.
      * intros [Hne _]%not_elem_of_cons. rewrite IHout by done.
        unfold upsert_user. by rewrite lookup_insert_ne.
Qed.

(** One call: the user is still there, and its team is the one it had
    unless the call is a [CreateTeam] that lists the user. *)
Lemma exec_team_reference db call userID row :
  users db !! userID = Some row →
  ∃ row', users (exec db call) !! userID = Some row'
    ∧ (team_name row' = team_name row
       ∨ ∃ team, call = CallCreateTeam team
                 ∧ userID ∈ TeamMember.UserID <$> Team.Members team
                 ∧ team_name row' = Team.TeamName team).
Proof.
  intros Hrow. destruct call as [team| |uid act|rnd dbnow prID prName authorID
                                 |now prID|rnd prID oldUserID|]; simpl.
  - unfold CreateTeam, CreateTeamTx. case_decide; simpl; [by eauto|].
    destruct (upsert_users_lookup (Team.TeamName team) (Team.Members team)
                (users db) userID) as [Hin Hout].
    destruct (decide (userID ∈ TeamMember.UserID <$> Team.Members team))
      as [Hm|Hm].
    + destruct (Hin Hm) as (row' & Hrow' & Ht). exists row'.
      split; [done|]. right. by exists team.
    + exists row. rewrite Hout by done. by eauto.
  - by eauto.
  - unfold service_SetUserActiveStatus, SetUserActiveStatus.
    destruct (users db !! uid) as [r|] eqn:Hr; simpl; [|by eauto].
    destruct (decide (uid = userID)) as [->|Hne].
    + rewrite lookup_insert_eq. eexists. split; [done|]. left. simpl.
      congruence.
    + rewrite lookup_insert_ne by done. by eauto.
  - destruct (users db !! authorID) as [a|] eqn:Ha.
    2: { rewrite CreatePullRequest_no_author by done. by eauto. }
    destruct (pull_requests db !! prID) as [r0|] eqn:Hpr.
    { rewrite CreatePullRequest_taken by (by eexists). by eauto. }
    rewrite (CreatePullRequest_fresh _ _ _ _ _ _ a) by done. by eauto.
  - destruct (pull_requests db !! prID) as [r|] eqn:Hpr.
    2: { rewrite MergePullRequest_absent by done. by eauto. }
    destruct (status r) eqn:Hst.
    2: { rewrite (MergePullRequest_merged _ _ _ r) by done. by eauto. }
    rewrite (MergePullRequest_open _ _ _ r) by done. by eauto.
  - destruct (ReassignReviewer rnd prID oldUserID db)
      as [[res|e] db'] eqn:Hcall; simpl.
    2: { apply ReassignReviewer_error_unchanged in Hcall as ->. by eauto. }
    destruct (pull_requests db !! prID) as [r|] eqn:Hpr.
    2: { by rewrite ReassignReviewer_absent in Hcall by done. }
    destruct (status r) eqn:Hst.
    2: { by rewrite (ReassignReviewer_merged _ _ _ _ r) in Hcall by done. }
    destruct (users db !! oldUserID) as [u|] eqn:Hu.
    2: { by rewrite (ReassignReviewer_no_user _ _ _ _ r) in Hcall by done. }
    destruct (decide (oldUserID ∈ assigned_reviewers r)) as [Hin|Hin].
    2: { by rewrite (ReassignReviewer_not_assigned _ _ _ _ r u) in Hcall. }
    rewrite (ReassignReviewer_open _ _ _ _ r u) in Hcall by done.
    destruct (selectRandom _ _ _) as [|x rest]; [done|].
    injection Hcall as _ <-. simpl. by eauto.
  - by eauto.
Qed.
End team_reference.

(** C8, as the code has it.  After any sequence of calls of the public API a
    user that existed before still exists, and its team reference is the one
    it had, or else the name of a team created by a [CreateTeam] call of the
    sequence whose member list names the user. *)
Theorem team_reference_changes_only_by_CreateTeam calls db userID row :
  users db !! userID = Some row →
  ∃ row', users (run calls db) !! userID = Some row'
    ∧ (team_name row' = team_name row
       ∨ ∃ team, CallCreateTeam team ∈ calls
                 ∧ userID ∈ TeamMember.UserID <$> Team.Members team
                 ∧ team_name row' = Team.TeamName team).
Proof.
  revert db row. induction calls as [|call calls IH]; intros db row Hrow.
  - exists row. by eauto.
  - simpl.
    destruct (exec_team_reference db call userID row Hrow)
      as (row1 & Hrow1 & Hstep).
    destruct (IH _ _ Hrow1) as (row' & Hrow' & Hrest).
    exists row'. split; [done|].
    destruct Hrest as [Heq|(team & Hin & Hm & Ht)].
    + destruct Hstep as [Heq1|(team & -> & Hm & Ht)].
      * left. congruence.
      * right. exists team. split; [by left|]. split; [done|]. congruence.
    + right. exists team. split; [by right|]. done.
Qed.

Lemma team_reference_changes_only_by_CreateTeam_witness :
  users team_db !! "u1" = Some alice_row
  ∧ ∃ row',
      users (run [CallSetUserActiveStatus "u1" false; CallCreateTeam frontend]
               team_db) !! "u1" = Some row'
      ∧ (team_name row' = team_name alice_row
         ∨ ∃ team,
             CallCreateTeam team
               ∈ [CallSetUserActiveStatus "u1" false; CallCreateTeam frontend]
             ∧ "u1" ∈ TeamMember.UserID <$> Team.Members team
             ∧ team_name row' = Team.TeamName team).
Proof.
  assert (users team_db !! "u1" = Some alice_row) as Hrow
    by (vm_compute; reflexivity).
  split; [exact Hrow|].
  exact (team_reference_changes_only_by_CreateTeam
           [CallSetUserActiveStatus "u1" false; CallCreateTeam frontend]
           team_db "u1" alice_row Hrow).
Defined.

(** C8, as the specification has it, fails: user [u1] of team [backend] is
    moved to team [frontend] by creating [frontend] with [u1] in its member
    list. *)
Lemma CreateTeam_moves_existing_user :
  team_name <$> users team_db !! "u1" = Some "backend"
  ∧ team_name <$> users (run [CallCreateTeam frontend] team_db) !! "u1"
    = Some "frontend".
Proof. split; vm_compute; reflexivity. Qed.

(** ** The two claims about the candidate selector *)

(** C6. For every list of users, author and exclusion list: an identifier is
    among the candidates exactly when some listed user has that identifier,
    is active, and the identifier is neither the author's nor excluded; when
    no identifier is listed twice (as for the rows of a team) this reads per
    member.  The exclusion set is the author together with the exclusion
    list, so it always contains the author; on reassignment the exclusion
    list is the current reviewers followed by the reviewer being replaced,
    so none of them is a candidate. *)
Theorem candidate_selection users authorID exclude :
  (∀ id, id ∈ activeReviewers users authorID exclude ↔
         ∃ u, u ∈ users ∧ User.UserID u = id ∧ User.IsActive u = true
              ∧ id ≠ authorID ∧ id ∉ exclude)
  ∧ (NoDup (User.UserID <$> users) →
     ∀ u, u ∈ users →
          (User.UserID u ∈ activeReviewers users authorID exclude ↔
           User.IsActive u = true ∧ User.UserID u ≠ authorID
           ∧ User.UserID u ∉ exclude))
  ∧ (∀ id, id ∈ excludeSet authorID exclude ↔ id = authorID ∨ id ∈ exclude)
  ∧ (∀ teamName oldUserID currentReviewers db,
       activeReviewersFromTeam teamName authorID oldUserID currentReviewers db
       = (Ok (activeReviewers (select_team_members teamName db) authorID
                (currentReviewers ++ [oldUserID])), db)
       ∧ ∀ id, id = authorID ∨ id ∈ currentReviewers ∨ id = oldUserID →
               id ∈ excludeSet authorID (currentReviewers ++ [oldUserID])
               ∧ id ∉ activeReviewers (select_team_members teamName db)
                        authorID (currentReviewers ++ [oldUserID])).
Proof.
  split; [|split; [|split]].
  - intros id. apply elem_of_activeReviewers.
  - intros Hnd u Hu. rewrite elem_of_activeReviewers. split.
    + intros (u' & Hu' & Hid & Hact & Hne & Hex).
      assert (u' = u) as ->; [|done].
      apply list_elem_of_lookup in Hu as [i Hi].
      apply list_elem_of_lookup in Hu' as [i' Hi'].
      assert (i' = i) as ->; [|congruence].
      eapply NoDup_lookup; [exact Hnd| |].
      * rewrite list_lookup_fmap, Hi'. simpl. by rewrite Hid.
      * by rewrite list_lookup_fmap, Hi.
    + intros (Hact & Hne & Hex). by exists u.
  - intros id. apply elem_of_excludeSet.
  - intros teamName oldUserID currentReviewers db. split; [done|].
    intros id Hid.
    assert (id ∈ excludeSet authorID (currentReviewers ++ [oldUserID]))
      as Hin.
    { rewrite elem_of_excludeSet, elem_of_app, list_elem_of_singleton.
      naive_solver. }
    split; [done|]. rewrite elem_of_activeReviewers.
    rewrite elem_of_excludeSet in Hin. naive_solver.
Qed.

Lemma candidate_selection_witness :
  NoDup (User.UserID <$> select_team_members "backend" team_db)
  ∧ User.mk "u5" "erin" "backend" false
      ∈ select_team_members "backend" team_db
  ∧ ("u5" ∈ activeReviewers (select_team_members "backend" team_db) "u1"
              ["u2"]
     ↔ false = true ∧ "u5" ≠ "u1" ∧ "u5" ∉ ["u2"])
  ∧ ("u4" = "u1" ∨ "u4" ∈ ["u2"; "u4"] ∨ "u4" = "u2")
  ∧ "u4" ∈ excludeSet "u1" (["u2"; "u4"] ++ ["u2"])
  ∧ "u4" ∉ activeReviewers (select_team_members "backend" team_db) "u1"
             (["u2"; "u4"] ++ ["u2"]).
Proof.
  assert (NoDup (User.UserID <$> select_team_members "backend" team_db))
    as Hnd by by_compute.
  assert (User.mk "u5" "erin" "backend" false
            ∈ select_team_members "backend" team_db) as Hin
    by by_compute.
  assert ("u4" = "u1" ∨ "u4" ∈ ["u2"; "u4"] ∨ "u4" = "u2") as Hex
    by by_compute.
  pose proof (candidate_selection (select_team_members "backend" team_db)
                "u1" ["u2"]) as (_ & Hmember & _ & _).
  pose proof (candidate_selection (select_team_members "backend" team_db)
                "u1" ["u2"; "u4"]) as (_ & _ & _ & Hreassign).
  destruct (Hreassign "backend" "u2" ["u2"; "u4"] team_db) as [_ Hexcl].
  split; [exact Hnd|]. split; [exact Hin|].
  split; [exact (Hmember Hnd _ Hin)|]. split; [exact Hex|].
  exact (Hexcl "u4" Hex).
Defined.

Lemma selectRandom_all rnd ids limit :
  length ids ≤ limit → selectRandom rnd ids limit = ids.
Proof. intros Hle. unfold selectRandom. by rewrite decide_True by done. Qed.

Lemma selectRandom_shuffled rnd ids limit :
  limit < length ids →
  selectRandom rnd ids limit =
  take limit (Shuffle_loop rnd (length ids - 1) ids).
Proof. intros Hlt. unfold selectRandom. by rewrite decide_False by lia. Qed.

(** Whatever the generator yields, [selectRandom] does what it does for one
    of the enumerated answers. *)
Lemma selectRandom_draws rnd ids limit :
  ∃ js, js ∈ all_draws (length ids - 1)
        ∧ selectRandom rnd ids limit =
          selectRandom (draws_rnd (length ids - 1) js) ids limit.
Proof.
  destruct (all_draws_complete rnd (length ids - 1) ids) as (js & Hjs & Heq).
  exists js. split; [done|]. unfold selectRandom, Shuffle. by rewrite Heq.
Qed.

Lemma selectRandom_count ids limit q :
  NoDup ids → limit < length ids →
  NoDup q → q ⊆ ids → length q = limit →
  length (filter (λ js, selectRandom (draws_rnd (length ids - 1) js) ids limit
                        = q)
                 (all_draws (length ids - 1)))
  = fact (length ids - limit).
Proof.
  intros Hnd Hlt Hq Hsub Hlen. subst limit.
  rewrite <- (count_draws_prefix (length ids - 1) ids q) by (done || lia).
  f_equal. apply list_filter_iff. intros js.
  by rewrite selectRandom_shuffled by done.
Qed.

Lemma selectRandom_mem_elems rnd ids limit m :
  slice_ok m ids →
  elems (selectRandom_mem rnd ids limit m).2
        (selectRandom_mem rnd ids limit m).1
  = selectRandom rnd (elems m ids) limit.
Proof.
  intros Hok. unfold selectRandom_mem, selectRandom.
  rewrite (elems_length m ids) by done. case_decide.
  - apply append_to_nil_elems.
  - rewrite append_to_nil_elems, elems_reslice by lia.
    unfold Shuffle. rewrite Shuffle_loop_mem_elems by done.
    by rewrite (elems_length m ids) by done.
Qed.

Lemma selectRandom_mem_fresh rnd ids limit m base off len :
  (selectRandom_mem rnd ids limit m).1 = mk_slice base off len →
  base ∉ dom m.
Proof.
  unfold selectRandom_mem. case_decide.
  - apply append_to_nil_fresh.
  - intros Hres%append_to_nil_fresh. by rewrite Shuffle_loop_mem_dom in Hres.
Qed.

(** Overwriting an array that existed before the call does not change what
    the returned slice shows. *)
Lemma selectRandom_mem_independent rnd ids limit m base arr :
  base ∈ dom m →
  elems (<[base := arr]> (selectRandom_mem rnd ids limit m).2)
        (selectRandom_mem rnd ids limit m).1
  = elems (selectRandom_mem rnd ids limit m).2
          (selectRandom_mem rnd ids limit m).1.
Proof.
  intros Hbase.
  destruct (selectRandom_mem rnd ids limit m).1 as [|base' off len] eqn:Hres;
    [done|].
  apply selectRandom_mem_fresh in Hres. simpl.
  rewrite lookup_insert_ne; [done|]. by intros ->.
Qed.

(** C7. [selectRandom] returns [min limit (length ids)] entries; they are
    taken from [ids] without replacement (together with the entries left out
    they are [ids] rearranged, so distinct candidates give distinct
    entries); with no candidates it returns the empty list, and it has no
    error result.  When there are more than [limit] pairwise distinct
    candidates, every sequence of [limit] distinct candidates is returned
    for the same number, [(length ids - limit)!] out of [(length ids)!], of
    the ways the generator can answer, and what is returned for an arbitrary
    generator is returned for one of these ways.  On slices, the entries
    returned are those of the list model, they are stored in an array that
    did not exist before the call, and overwriting any array that did exist
    (the candidates' array among them) does not change them. *)
Theorem selectRandom_spec rnd ids limit :
  length (selectRandom rnd ids limit) = Nat.min limit (length ids)
  ∧ (∃ rest, selectRandom rnd ids limit ++ rest ≡ₚ ids)
  ∧ (NoDup ids → NoDup (selectRandom rnd ids limit))
  ∧ (ids = [] → selectRandom rnd ids limit = [])
  ∧ (NoDup ids → limit < length ids →
     length (all_draws (length ids - 1)) = fact (length ids)
     ∧ (∃ js, js ∈ all_draws (length ids - 1)
              ∧ selectRandom rnd ids limit =
                selectRandom (draws_rnd (length ids - 1) js) ids limit)
     ∧ ∀ q, NoDup q → q ⊆ ids → length q = limit →
            length (filter
                      (λ js, selectRandom (draws_rnd (length ids - 1) js)
                               ids limit = q)
                      (all_draws (length ids - 1)))
            = fact (length ids - limit))
  ∧ (∀ m s, slice_ok m s → elems m s = ids →
       elems (selectRandom_mem rnd s limit m).2
             (selectRandom_mem rnd s limit m).1
       = selectRandom rnd ids limit
       ∧ (∀ base off len,
            (selectRandom_mem rnd s limit m).1 = mk_slice base off len →
            base ∉ dom m)
       ∧ (∀ base arr, base ∈ dom m →
            elems (<[base := arr]> (selectRandom_mem rnd s limit m).2)
                  (selectRandom_mem rnd s limit m).1
            = selectRandom rnd ids limit)).
Proof.
  split; [apply selectRandom_length|].
  split; [apply selectRandom_sub|].
  split; [apply selectRandom_NoDup|].
  split; [by intros ->|].
  split.
  - intros Hnd Hlt. split; [|split].
    + rewrite all_draws_length. f_equal. lia.
    + apply selectRandom_draws.
    + intros q. by apply selectRandom_count.
  - intros m s Hok <-. split; [by apply selectRandom_mem_elems|]. split.
    + apply selectRandom_mem_fresh.
    + intros base arr Hbase. rewrite selectRandom_mem_independent by done.
      by apply selectRandom_mem_elems.
Qed.

Lemma selectRandom_spec_witness :
  NoDup ["a"; "b"; "c"]
  ∧ 2 < length ["a"; "b"; "c"]
  ∧ NoDup ["c"; "a"]
  ∧ ["c"; "a"] ⊆ ["a"; "b"; "c"]
  ∧ length ["c"; "a"] = 2
  ∧ NoDup (selectRandom rnd0 ["a"; "b"; "c"] 2)
  ∧ selectRandom rnd0 [] 2 = []
  ∧ length (filter (λ js, selectRandom (draws_rnd 2 js) ["a"; "b"; "c"] 2
                          = ["c"; "a"])
                   (all_draws 2)) = fact 1
  ∧ slice_ok {[0 := ["z"; "a"; "b"; "c"]]} (mk_slice 0 1 3)
  ∧ elems {[0 := ["z"; "a"; "b"; "c"]]} (mk_slice 0 1 3) = ["a"; "b"; "c"]
  ∧ (selectRandom_mem rnd0 (mk_slice 0 1 3) 2
       {[0 := ["z"; "a"; "b"; "c"]]}).1 = mk_slice 1 0 2
  ∧ (1 ∉ dom ({[0 := ["z"; "a"; "b"; "c"]]} : Memory))
  ∧ (0 ∈ dom ({[0 := ["z"; "a"; "b"; "c"]]} : Memory))
  ∧ elems (<[0 := []]>
             (selectRandom_mem rnd0 (mk_slice 0 1 3) 2
                {[0 := ["z"; "a"; "b"; "c"]]}).2)
          (selectRandom_mem rnd0 (mk_slice 0 1 3) 2
             {[0 := ["z"; "a"; "b"; "c"]]}).1
    = selectRandom rnd0 ["a"; "b"; "c"] 2.
Proof.
  assert (NoDup ["a"; "b"; "c"]) as Hnd by by_compute.
  assert (2 < length ["a"; "b"; "c"]) as Hlt by (simpl; lia).
  assert (NoDup ["c"; "a"]) as Hq by by_compute.
  assert (["c"; "a"] ⊆ ["a"; "b"; "c"]) as Hsub by by_compute.
  assert (slice_ok {[0 := ["z"; "a"; "b"; "c"]]} (mk_slice 0 1 3)) as Hok.
  { exists ["z"; "a"; "b"; "c"]. split; [reflexivity|simpl; lia]. }
  assert (elems {[0 := ["z"; "a"; "b"; "c"]]} (mk_slice 0 1 3)
          = ["a"; "b"; "c"]) as Hel by reflexivity.
  assert ((selectRandom_mem rnd0 (mk_slice 0 1 3) 2
             {[0 := ["z"; "a"; "b"; "c"]]}).1 = mk_slice 1 0 2) as Hres
    by (vm_compute; reflexivity).
  assert (0 ∈ dom ({[0 := ["z"; "a"; "b"; "c"]]} : Memory)) as Hdom
    by by_compute.
  pose proof (selectRandom_spec rnd0 ["a"; "b"; "c"] 2)
    as (_ & _ & Hdistinct & _ & Hunif & Hmem).
  pose proof (selectRandom_spec rnd0 [] 2) as (_ & _ & _ & Hempty & _).
  destruct (Hunif Hnd Hlt) as (_ & _ & Hcount).
  destruct (Hmem _ _ Hok Hel) as (_ & Hfresh & Hindep).
  split; [exact Hnd|]. split; [exact Hlt|]. split; [exact Hq|].
  split; [exact Hsub|]. split; [reflexivity|].
  split; [exact (Hdistinct Hnd)|]. split; [exact (Hempty eq_refl)|].
  split; [exact (Hcount _ Hq Hsub eq_refl)|].
  split; [exact Hok|]. split; [exact Hel|]. split; [exact Hres|].
  split; [exact (Hfresh _ _ _ Hres)|]. split; [exact Hdom|].
  exact (Hindep 0 [] Hdom).
Defined.

(** ** The scenarios of the service tests, replayed on the model *)

(** [TestCreatePullRequestAssignsReviewers]: a team of three active users;
    the pull request of [u1] is OPEN with two reviewers other than [u1]. *)
Example create_assigns_two_reviewers :
  let trio := Team.mk "backend"
                [TeamMember.mk "u1" "user0" true;
                 TeamMember.mk "u2" "user1" true;
                 TeamMember.mk "u3" "user2" true] in
  let db := run [CallCreateTeam trio] empty_DB in
  ∃ pr, (CreatePullRequest rnd0 dbnow1 "pr1" "feat" "u1" db).1 = Ok pr
        ∧ PullRequest.Status pr = PROpen
        ∧ length (PullRequest.AssignedReviewers pr) = 2
        ∧ "u1" ∉ PullRequest.AssignedReviewers pr.
Proof.
  eexists. split; [vm_compute; reflexivity|].
  split; [reflexivity|]. split; [reflexivity|]. by_compute.
Qed.

(** [TestCreatePullRequestNoAuthor] and [TestMergePRNotFound]. *)
Example unknown_author_and_unknown_pull_request :
  (CreatePullRequest rnd0 dbnow1 "pr1" "feat" "unknown" empty_DB).1
  = Err model_ErrNotFound
  ∧ (MergePullRequest now1 "absent" empty_DB).1 = Err model_ErrNotFound.
Proof. split; vm_compute; reflexivity. Qed.

(** [TestMergeIdempotent]: the second merge returns the first merge's
    result. *)
Example merge_twice :
  (MergePullRequest now2 "pr1" merged_db).1
  = (MergePullRequest now1 "pr1" demo_db).1
  ∧ (MergePullRequest now2 "pr1" merged_db).2 = merged_db.
Proof. split; vm_compute; reflexivity. Qed.

(** [TestReassignValidation]: an unknown user, a user that is not assigned,
    and a merged pull request. *)
Example reassign_validation :
  (ReassignReviewer rnd0 "pr1" "u9" demo_db).1 = Err model_ErrNotFound
  ∧ (ReassignReviewer rnd0 "pr1" "u3" demo_db).1 = Err model_ErrNotAssigned
  ∧ (ReassignReviewer rnd0 "pr1" "u2" merged_db).1 = Err model_ErrPRMerged.
Proof. repeat split; vm_compute; reflexivity. Qed.

(** [TestReassignNoCandidate]: a team of two; the only reviewer cannot be
    replaced. *)
Example reassign_no_candidate :
  (ReassignReviewer rnd0 "pr7" "p2" pair_db).1 = Err model_ErrNoCandidate.
Proof. vm_compute; reflexivity. Qed.

(** * Further properties: sequences of calls, reads, handlers *)
(** * Further properties *)

(** ** Every call is one of the changes *)

Section changes.
Implicit Types (db : DB) (call : ApiCall).

Lemma CreateTeam_cases team db :
  ((Team.TeamName team ∈ teams db)
   ∧ CreateTeam team db = (Err model_ErrTeamExists, db))
  ∨ ((Team.TeamName team ∉ teams db)
     ∧ CreateTeam team db =
       (Ok (),
        mk_DB ({[Team.TeamName team]} ∪ teams db)
          (foldl (upsert_user (Team.TeamName team)) (users db)
             (Team.Members team))
          (pull_requests db))).
Proof.
  unfold CreateTeam, CreateTeamTx. case_decide; [left|right]; done.
Qed.

Lemma SetUserActiveStatus_cases userID isActive db :
  (users db !! userID = None
   ∧ service_SetUserActiveStatus userID isActive db
     = (Err model_ErrNotFound, db))
  ∨ (∃ row, users db !! userID = Some row
       ∧ service_SetUserActiveStatus userID isActive db =
         (Ok (User.mk userID (username row) (team_name row) isActive),
          mk_DB (teams db)
            (<[userID := mk_users_row (username row) (team_name row)
                           isActive]> (users db))
            (pull_requests db))).
Proof.
  unfold service_SetUserActiveStatus, SetUserActiveStatus.
  destruct (users db !! userID) as [row|]; [right; by exists row|by left].
Qed.

Lemma CreatePullRequest_cases rnd dbnow prID prName authorID db :
  (∃ e, CreatePullRequest rnd dbnow prID prName authorID db = (Err e, db)
        ∧ ((e = model_ErrNotFound ∧ users db !! authorID = None)
           ∨ (e = model_ErrPRExists ∧ is_Some (users db !! authorID)
              ∧ is_Some (pull_requests db !! prID))))
  ∨ (∃ a, users db !! authorID = Some a
       ∧ pull_requests db !! prID = None
       ∧ CreatePullRequest rnd dbnow prID prName authorID db =
         (Ok (PullRequest.mk prID prName authorID PROpen
                (create_reviewers rnd db (team_name a) authorID)
                (Some (decode_timestamptz dbnow)) None),
          mk_DB (teams db) (users db)
            (<[prID := mk_pr_row prName authorID PROpen
                         (create_reviewers rnd db (team_name a) authorID)
                         dbnow None]> (pull_requests db)))).
Proof.
  destruct (users db !! authorID) as [a|] eqn:Ha.
  2: { left. exists model_ErrNotFound.
       split; [by apply CreatePullRequest_no_author|by left]. }
  destruct (pull_requests db !! prID) as [r0|] eqn:Hpr.
  - left. exists model_ErrPRExists. split.
    + apply CreatePullRequest_taken; by eexists.
    + right. by eauto.
  - right. exists a. split; [done|]. split; [done|].
    by apply CreatePullRequest_fresh.
Qed.

Lemma MergePullRequest_cases now prID db :
  (pull_requests db !! prID = None
   ∧ MergePullRequest now prID db = (Err model_ErrNotFound, db))
  ∨ (∃ r, pull_requests db !! prID = Some r ∧ status r = PRMerged
       ∧ MergePullRequest now prID db = (Ok (scan_pr prID r), db))
  ∨ (∃ r, pull_requests db !! prID = Some r ∧ status r = PROpen
       ∧ MergePullRequest now prID db =
         (Ok (scan_pr prID
                (mk_pr_row (pull_request_name r) (author_id r) PRMerged
                   (assigned_reviewers r) (created_at r)
                   (Some (encode_timestamptz now)))),
          mk_DB (teams db) (users db)
            (<[prID := mk_pr_row (pull_request_name r) (author_id r) PRMerged
                         (assigned_reviewers r) (created_at r)
                         (Some (encode_timestamptz now))]>
               (pull_requests db)))).
Proof.
  destruct (pull_requests db !! prID) as [r|] eqn:Hpr.
  2: { left. split; [done|]. by apply MergePullRequest_absent. }
  right. destruct (status r) eqn:Hst; [right|left]; exists r.
  - split; [done|]. split; [done|]. by apply MergePullRequest_open.
  - split; [done|]. split; [done|]. by apply MergePullRequest_merged.
Qed.

Lemma ReassignReviewer_cases rnd prID oldUserID db :
  (∃ e, ReassignReviewer rnd prID oldUserID db = (Err e, db)
        ∧ (e = model_ErrNotFound ∨ e = model_ErrPRMerged
           ∨ e = model_ErrNotAssigned ∨ e = model_ErrNoCandidate))
  ∨ (∃ r u replacedBy rest,
       pull_requests db !! prID = Some r
       ∧ status r = PROpen
       ∧ users db !! oldUserID = Some u
       ∧ oldUserID ∈ assigned_reviewers r
       ∧ selectRandom rnd
           (reassign_candidates db (team_name u) (author_id r) oldUserID
              (assigned_reviewers r)) 1 = replacedBy :: rest
       ∧ ReassignReviewer rnd prID oldUserID db =
         (Ok (scan_pr prID
                (mk_pr_row (pull_request_name r) (author_id r) PROpen
                   (replace_reviewer oldUserID replacedBy
                      (assigned_reviewers r))
                   (created_at r) (merged_at r)), replacedBy),
          mk_DB (teams db) (users db)
            (<[prID := mk_pr_row (pull_request_name r) (author_id r) PROpen
                         (replace_reviewer oldUserID replacedBy
                            (assigned_reviewers r))
                         (created_at r) (merged_at r)]>
               (pull_requests db)))).
Proof.
  destruct (pull_requests db !! prID) as [r|] eqn:Hpr.
  2: { left. exists model_ErrNotFound.
       split; [by apply ReassignReviewer_absent|by left]. }
  destruct (status r) eqn:Hst.
  2: { left. exists model_ErrPRMerged.
       split; [by apply (ReassignReviewer_merged _ _ _ _ r)|by auto]. }
  destruct (users db !! oldUserID) as [u|] eqn:Hu.
  2: { left. exists model_ErrNotFound.
       split; [by apply (ReassignReviewer_no_user _ _ _ _ r)|by left]. }
  destruct (decide (oldUserID ∈ assigned_reviewers r)) as [Hin|Hin].
  2: { left. exists model_ErrNotAssigned.
       split; [by apply (ReassignReviewer_not_assigned _ _ _ _ r u)|by auto]. }
  pose proof (ReassignReviewer_open rnd prID oldUserID db r u Hpr Hst Hu Hin)
    as Heq.
  destruct (selectRandom _ _ _) as [|replacedBy rest] eqn:Hsel.
  - left. exists model_ErrNoCandidate. split; [done|by auto].
  - right. exists r, u, replacedBy, rest. by rewrite Hsel.
Qed.

Lemma exec_db_change db call : db_change db (exec db call).
Proof.
  destruct call as [team| |userID isActive|rnd dbnow prID prName authorID
                    |now prID|rnd prID oldUserID|]; simpl.
  - destruct (CreateTeam_cases team db) as [[_ ->]|[Hnew ->]]; simpl.
    + constructor.
    + by constructor.
  - constructor.
  - destruct (SetUserActiveStatus_cases userID isActive db)
      as [[_ ->]|(row & Hrow & ->)]; simpl.
    + constructor.
    + by constructor.
  - destruct (CreatePullRequest_cases rnd dbnow prID prName authorID db)
      as [(e & -> & _)|(a & Ha & Hpr & ->)]; simpl.
    + constructor.
    + by apply (change_create db rnd dbnow prID prName authorID a).
  - destruct (MergePullRequest_cases now prID db)
      as [[_ ->]|[(r & _ & _ & ->)|(r & Hpr & Hst & ->)]]; simpl.
    + constructor.
    + constructor.
    + by constructor.
  - destruct (ReassignReviewer_cases rnd prID oldUserID db)
      as [(e & -> & _)|(r & u & x & rest & Hpr & Hst & Hu & Hin & Hsel & ->)];
      simpl.
    + constructor.
    + by apply (change_reassign db rnd prID oldUserID r u x rest).
  - constructor.
Qed.
End changes.

(** ** What the changes keep *)

Section kept.
Implicit Types (db : DB) (calls : list ApiCall).

Lemma replace_first_length oldUserID replacedBy (rs : list string) :
  length (replace_first oldUserID replacedBy rs) = length rs.
Proof.
  induction rs as [|r rs IH]; [done|]. simpl.
  case_decide; simpl; by rewrite ?IH.
Qed.

Lemma run_cons call calls db : run (call :: calls) db = run calls (exec db call).
Proof. done. Qed.

Lemma run_app calls1 calls2 db :
  run (calls1 ++ calls2) db = run calls2 (run calls1 db).
Proof. apply foldl_app. Qed.

(** A property that every change keeps holds after every sequence of
    calls. *)
Lemma run_ind (P : DB → Prop) :
  (∀ db db', P db → db_change db db' → P db') →
  ∀ calls db, P db → P (run calls db).
Proof.
  intros Hstep calls. induction calls as [|call calls IH]; intros db HP.
  - done.
  - rewrite run_cons. apply IH. eapply Hstep; [done|]. apply exec_db_change.
Qed.

Lemma db_change_refs_ok db db' :
  db_ok db → db_refs_ok db → db_change db db' → db_refs_ok db'.
Proof.
  intros Hok [Hpr Hus] Hch.
  destruct Hch as [|team Hnew|userID isActive row Hrow
                   |rnd dbnow prID prName authorID a Ha Hfree
                   |now prID r Hr Hst
                   |rnd prID oldUserID r u x rest Hr Hst Hu Hin Hsel].
  - done.
  - split; simpl.
    + intros prID r Hr. destruct (Hpr prID r Hr) as [Hauth Hm].
      split; [by apply upsert_users_is_Some|done].
    + intros userID row Hrow.
      destruct (upsert_users_lookup (Team.TeamName team) (Team.Members team)
                  (users db) userID) as [Hlisted Hother].
      destruct (decide (userID ∈ TeamMember.UserID <$> Team.Members team))
        as [Hm|Hm].
      * destruct (Hlisted Hm) as (row' & Hrow' & Ht).
        rewrite Hrow in Hrow'. injection Hrow' as <-. set_solver.
      * rewrite Hother in Hrow by done. apply Hus in Hrow. set_solver.
  - split; simpl.
    + intros prID r Hr. destruct (Hpr prID r Hr) as [Hauth Hm].
      split; [|done]. destruct (decide (userID = author_id r)) as [->|Hne].
      * rewrite lookup_insert_eq. by eexists.
      * by rewrite lookup_insert_ne.
    + intros id row'. destruct (decide (userID = id)) as [->|Hne].
      * rewrite lookup_insert_eq. intros [= <-]. simpl. by eapply Hus.
      * rewrite lookup_insert_ne by done. apply Hus.
  - split; simpl; [|done].
    intros id r. destruct (decide (prID = id)) as [->|Hne].
    + rewrite lookup_insert_eq. intros [= <-]. simpl. split; [by eexists|done].
    + rewrite lookup_insert_ne by done. apply Hpr.
  - split; simpl; [|done].
    intros id r'. destruct (decide (prID = id)) as [->|Hne].
    + rewrite lookup_insert_eq. intros [= <-]. simpl.
      split; [by apply (Hpr id r)|]. split; intros [=].
    + rewrite lookup_insert_ne by done. apply Hpr.
  - split; simpl; [|done].
    intros id r'. destruct (decide (prID = id)) as [->|Hne].
    + rewrite lookup_insert_eq. intros [= <-]. simpl.
      destruct (Hpr id r Hr) as [Hauth Hm]. split; [done|].
      by rewrite Hst in Hm.
    + rewrite lookup_insert_ne by done. apply Hpr.
Qed.

Lemma run_invariants calls db :
  db_ok db ∧ db_refs_ok db →
  db_ok (run calls db) ∧ db_refs_ok (run calls db).
Proof.
  revert db. induction calls as [|call calls IH]; intros db [Hok Hrefs].
  - done.
  - rewrite run_cons. apply IH. split; [by apply exec_db_ok|].
    eapply db_change_refs_ok; [done..|]. apply exec_db_change.
Qed.

Lemma empty_DB_refs_ok : db_refs_ok empty_DB.
Proof. split; intros ? ?; simpl; by rewrite lookup_empty. Qed.

(** A merged pull request is not touched by any change. *)
Lemma db_change_merged db db' prID r :
  db_change db db' →
  pull_requests db !! prID = Some r → status r = PRMerged →
  pull_requests db' !! prID = Some r.
Proof.
  intros Hch Hr Hst.
  destruct Hch as [| | |rnd dbnow prID' prName authorID a Ha Hfree
                   |now prID' r' Hr' Hst'
                   |rnd prID' oldUserID r' u x rest Hr' Hst' Hu Hin Hsel];
    simpl; try done.
  - rewrite lookup_insert_ne; [done|]. intros ->. congruence.
  - rewrite lookup_insert_ne; [done|]. intros ->. congruence.
  - rewrite lookup_insert_ne; [done|]. intros ->. congruence.
Qed.

(** A change keeps every pull request, with its name, author, creation
    timestamp and number of reviewers, and never reopens it. *)
Lemma db_change_pull_request db db' prID r :
  db_change db db' →
  pull_requests db !! prID = Some r →
  ∃ r', pull_requests db' !! prID = Some r' ∧ same_pull_request r r'.
Proof.
  intros Hch Hr.
  assert (same_pull_request r r) as Hrefl by done.
  destruct Hch as [| | |rnd dbnow prID' prName authorID a Ha Hfree
                   |now prID' r' Hr' Hst'
                   |rnd prID' oldUserID r' u x rest Hr' Hst' Hu Hin Hsel];
    simpl; try (by exists r).
  - exists r. rewrite lookup_insert_ne; [done|]. intros ->. congruence.
  - destruct (decide (prID' = prID)) as [->|Hne].
    + rewrite lookup_insert_eq. eexists. split; [done|].
      rewrite Hr in Hr'. injection Hr' as <-. done.
    + exists r. by rewrite lookup_insert_ne.
  - destruct (decide (prID' = prID)) as [->|Hne].
    + rewrite lookup_insert_eq. eexists. split; [done|].
      rewrite Hr in Hr'. injection Hr' as <-.
      repeat split; simpl; try done.
      * by rewrite replace_reviewer_replace_first, replace_first_length.
      * congruence.
    + exists r. by rewrite lookup_insert_ne.
Qed.

Lemma db_change_teams db db' teamName :
  db_change db db' → teamName ∈ teams db → teamName ∈ teams db'.
Proof. intros Hch Hin. destruct Hch; simpl; set_solver. Qed.
End kept.

(** ** Properties of sequences of calls *)

(** X1. In every database built by calls of the public API from the empty
    one: a pull request has at most two reviewers, pairwise distinct, none
    of them its author; its reviewers and its author are stored users; its
    merge timestamp is absent exactly while it is OPEN; and the team of
    every user is a stored team. *)
Theorem api_database_invariant calls :
  (∀ prID r, pull_requests (run calls empty_DB) !! prID = Some r →
     NoDup (assigned_reviewers r)
     ∧ (author_id r ∉ assigned_reviewers r)
     ∧ length (assigned_reviewers r) ≤ 2
     ∧ (∀ id, id ∈ assigned_reviewers r →
              is_Some (users (run calls empty_DB) !! id))
     ∧ is_Some (users (run calls empty_DB) !! author_id r)
     ∧ (status r = PROpen ↔ merged_at r = None))
  ∧ (∀ userID row, users (run calls empty_DB) !! userID = Some row →
       team_name row ∈ teams (run calls empty_DB)).
Proof.
  destruct (run_invariants calls empty_DB) as [Hok [Hpr Hus]].
  { split; [apply empty_DB_ok|apply empty_DB_refs_ok]. }
  split; [|done]. intros prID r Hr.
  destruct (Hok prID r Hr) as (? & ? & ? & ?).
  destruct (Hpr prID r Hr) as (? & ?). done.
Qed.

Lemma api_database_invariant_witness :
  pull_requests (run (demo_calls ++ [CallMergePullRequest now1 "pr1"])
                   empty_DB) !! "pr1" = Some merged_row
  ∧ users (run (demo_calls ++ [CallMergePullRequest now1 "pr1"])
             empty_DB) !! "u1" = Some alice_row
  ∧ (NoDup (assigned_reviewers merged_row)
     ∧ (author_id merged_row ∉ assigned_reviewers merged_row)
     ∧ length (assigned_reviewers merged_row) ≤ 2
     ∧ (∀ id, id ∈ assigned_reviewers merged_row →
              is_Some (users (run (demo_calls
                                     ++ [CallMergePullRequest now1 "pr1"])
                                empty_DB) !! id))
     ∧ is_Some (users (run (demo_calls ++ [CallMergePullRequest now1 "pr1"])
                         empty_DB) !! author_id merged_row)
     ∧ (status merged_row = PROpen ↔ merged_at merged_row = None))
  ∧ team_name alice_row
      ∈ teams (run (demo_calls ++ [CallMergePullRequest now1 "pr1"])
                 empty_DB).
Proof.
  assert (pull_requests (run (demo_calls ++ [CallMergePullRequest now1 "pr1"])
                           empty_DB) !! "pr1" = Some merged_row) as Hpr
    by (vm_compute; reflexivity).
  assert (users (run (demo_calls ++ [CallMergePullRequest now1 "pr1"])
                   empty_DB) !! "u1" = Some alice_row) as Hu
    by (vm_compute; reflexivity).
  pose proof (api_database_invariant
                (demo_calls ++ [CallMergePullRequest now1 "pr1"]))
    as [Hprs Hus].
  split; [exact Hpr|]. split; [exact Hu|].
  split; [exact (Hprs _ _ Hpr)|exact (Hus _ _ Hu)].
Defined.

(** X2. MERGED is final.  Once a pull request is stored as MERGED, no
    sequence of calls changes its row; afterwards every merge returns that
    row without writing and every reassignment is refused with PRMerged. *)
Theorem merged_pull_request_is_final calls db prID r :
  pull_requests db !! prID = Some r →
  status r = PRMerged →
  pull_requests (run calls db) !! prID = Some r
  ∧ (∀ now, MergePullRequest now prID (run calls db)
            = (Ok (scan_pr prID r), run calls db))
  ∧ (∀ rnd oldUserID, ReassignReviewer rnd prID oldUserID (run calls db)
                      = (Err model_ErrPRMerged, run calls db)).
Proof.
  intros Hr Hst.
  assert (pull_requests (run calls db) !! prID = Some r) as Hlater.
  { revert Hr. apply (run_ind (λ db, pull_requests db !! prID = Some r)).
    intros db1 db2 Hr1 Hch. by eapply db_change_merged. }
  split; [done|]. split.
  - intros now. by apply MergePullRequest_merged.
  - intros rnd oldUserID. by apply (ReassignReviewer_merged _ _ _ _ r).
Qed.

Lemma merged_pull_request_is_final_witness :
  pull_requests merged_db !! "pr1" = Some merged_row
  ∧ status merged_row = PRMerged
  ∧ pull_requests (run final_calls merged_db) !! "pr1" = Some merged_row
  ∧ (∀ now, MergePullRequest now "pr1" (run final_calls merged_db)
            = (Ok (scan_pr "pr1" merged_row), run final_calls merged_db))
  ∧ (∀ rnd oldUserID,
       ReassignReviewer rnd "pr1" oldUserID (run final_calls merged_db)
       = (Err model_ErrPRMerged, run final_calls merged_db)).
Proof.
  assert (pull_requests merged_db !! "pr1" = Some merged_row) as Hpr
    by (vm_compute; reflexivity).
  split; [exact Hpr|]. split; [reflexivity|].
  exact (merged_pull_request_is_final final_calls merged_db "pr1" merged_row
           Hpr eq_refl).
Defined.

Lemma run_pull_request calls db prID r :
  pull_requests db !! prID = Some r →
  ∃ r', pull_requests (run calls db) !! prID = Some r'
        ∧ same_pull_request r r'.
Proof.
  intros Hr.
  apply (run_ind (λ db, ∃ r', pull_requests db !! prID = Some r'
                              ∧ same_pull_request r r')); [|by exists r].
  intros db1 db2 (r1 & Hr1 & Hs1) Hch.
  destruct (db_change_pull_request db1 db2 prID r1 Hch Hr1)
    as (r2 & Hr2 & Hs2).
  exists r2. split; [done|].
  destruct Hs1 as (? & ? & ? & ? & ?), Hs2 as (? & ? & ? & ? & ?).
  repeat split; try congruence. auto.
Qed.

Lemma run_teams calls db teamName :
  teamName ∈ teams db → teamName ∈ teams (run calls db).
Proof.
  apply (run_ind (λ db, teamName ∈ teams db)).
  intros db1 db2 H1 Hch. by eapply db_change_teams.
Qed.

(** X3. No sequence of calls deletes a pull request, renames it, changes its
    author or creation timestamp, adds or removes a reviewer slot, or
    reopens it. *)
Theorem pull_request_identity_kept calls db prID r :
  pull_requests db !! prID = Some r →
  ∃ r', pull_requests (run calls db) !! prID = Some r'
        ∧ pull_request_name r' = pull_request_name r
        ∧ author_id r' = author_id r
        ∧ created_at r' = created_at r
        ∧ length (assigned_reviewers r') = length (assigned_reviewers r)
        ∧ (status r = PRMerged → status r' = PRMerged).
Proof. intros Hr. by apply run_pull_request. Qed.

Lemma pull_request_identity_kept_witness :
  pull_requests demo_db !! "pr1" = Some demo_row
  ∧ ∃ r', pull_requests (run final_calls demo_db) !! "pr1" = Some r'
          ∧ pull_request_name r' = pull_request_name demo_row
          ∧ author_id r' = author_id demo_row
          ∧ created_at r' = created_at demo_row
          ∧ length (assigned_reviewers r')
            = length (assigned_reviewers demo_row)
          ∧ (status demo_row = PRMerged → status r' = PRMerged).
Proof.
  assert (pull_requests demo_db !! "pr1" = Some demo_row) as Hpr
    by (vm_compute; reflexivity).
  split; [exact Hpr|].
  exact (pull_request_identity_kept final_calls demo_db "pr1" demo_row Hpr).
Defined.

(** X4. Identifiers are never reused.  After any sequence of calls,
    creating a team whose name was already stored fails with TeamExists,
    and creating a pull request whose identifier was already stored fails
    with NotFound or PRExists; neither writes. *)
Theorem identifiers_are_never_reused calls db :
  (∀ team, Team.TeamName team ∈ teams db →
     CreateTeam team (run calls db)
     = (Err model_ErrTeamExists, run calls db))
  ∧ (∀ rnd dbnow prID prName authorID,
       is_Some (pull_requests db !! prID) →
       ∃ e, CreatePullRequest rnd dbnow prID prName authorID (run calls db)
            = (Err e, run calls db)
            ∧ (e = model_ErrNotFound ∨ e = model_ErrPRExists)).
Proof.
  split.
  - intros team Hin.
    apply (run_teams calls) in Hin.
    destruct (CreateTeam_cases team (run calls db)) as [[_ ?]|[? _]]; done.
  - intros rnd dbnow prID prName authorID [r Hr].
    destruct (run_pull_request calls db prID r Hr) as (r' & Hr' & _).
    destruct (CreatePullRequest_cases rnd dbnow prID prName authorID
                (run calls db))
      as [(e & He & [[-> _]|[-> _]])|(a & _ & Hfree & _)].
    + exists model_ErrNotFound. by auto.
    + exists model_ErrPRExists. by auto.
    + congruence.
Qed.

Lemma identifiers_are_never_reused_witness :
  Team.TeamName backend ∈ teams demo_db
  ∧ CreateTeam backend (run final_calls demo_db)
    = (Err model_ErrTeamExists, run final_calls demo_db)
  ∧ is_Some (pull_requests demo_db !! "pr1")
  ∧ ∃ e, CreatePullRequest rnd0 dbnow1 "pr1" "again" "u2"
           (run final_calls demo_db)
         = (Err e, run final_calls demo_db)
         ∧ (e = model_ErrNotFound ∨ e = model_ErrPRExists).
Proof.
  assert (Team.TeamName backend ∈ teams demo_db) as Hteam by by_compute.
  assert (is_Some (pull_requests demo_db !! "pr1")) as Hpr
    by (eexists; vm_compute; reflexivity).
  pose proof (identifiers_are_never_reused final_calls demo_db)
    as [Hteams Hprs].
  split; [exact Hteam|]. split; [exact (Hteams backend Hteam)|].
  split; [exact Hpr|].
  exact (Hprs rnd0 dbnow1 "pr1" "again" "u2" Hpr).
Defined.

(** ** Errors, teams and users *)

Section read_cases.
Context (collate : relation string) `{!RelDecision collate}.

Lemma service_GetTeam_cases teamName db :
  ((teamName ∉ teams db)
   ∧ service_GetTeam collate teamName db = (Err model_ErrNotFound, db))
  ∨ ((teamName ∈ teams db)
     ∧ service_GetTeam collate teamName db =
       (Ok (Team.mk teamName
              (scan_member <$>
                 merge_sort (by_user_id collate)
                   (filter (λ kr, team_name kr.2 = teamName)
                           (map_to_list (users db))))), db)).
Proof.
  unfold service_GetTeam, GetTeam. case_decide; [right|left]; done.
Qed.

Lemma exec_error_unchanged db call e :
  exec_error collate db call = Some e →
  e ∈ domain_errors ∧ exec db call = db.
Proof.
  unfold domain_errors.
  destruct call as [team|teamName|userID isActive
                    |rnd dbnow prID prName authorID
                    |now prID|rnd prID oldUserID|userID]; simpl.
  - destruct (CreateTeam_cases team db) as [[_ ->]|[_ ->]]; simpl;
      [|done]. intros [= <-]. split; [set_solver|done].
  - destruct (service_GetTeam_cases teamName db) as [[_ ->]|[_ ->]]; simpl;
      [|done]. intros [= <-]. split; [set_solver|done].
  - destruct (SetUserActiveStatus_cases userID isActive db)
      as [[_ ->]|(row & _ & ->)]; simpl; [|done].
    intros [= <-]. split; [set_solver|done].
  - destruct (CreatePullRequest_cases rnd dbnow prID prName authorID db)
      as [(e' & -> & He')|(a & _ & _ & ->)]; simpl; [|done].
    intros [= <-]. split; [|done]. destruct He' as [[-> _]|[-> _]]; set_solver.
  - destruct (MergePullRequest_cases now prID db)
      as [[_ ->]|[(r & _ & _ & ->)|(r & _ & _ & ->)]]; simpl; try done.
    intros [= <-]. split; [set_solver|done].
  - destruct (ReassignReviewer_cases rnd prID oldUserID db)
      as [(e' & -> & He')|(r & u & x & rest & _ & _ & _ & _ & _ & ->)];
      simpl; [|done].
    intros [= <-]. split; [|done].
    destruct He' as [->|[->|[->| ->]]]; set_solver.
  - done.
Qed.
End read_cases.

(** X5. With a database whose statements fail only for a missing row or a
    key that is taken, whatever call of the public API fails, the error is
    one of the six domain errors NotFound, TeamExists, PRExists, PRMerged,
    NotAssigned and NoCandidate (never an error of the repository or of the
    driver), and the call has left the database as it was. *)
Theorem service_error_is_domain_error (collate : relation string)
    `{!RelDecision collate} db call e :
  exec_error collate db call = Some e →
  e ∈ domain_errors ∧ exec db call = db.
Proof. apply exec_error_unchanged. Qed.

Lemma service_error_is_domain_error_witness :
  exec_error bytewise demo_db (CallReassignReviewer rnd0 "pr1" "u3")
  = Some model_ErrNotAssigned
  ∧ model_ErrNotAssigned ∈ domain_errors
  ∧ exec demo_db (CallReassignReviewer rnd0 "pr1" "u3") = demo_db.
Proof.
  assert (exec_error bytewise demo_db (CallReassignReviewer rnd0 "pr1" "u3")
          = Some model_ErrNotAssigned) as Herr by (vm_compute; reflexivity).
  split; [exact Herr|].
  exact (service_error_is_domain_error bytewise demo_db
           (CallReassignReviewer rnd0 "pr1" "u3") model_ErrNotAssigned Herr).
Defined.

Lemma upsert_users_last teamName (l1 l2 : list TeamMember.t) m
    (us : gmap string users_row) :
  TeamMember.UserID m ∉ TeamMember.UserID <$> l2 →
  foldl (upsert_user teamName) us (l1 ++ m :: l2) !! TeamMember.UserID m
  = Some (mk_users_row (TeamMember.Username m) teamName
            (TeamMember.IsActive m)).
Proof.
  intros Hnot. rewrite foldl_app. simpl.
  destruct (upsert_users_lookup teamName l2
              (upsert_user teamName (foldl (upsert_user teamName) us l1) m)
              (TeamMember.UserID m)) as [_ Hother].
  rewrite Hother by done. unfold upsert_user at 1. apply lookup_insert_eq.
Qed.

(** X6. Creating a team whose name is new succeeds and stores the name;
    afterwards every listed member is a user of that team with the name and
    activity flag of its last entry in the list (an entry for an existing
    user overwrites that user); users that are not listed and all pull
    requests are as before. *)
Theorem CreateTeam_stores_members team db :
  Team.TeamName team ∉ teams db →
  ∃ db', CreateTeam team db = (Ok (), db')
    ∧ teams db' = {[Team.TeamName team]} ∪ teams db
    ∧ pull_requests db' = pull_requests db
    ∧ (∀ id, id ∉ TeamMember.UserID <$> Team.Members team →
             users db' !! id = users db !! id)
    ∧ (∀ l1 m l2, Team.Members team = l1 ++ m :: l2 →
         TeamMember.UserID m ∉ TeamMember.UserID <$> l2 →
         users db' !! TeamMember.UserID m
         = Some (mk_users_row (TeamMember.Username m) (Team.TeamName team)
                   (TeamMember.IsActive m))).
Proof.
  intros Hnew.
  destruct (CreateTeam_cases team db) as [[? _]|[_ ->]]; [done|].
  eexists. split; [done|]. simpl. split; [done|]. split; [done|]. split.
  - intros id Hid.
    by apply (upsert_users_lookup (Team.TeamName team) (Team.Members team)).
  - intros l1 m l2 -> Hlast. by apply upsert_users_last.
Qed.

Lemma CreateTeam_stores_members_witness :
  (Team.TeamName frontend ∉ teams demo_db)
  ∧ ∃ db', CreateTeam frontend demo_db = (Ok (), db')
    ∧ teams db' = {[Team.TeamName frontend]} ∪ teams demo_db
    ∧ pull_requests db' = pull_requests demo_db
    ∧ (∀ id, id ∉ TeamMember.UserID <$> Team.Members frontend →
             users db' !! id = users demo_db !! id)
    ∧ (∀ l1 m l2, Team.Members frontend = l1 ++ m :: l2 →
         TeamMember.UserID m ∉ TeamMember.UserID <$> l2 →
         users db' !! TeamMember.UserID m
         = Some (mk_users_row (TeamMember.Username m)
                   (Team.TeamName frontend) (TeamMember.IsActive m))).
Proof.
  assert (Team.TeamName frontend ∉ teams demo_db) as Hnew by by_compute.
  split; [exact Hnew|].
  exact (CreateTeam_stores_members frontend demo_db Hnew).
Defined.




(** ** The read operations *)

Lemma String_leb_trans (a b c : string) :
  String.leb a b = true → String.leb b c = true → String.leb a c = true.
Proof.
  unfold String.leb. revert b c.
  induction a as [|c1 a IH]; intros [|c2 b] [|c3 c]; simpl; try done.
  unfold Ascii.compare.
  destruct (N.compare_spec (Ascii.N_of_ascii c1) (Ascii.N_of_ascii c2)),
    (N.compare_spec (Ascii.N_of_ascii c2) (Ascii.N_of_ascii c3)),
    (N.compare_spec (Ascii.N_of_ascii c1) (Ascii.N_of_ascii c3));
    try done; try lia; apply IH.
Qed.

#[global] Instance bytewise_trans : Transitive bytewise.
Proof. intros a b c. apply String_leb_trans. Qed.

#[global] Instance bytewise_total : Total bytewise.
Proof. intros a b. apply String.leb_total. Qed.

#[global] Instance by_created_at_desc_trans : Transitive by_created_at_desc.
Proof. intros a b c. unfold by_created_at_desc. lia. Qed.

#[global] Instance by_created_at_desc_total : Total by_created_at_desc.
Proof. intros a b. unfold by_created_at_desc. lia. Qed.

Lemma StronglySorted_lookup {A} (R : relation A) (l : list A) i j a b :
  StronglySorted R l → i < j → l !! i = Some a → l !! j = Some b → R a b.
Proof.
  intros Hsorted. revert i j.
  induction Hsorted as [|x l _ IH Hall]; intros i j Hlt Hi Hj; [done|].
  destruct j as [|j]; [lia|]. destruct i as [|i]; simpl in *.
  - injection Hi as <-. rewrite Forall_forall in Hall.
    apply Hall. by eapply list_elem_of_lookup_2.
  - apply (IH i j); [lia|done..].
Qed.

Lemma selected_rows `{Countable K} {A} (P : K * A → Prop)
    `{!∀ x, Decision (P x)} (R : relation (K * A)) `{!RelDecision R}
    (m : gmap K A) :
  NoDup (merge_sort R (filter P (map_to_list m))).*1
  ∧ ∀ k a, (k, a) ∈ merge_sort R (filter P (map_to_list m))
           ↔ m !! k = Some a ∧ P (k, a).
Proof.
  split.
  - rewrite (merge_sort_Permutation R).
    eapply sublist_NoDup; [apply (NoDup_fst_map_to_list m)|].
    apply sublist_fmap_fst, sublist_filter.
  - intros k a. rewrite (merge_sort_Permutation R), list_elem_of_filter,
      elem_of_map_to_list. tauto.
Qed.

(** X9. [GetUserReviewPRs] never fails and writes nothing.  It lists, once
    each, exactly the pull requests that have the user among their assigned
    reviewers, open or merged, whether or not the user exists, and a pull
    request listed before another one was not created earlier than it. *)
Theorem GetUserReviewPRs_lists_assigned userID db :
  ∃ rows : list (string * pull_requests_row),
    GetUserReviewPRs userID db = (Ok (scan_short <$> rows), db)
    ∧ NoDup rows.*1
    ∧ (∀ prID r, (prID, r) ∈ rows
                 ↔ pull_requests db !! prID = Some r
                   ∧ userID ∈ assigned_reviewers r)
    ∧ (∀ i j a b, i < j → rows !! i = Some a → rows !! j = Some b →
                  (created_at b.2 ≤ created_at a.2)%Z).
Proof.
  eexists. split; [done|].
  destruct (selected_rows (λ kr, userID ∈ assigned_reviewers kr.2)
              by_created_at_desc (pull_requests db)) as [Hnd Hin].
  split; [done|]. split; [done|].
  intros i j a b Hlt Hi Hj.
  eapply (StronglySorted_lookup by_created_at_desc); [|done..].
  apply (StronglySorted_merge_sort _).
Qed.

Section team_reads.
Context (collate : relation string) `{!RelDecision collate}.

Lemma by_user_id_trans : Transitive collate → Transitive (by_user_id collate).
Proof. intros Htrans a b c. unfold by_user_id. apply Htrans. Qed.

Lemma by_user_id_total : Total collate → Total (by_user_id collate).
Proof. intros Htotal a b. unfold by_user_id. apply Htotal. Qed.

Lemma elem_of_team_members teamName db (m : TeamMember.t) :
  m ∈ scan_member <$>
        merge_sort (by_user_id collate)
          (filter (λ kr, team_name kr.2 = teamName) (map_to_list (users db)))
  ↔ ∃ row, users db !! TeamMember.UserID m = Some row
           ∧ team_name row = teamName
           ∧ TeamMember.Username m = username row
           ∧ TeamMember.IsActive m = is_active row.
Proof.
  destruct (selected_rows (λ kr, team_name kr.2 = teamName)
              (by_user_id collate) (users db)) as [_ Hin].
  rewrite list_elem_of_fmap. split.
  - intros ([k row] & -> & Hrow). apply Hin in Hrow as [Hrow Hteam].
    by exists row.
  - intros (row & Hrow & Hteam & Hname & Hact).
    exists (TeamMember.UserID m, row). split; [|by apply Hin].
    destruct m. unfold scan_member. simpl in *. by subst.
Qed.

Lemma team_members_NoDup teamName db :
  NoDup (TeamMember.UserID <$>
           (scan_member <$>
              merge_sort (by_user_id collate)
                (filter (λ kr, team_name kr.2 = teamName)
                        (map_to_list (users db))))).
Proof.
  destruct (selected_rows (λ kr, team_name kr.2 = teamName)
              (by_user_id collate) (users db)) as [Hnd _].
  by rewrite <- list_fmap_compose.
Qed.

(** X10. [GetTeam] of the service answers NotFound exactly for a name that
    is not in the [teams] table (a user row naming the team does not make
    it exist), and writes nothing.  For a team that exists it returns, once
    each, exactly the users whose team reference is this team, with their
    names and activity flags, in the order of their identifiers under the
    comparison of the database. *)
Theorem GetTeam_lists_members teamName db :
  (teamName ∉ teams db →
   service_GetTeam collate teamName db = (Err model_ErrNotFound, db))
  ∧ (teamName ∈ teams db →
     ∃ members,
       service_GetTeam collate teamName db
       = (Ok (Team.mk teamName members), db)
       ∧ NoDup (TeamMember.UserID <$> members)
       ∧ (∀ m, m ∈ members
               ↔ ∃ row, users db !! TeamMember.UserID m = Some row
                        ∧ team_name row = teamName
                        ∧ TeamMember.Username m = username row
                        ∧ TeamMember.IsActive m = is_active row)
       ∧ (Transitive collate → Total collate →
          ∀ i j a b, i < j → members !! i = Some a → members !! j = Some b →
                     collate (TeamMember.UserID a) (TeamMember.UserID b))).
Proof.
  destruct (service_GetTeam_cases collate teamName db)
    as [[Hnot ->]|[Hin ->]]; (split; [done|]); [done|].
  intros _. eexists. split; [done|].
  split; [apply team_members_NoDup|]. split; [apply elem_of_team_members|].
  intros Htrans Htotal i j a b Hlt Hi Hj.
  rewrite list_lookup_fmap in Hi, Hj.
  destruct (merge_sort _ _ !! i) as [a'|] eqn:Hi'; [|done].
  destruct (merge_sort _ _ !! j) as [b'|] eqn:Hj'; [|done].
  injection Hi as <-. injection Hj as <-. simpl.
  pose proof (by_user_id_trans Htrans). pose proof (by_user_id_total Htotal).
  eapply (StronglySorted_lookup (by_user_id collate)); [|done..].
  apply (StronglySorted_merge_sort _).
Qed.

(** X11. A team that was just created is read back as it was written: in a
    database built through the API, after [CreateTeam] of a team with a new
    name and pairwise distinct member identifiers, [GetTeam] returns that
    name with the given members, each once, in the order of their
    identifiers (so up to the order in which they were given). *)
Theorem CreateTeam_then_GetTeam calls team db :
  db = run calls empty_DB →
  Team.TeamName team ∉ teams db →
  NoDup (TeamMember.UserID <$> Team.Members team) →
  ∃ members,
    service_GetTeam collate (Team.TeamName team) (CreateTeam team db).2
    = (Ok (Team.mk (Team.TeamName team) members), (CreateTeam team db).2)
    ∧ members ≡ₚ Team.Members team.
Proof.
  intros -> Hnew Hnd.
  destruct (run_invariants calls empty_DB (conj empty_DB_ok empty_DB_refs_ok))
    as (_ & _ & Hfk).
  destruct (CreateTeam_cases team (run calls empty_DB))
    as [[? _]|[_ Hcall]]; [done|].
  rewrite Hcall. simpl.
  match goal with |- context [service_GetTeam _ _ ?d] => set (db' := d) end.
  destruct (service_GetTeam_cases collate (Team.TeamName team) db')
    as [[Hnot _]|[_ ->]]; [subst db'; simpl in Hnot; set_solver|].
  eexists. split; [done|].
  apply NoDup_Permutation.
  - eapply NoDup_fmap_1, team_members_NoDup.
  - by eapply NoDup_fmap_1.
  - intros m. rewrite elem_of_team_members. subst db'. simpl. split.
    + intros (row & Hrow & Hteam & Hname & Hact).
      destruct (decide (TeamMember.UserID m
                        ∈ TeamMember.UserID <$> Team.Members team))
        as [Hin|Hout].
      * apply list_elem_of_fmap in Hin as (m' & Hid & Hin).
        apply list_elem_of_split in Hin as (l1 & l2 & Hsplit).
        rewrite Hsplit, fmap_app, fmap_cons in Hnd.
        apply NoDup_app in Hnd as (_ & _ & Hnd).
        apply NoDup_cons in Hnd as [Hlast _].
        rewrite Hsplit, Hid, upsert_users_last in Hrow by done.
        injection Hrow as <-. simpl in *.
        assert (m = m') as ->
          by (destruct m, m'; simpl in *; by subst).
        rewrite Hsplit. apply elem_of_app. right. left.
      * destruct (upsert_users_lookup (Team.TeamName team)
                    (Team.Members team) (users (run calls empty_DB))
                    (TeamMember.UserID m)) as [_ Hother].
        rewrite Hother in Hrow by done.
        apply Hfk in Hrow. by rewrite Hteam in Hrow.
    + intros Hin. apply list_elem_of_split in Hin as (l1 & l2 & Hsplit).
      rewrite Hsplit, fmap_app, fmap_cons in Hnd.
      apply NoDup_app in Hnd as (_ & _ & Hnd).
      apply NoDup_cons in Hnd as [Hlast _].
      eexists. split; [rewrite Hsplit; by apply upsert_users_last|done].
Qed.
End team_reads.

(** ** Review lists and assignment *)

Lemma elem_of_review_ids userID db prID :
  prID ∈ review_ids userID db
  ↔ ∃ r, pull_requests db !! prID = Some r ∧ userID ∈ assigned_reviewers r.
Proof.
  unfold review_ids, GetUserReviewPRs, GetPRsByReviewer. simpl.
  destruct (selected_rows (λ kr, userID ∈ assigned_reviewers kr.2)
              by_created_at_desc (pull_requests db)) as [_ Hin].
  rewrite <- list_fmap_compose, list_elem_of_fmap. split.
  - intros ([k r] & -> & Hrow). apply Hin in Hrow. by exists r.
  - intros (r & Hrow). exists (prID, r). split; [done|]. by apply Hin.
Qed.

(** X12. A successful [ReassignReviewer] on a database built through the API
    moves the pull request from the review list of the old reviewer to that
    of the replacement, and changes nothing else in anybody's review
    list. *)
Theorem ReassignReviewer_moves_review calls rnd prID oldUserID db pr
    replacedBy db' :
  db = run calls empty_DB →
  ReassignReviewer rnd prID oldUserID db = (Ok (pr, replacedBy), db') →
  (prID ∈ review_ids oldUserID db) ∧ (prID ∉ review_ids oldUserID db')
  ∧ (prID ∉ review_ids replacedBy db) ∧ (prID ∈ review_ids replacedBy db')
  ∧ ∀ userID p, p ≠ prID ∨ (userID ≠ oldUserID ∧ userID ≠ replacedBy) →
      (p ∈ review_ids userID db' ↔ p ∈ review_ids userID db).
Proof.
  intros -> Hcall. pose proof (run_db_ok calls empty_DB empty_DB_ok) as Hok.
  set (db := run calls empty_DB) in *.
  destruct (ReassignReviewer_cases rnd prID oldUserID db)
    as [(e & He & _)|(r & u & x & rest & Hr & Hst & Hu & Hin & Hsel & Heq)];
    [congruence|].
  rewrite Heq in Hcall. injection Hcall as <- <- <-.
  destruct (Hok prID r Hr) as (Hnd & _ & _ & _).
  assert (x ∈ reassign_candidates db (team_name u) (author_id r) oldUserID
                (assigned_reviewers r)) as Hx
    by (eapply selectRandom_elem_of; rewrite Hsel; left).
  apply elem_of_reassign_candidates in Hx as (_ & _ & _ & _ & _ & Hnew);
    [|done].
  assert (x ≠ oldUserID) as Hne by (by intros ->).
  destruct (replace_first_insert oldUserID x (assigned_reviewers r) Hin)
    as (i & Hi & _ & Hrepl).
  assert (∀ y, y ∈ replace_reviewer oldUserID x (assigned_reviewers r)
               ↔ y = x ∨ (y ∈ assigned_reviewers r ∧ y ≠ oldUserID))
    as Hmem.
  { intros y. rewrite replace_reviewer_replace_first, Hrepl.
    by apply elem_of_insert_NoDup. }
  repeat split.
  - apply elem_of_review_ids. by exists r.
  - rewrite elem_of_review_ids. simpl. rewrite lookup_insert_eq.
    intros (r' & [= <-] & Hold). simpl in Hold.
    apply Hmem in Hold as [->|[_ ?]]; done.
  - rewrite elem_of_review_ids. intros (r' & Hr' & Hx).
    rewrite Hr in Hr'. by injection Hr' as <-.
  - apply elem_of_review_ids. simpl. rewrite lookup_insert_eq.
    eexists. split; [done|]. simpl. apply Hmem. by left.
  - rewrite !elem_of_review_ids. simpl.
    destruct (decide (p = prID)) as [->|Hp].
    + destruct H as [?|[Hu1 Hu2]]; [done|]. rewrite lookup_insert_eq.
      intros (r' & [= <-] & Hin'). simpl in Hin'.
      apply Hmem in Hin' as [->|[? _]]; [done|]. by exists r.
    + rewrite lookup_insert_ne by done. done.
  - rewrite !elem_of_review_ids. simpl.
    destruct (decide (p = prID)) as [->|Hp].
    + destruct H as [?|[Hu1 Hu2]]; [done|]. rewrite lookup_insert_eq.
      intros (r' & Hr' & Hin'). rewrite Hr in Hr'. injection Hr' as <-.
      eexists. split; [done|]. simpl. apply Hmem. by right.
    + rewrite lookup_insert_ne by done. done.
Qed.

(** X13. After a successful [CreatePullRequest] the new pull request is in
    the review list of exactly its assigned reviewers (so not in the
    author's), and every review list keeps the entries it had. *)
Theorem CreatePullRequest_shows_in_reviews rnd dbnow prID prName authorID db
    pr db' :
  CreatePullRequest rnd dbnow prID prName authorID db = (Ok pr, db') →
  (∀ userID, prID ∈ review_ids userID db'
             ↔ userID ∈ PullRequest.AssignedReviewers pr)
  ∧ (prID ∉ review_ids authorID db')
  ∧ (∀ userID p, p ≠ prID →
       (p ∈ review_ids userID db' ↔ p ∈ review_ids userID db))
  ∧ (∀ userID, prID ∉ review_ids userID db).
Proof.
  intros Hcall.
  destruct (CreatePullRequest_cases rnd dbnow prID prName authorID db)
    as [(e & He & _)|(a & Ha & Hfree & Heq)]; [congruence|].
  rewrite Heq in Hcall. injection Hcall as <- <-.
  assert (∀ userID,
            prID ∈ review_ids userID
                     (mk_DB (teams db) (users db)
                        (<[prID := mk_pr_row prName authorID PROpen
                             (create_reviewers rnd db (team_name a) authorID)
                             dbnow None]> (pull_requests db)))
            ↔ userID ∈ create_reviewers rnd db (team_name a) authorID)
    as Hlist.
  { intros userID. rewrite elem_of_review_ids. simpl.
    rewrite lookup_insert_eq. split.
    - by intros (r' & [= <-] & Hin).
    - intros Hin. by eexists. }
  split; [done|]. split; [|split].
  - rewrite Hlist.
    by destruct (create_reviewers_spec rnd db (team_name a) authorID)
      as (_ & _ & Hauthor & _).
  - intros userID p Hp. rewrite !elem_of_review_ids. simpl.
    by rewrite lookup_insert_ne.
  - intros userID. rewrite elem_of_review_ids. intros (r & Hr & _).
    congruence.
Qed.

Lemma exec_inactive db call userID row :
  users db !! userID = Some row → is_active row = false →
  ¬ activates userID call →
  (∃ row', users (exec db call) !! userID = Some row'
           ∧ is_active row' = false)
  ∧ ∀ p, p ∈ review_ids userID (exec db call) → p ∈ review_ids userID db.
Proof.
  intros Hrow Hinactive Hquiet.
  destruct call as [team|teamName|userID' isActive
                    |rnd dbnow prID prName authorID
                    |now prID|rnd prID oldUserID|userID']; simpl in *.
  - destruct (CreateTeam_cases team db) as [[_ ->]|[_ ->]]; simpl;
      [by eauto|]. split; [|done].
    destruct (upsert_users_lookup (Team.TeamName team) (Team.Members team)
                (users db) userID) as [_ Hother].
    rewrite Hother by done. by eauto.
  - by eauto.
  - destruct (SetUserActiveStatus_cases userID' isActive db)
      as [[_ ->]|(row' & Hrow' & ->)]; simpl; [by eauto|]. split; [|done].
    destruct (decide (userID' = userID)) as [->|Hne].
    + rewrite lookup_insert_eq. eexists. split; [done|]. simpl.
      destruct isActive; [|done]. by destruct Hquiet.
    + rewrite lookup_insert_ne by done. by eauto.
  - destruct (CreatePullRequest_cases rnd dbnow prID prName authorID db)
      as [(e' & -> & _)|(a & Ha & Hfree & ->)]; simpl; [by eauto|].
    split; [by eauto|]. intros p. rewrite !elem_of_review_ids. simpl.
    destruct (decide (p = prID)) as [->|Hp].
    + rewrite lookup_insert_eq. intros (r' & [= <-] & Hin). simpl in Hin.
      apply selectRandom_elem_of, elem_of_candidates in Hin
        as (r & Hr & _ & Hact & _).
      congruence.
    + by rewrite lookup_insert_ne.
  - destruct (MergePullRequest_cases now prID db)
      as [[_ ->]|[(r & _ & _ & ->)|(r & Hr & _ & ->)]]; simpl; [by eauto..|].
    split; [by eauto|]. intros p. rewrite !elem_of_review_ids. simpl.
    destruct (decide (p = prID)) as [->|Hp].
    + rewrite lookup_insert_eq. intros (r' & [= <-] & Hin). by exists r.
    + by rewrite lookup_insert_ne.
  - destruct (ReassignReviewer_cases rnd prID oldUserID db)
      as [(e' & -> & _)
         |(r & u & x & rest & Hr & _ & _ & Hin & Hsel & ->)];
      simpl; [by eauto|].
    split; [by eauto|]. intros p. rewrite !elem_of_review_ids. simpl.
    destruct (decide (p = prID)) as [->|Hp].
    + rewrite lookup_insert_eq. intros (r' & [= <-] & Hin'). simpl in Hin'.
      exists r. split; [done|].
      rewrite replace_reviewer_replace_first in Hin'.
      destruct (replace_first_insert oldUserID x (assigned_reviewers r) Hin)
        as (i & Hi & _ & Hrepl).
      rewrite Hrepl in Hin'. apply list_elem_of_lookup in Hin' as [j Hj].
      destruct (decide (j = i)) as [->|Hne].
      * rewrite list_lookup_insert_eq in Hj by (by eapply lookup_lt_Some).
        injection Hj as <-.
        assert (x ∈ reassign_candidates db (team_name u) (author_id r)
                      oldUserID (assigned_reviewers r)) as Hx
          by (eapply selectRandom_elem_of; rewrite Hsel; left).
        apply elem_of_reassign_candidates in Hx
          as (row' & Hrow' & _ & Hact & _); [|done].
        congruence.
      * rewrite list_lookup_insert_ne in Hj by done.
        by eapply list_elem_of_lookup_2.
    + by rewrite lookup_insert_ne.
  - by eauto.
Qed.

(** X14. A deactivated user gets no new reviews: from a database in which
    the user is inactive, through any sequence of calls none of which sets
    the user active or creates a team listing the user, the user stays
    inactive and every pull request in the user's review list afterwards
    was in it before. *)
Theorem inactive_user_gets_no_new_reviews calls db userID row :
  users db !! userID = Some row → is_active row = false →
  Forall (λ call, ¬ activates userID call) calls →
  (∃ row', users (run calls db) !! userID = Some row'
           ∧ is_active row' = false)
  ∧ ∀ p, p ∈ review_ids userID (run calls db) → p ∈ review_ids userID db.
Proof.
  revert db row. induction calls as [|call calls IH];
    intros db row Hrow Hinactive Hquiet.
  - by eauto.
  - apply Forall_cons in Hquiet as [Hcall Hquiet]. rewrite run_cons.
    destruct (exec_inactive db call userID row Hrow Hinactive Hcall)
      as [(row' & Hrow' & Hinactive') Hsub].
    destruct (IH (exec db call) row' Hrow' Hinactive' Hquiet) as [? Hsub'].
    split; [done|]. intros p Hp. by apply Hsub, Hsub'.
Qed.

(** ** The handlers *)

Section handlers.
Context (TrimSpace : string → string).
Context (collate : relation string) `{!RelDecision collate}.

Lemma validate_members_cases ms seen acc :
  match validate_members TrimSpace ms seen acc with
  | Ok members =>
      ∃ new, members = acc ++ new ∧ ms = request_member <$> new
             ∧ members_valid TrimSpace new
             ∧ ∀ m, m ∈ new → TeamMember.UserID m ∉ seen
  | Err e =>
      e = model_ErrBadRequest
      ∧ ¬ ∃ new, ms = request_member <$> new
                 ∧ members_valid TrimSpace new
                 ∧ ∀ m, m ∈ new → TeamMember.UserID m ∉ seen
  end.
Proof.
  revert seen acc. induction ms as [|m ms IH]; intros seen acc; simpl.
  - exists []. rewrite app_nil_r. split; [done|]. split; [done|].
    split; [split|].
    + by intros ? ?%elem_of_nil.
    + constructor.
    + by intros ? ?%elem_of_nil.
  - destruct m as [id name [isActive|]]; simpl.
    2: { split; [done|]. by intros ([|n new] & [= ] & _). }
    case_decide as Hblank.
    { split; [done|]. intros ([|n new] & Hms & [Hvalid _] & _); [done|].
      injection Hms as -> -> _ _.
      destruct (Hvalid n) as [? ?]; [left|]. by destruct Hblank. }
    case_decide as Hseen.
    { split; [done|]. intros ([|n new] & Hms & _ & Hfresh); [done|].
      injection Hms as -> _ _ _. apply (Hfresh n); [left|done]. }
    specialize (IH ({[id]} ∪ seen) (acc ++ [TeamMember.mk id name isActive])).
    destruct (validate_members _ _ _ _) as [members|e].
    + destruct IH as (new & -> & -> & [Hvalid Hnd] & Hfresh).
      exists (TeamMember.mk id name isActive :: new).
      rewrite <- app_assoc. split; [done|]. split; [done|].
      split; [split|].
      * intros m [->|Hm]%elem_of_cons; [|by apply Hvalid]. simpl.
        split; intros ?; apply Hblank; [by left|by right].
      * simpl. apply NoDup_cons. split; [|done].
        intros (m & Hid & Hm)%list_elem_of_fmap.
        apply (Hfresh m Hm). rewrite <- Hid. set_solver.
      * intros m [->|Hm]%elem_of_cons; [done|].
        specialize (Hfresh m Hm). set_solver.
    + destruct IH as [-> Hnone]. split; [done|].
      intros ([|n new] & Hms & [Hvalid Hnd] & Hfresh); [done|].
      injection Hms as -> -> Hact ->. apply Hnone. exists new.
      simpl in Hnd. apply NoDup_cons in Hnd as [Hn Hnd].
      split; [done|]. split; [split; [|done]|].
      * intros m Hm. apply Hvalid. by right.
      * intros m Hm. apply not_elem_of_union. split.
        -- intros Heq%elem_of_singleton. apply Hn. simpl. rewrite <- Heq.
           by apply list_elem_of_fmap_2.
        -- apply Hfresh. by right.
Qed.

(** X15. [POST /team/add] answers 201 with the team it was sent exactly for
    a body that decodes, whose team name is not blank, whose members all
    carry an identifier and a name that are not blank and an activity flag,
    with no identifier twice, and whose team name is new; the team is then
    stored by [CreateTeam].  Such a body with a name already taken gets 409
    TEAM_EXISTS, every other body 400 BAD_REQUEST, and neither changes the
    database. *)
Theorem handler_CreateTeam_validates body db :
  (∀ teamName members,
     body = Some (CreateTeamRequest.mk teamName (request_member <$> members))
     → TrimSpace teamName ≠ "" → members_valid TrimSpace members →
     handler.CreateTeam TrimSpace body db =
     if decide (teamName ∈ teams db) then
       (Response.mk StatusConflict
          (APIErrorResponse "TEAM_EXISTS" "team_name already exists"), db)
     else
       (Response.mk StatusCreated
          (TeamCreatedBody (Team.mk teamName members)),
        exec db (CallCreateTeam (Team.mk teamName members))))
  ∧ ((¬ ∃ teamName members,
        body = Some (CreateTeamRequest.mk teamName
                       (request_member <$> members))
        ∧ TrimSpace teamName ≠ "" ∧ members_valid TrimSpace members) →
     handler.CreateTeam TrimSpace body db =
     (Response.mk StatusBadRequest
        (APIErrorResponse "BAD_REQUEST"
           "invalid request payload or parameters"), db)).
Proof.
  split.
  - intros teamName members -> Hname Hvalid. unfold handler.CreateTeam.
    simpl. rewrite decide_False by done.
    pose proof (validate_members_cases (request_member <$> members) ∅ [])
      as Hcases.
    destruct (validate_members _ _ _ _) as [members'|e].
    + destruct Hcases as (new & -> & Heq & _). simpl.
      assert (new = members) as ->.
      { clear -Heq. revert new Heq.
        induction members as [|m members IH]; intros [|n new] Heq;
          try done.
        injection Heq as Hid Hname Hact Heq.
        rewrite (IH new) by done. destruct m, n. simpl in *. by subst. }
      destruct (CreateTeam_cases (Team.mk teamName members) db)
        as [[Hin Hcall]|[Hnot Hcall]]; simpl in *; rewrite Hcall.
      * by rewrite decide_True.
      * by rewrite decide_False.
    + destruct Hcases as [_ Hnone]. destruct Hnone. exists members.
      split; [done|]. split; [done|]. by intros ? _ ?%elem_of_empty.
  - intros Hnone. unfold handler.CreateTeam.
    destruct body as [[teamName ms]|]; simpl; [|done].
    case_decide as Hname; [done|].
    pose proof (validate_members_cases ms ∅ []) as Hcases.
    destruct (validate_members _ _ _ _) as [members'|e].
    + destruct Hcases as (new & -> & -> & Hvalid & _).
      destruct Hnone. by exists teamName, new.
    + by destruct Hcases as [-> _].
Qed.

Lemma respondError_domain e :
  e ∈ model_ErrBadRequest :: domain_errors →
  Response.Status (respondError e)
  ∈ [StatusBadRequest; StatusNotFound; StatusConflict]
  ∧ is_error_body (Response.Body (respondError e)) = true.
Proof.
  unfold domain_errors. rewrite !elem_of_cons, elem_of_nil.
  intros [->|[->|[->|[->|[->|[->|[->|[]]]]]]]]; vm_compute;
    (split; [|done]); set_solver.
Qed.

(** What serving a request comes to: an error of the service's vocabulary
    and no write, or a success answer and the effect of one call of the
    public API. *)
Lemma SetupRouter_cases req db :
  (∃ e, e ∈ model_ErrBadRequest :: domain_errors
        ∧ SetupRouter TrimSpace collate req db = (respondError e, db))
  ∨ (∃ status body,
       SetupRouter TrimSpace collate req db = (Response.mk status body, db)
       ∧ status = StatusOK ∧ is_error_body body = false)
  ∨ (∃ call status body,
       SetupRouter TrimSpace collate req db
       = (Response.mk status body, exec db call)
       ∧ status ∈ [StatusOK; StatusCreated]
       ∧ is_error_body body = false
       ∧ exec_error collate db call = None
       ∧ match call with
         | CallCreateTeam team =>
             TrimSpace (Team.TeamName team) ≠ ""
             ∧ members_valid TrimSpace (Team.Members team)
         | CallCreatePullRequest _ _ prID prName authorID =>
             TrimSpace prID ≠ "" ∧ TrimSpace prName ≠ ""
         | _ => True
         end).
Proof.
  assert (∀ e, e ∈ domain_errors → e ∈ model_ErrBadRequest :: domain_errors)
    as Hdom by (intros e ?; by right).
  assert (model_ErrBadRequest ∈ model_ErrBadRequest :: domain_errors)
    as Hbad by left.
  destruct req as [|body|teamName|body|userID|rnd dbnow body|now body
                   |rnd body]; simpl.
  - right. left. by exists StatusOK, HealthBody.
  - unfold handler.CreateTeam.
    destruct body as [[teamName ms]|]; simpl; [|by eauto].
    case_decide as Hname; [by eauto|].
    pose proof (validate_members_cases ms ∅ []) as Hcases.
    destruct (validate_members _ _ _ _) as [members|e].
    + destruct Hcases as (new & -> & -> & Hvalid & _). simpl.
      pose proof (exec_error_unchanged collate db
                    (CallCreateTeam (Team.mk teamName new))) as Herr.
      simpl in Herr.
      destruct (CreateTeam (Team.mk teamName new) db) as [[[]|e] db'] eqn:Hc.
      * right. right.
        exists (CallCreateTeam (Team.mk teamName new)), StatusCreated,
          (TeamCreatedBody (Team.mk teamName new)).
        simpl. rewrite Hc. simpl. split; [done|]. split; [set_solver|].
        by destruct Hvalid.
      * destruct (Herr e eq_refl) as [He Hdb]. simpl in Hdb. subst db'.
        left. by eauto.
    + destruct Hcases as [-> _]. by eauto.
  - unfold handler.GetTeam. case_decide; [by eauto|].
    pose proof (exec_error_unchanged collate db (CallGetTeam teamName))
      as Herr. simpl in Herr.
    destruct (service_GetTeam_cases collate teamName db)
      as [[_ Hc]|[_ Hc]]; rewrite Hc in *; simpl in *.
    + left. destruct (Herr _ eq_refl). by eauto.
    + right. left. by eauto.
  - unfold handler.SetUserActivity.
    destruct body as [[userID [isActive|]]|]; simpl; [|by eauto..].
    case_decide; [by eauto|].
    pose proof (exec_error_unchanged collate db
                  (CallSetUserActiveStatus userID isActive)) as Herr.
    simpl in Herr.
    destruct (service_SetUserActiveStatus userID isActive db)
      as [[user|e] db'] eqn:Hc; simpl in *.
    + right. right.
      exists (CallSetUserActiveStatus userID isActive), StatusOK,
        (UserBody user).
      simpl. rewrite Hc. simpl. split; [done|]. split; [set_solver|]. done.
    + destruct (Herr e eq_refl) as [He Hdb]. subst db'. left. by eauto.
  - unfold handler.GetUserReviews. case_decide; [by eauto|].
    right. left. by eauto.
  - unfold handler.CreatePR.
    destruct body as [[prID prName authorID]|]; simpl; [|by eauto].
    case_decide as Hblank; [by eauto|].
    pose proof (exec_error_unchanged collate db
                  (CallCreatePullRequest rnd dbnow prID prName authorID))
      as Herr. simpl in Herr.
    destruct (CreatePullRequest rnd dbnow prID prName authorID db)
      as [[pr|e] db'] eqn:Hc; simpl in *.
    + right. right.
      exists (CallCreatePullRequest rnd dbnow prID prName authorID),
        StatusCreated, (PRBody pr).
      simpl. rewrite Hc. simpl. split; [done|]. split; [set_solver|].
      split; [done|]. split; [done|]. split; intros ?; apply Hblank; tauto.
    + destruct (Herr e eq_refl) as [He Hdb]. subst db'. left. by eauto.
  - unfold handler.MergePR.
    destruct body as [[prID]|]; simpl; [|by eauto].
    case_decide; [by eauto|].
    pose proof (exec_error_unchanged collate db
                  (CallMergePullRequest now prID)) as Herr. simpl in Herr.
    destruct (MergePullRequest now prID db) as [[pr|e] db'] eqn:Hc;
      simpl in *.
    + right. right.
      exists (CallMergePullRequest now prID), StatusOK, (PRBody pr).
      simpl. rewrite Hc. simpl. split; [done|]. split; [set_solver|]. done.
    + destruct (Herr e eq_refl) as [He Hdb]. subst db'. left. by eauto.
  - unfold handler.ReassignReviewer.
    destruct body as [[prID oldUserID legacyOld]|]; simpl; [|by eauto].
    case_decide; [by eauto|].
    match goal with
    | |- context [ReassignReviewer rnd prID ?old db] => set (old' := old)
    end.
    pose proof (exec_error_unchanged collate db
                  (CallReassignReviewer rnd prID old')) as Herr.
    simpl in Herr.
    destruct (ReassignReviewer rnd prID old' db)
      as [[[pr replacedBy]|e] db'] eqn:Hc; simpl in *.
    + right. right.
      exists (CallReassignReviewer rnd prID old'), StatusOK,
        (ReassignedBody pr replacedBy).
      simpl. rewrite Hc. simpl. split; [done|]. split; [set_solver|]. done.
    + destruct (Herr e eq_refl) as [He Hdb]. subst db'. left. by eauto.
Qed.
End handlers.

(** ** The HTTP interface as a whole *)

Section http.
Context (TrimSpace : string → string).
Context (collate : relation string) `{!RelDecision collate}.

Lemma serve_all_cons req reqs db :
  serve_all TrimSpace collate (req :: reqs) db
  = serve_all TrimSpace collate reqs (SetupRouter TrimSpace collate req db).2.
Proof. done. Qed.

Lemma CreateTeam_no_blank team db :
  no_blank TrimSpace db →
  TrimSpace (Team.TeamName team) ≠ "" →
  members_valid TrimSpace (Team.Members team) →
  no_blank TrimSpace (exec db (CallCreateTeam team)).
Proof.
  intros (Hteams & Husers & Hprs) Hname [Hvalid Hnd]. simpl.
  destruct (CreateTeam_cases team db) as [[_ ->]|[_ ->]]; simpl; [done|].
  split; [|split]; simpl; [| |done].
  - intros teamName [->%elem_of_singleton|Hin]%elem_of_union; [done|].
    by apply Hteams.
  - intros userID row Hrow.
    destruct (decide (userID ∈ TeamMember.UserID <$> Team.Members team))
      as [Hin|Hout].
    + apply list_elem_of_fmap in Hin as (m & -> & Hin).
      destruct (Hvalid m Hin) as [Hid Huser].
      apply list_elem_of_split in Hin as (l1 & l2 & Hsplit).
      rewrite Hsplit, fmap_app, fmap_cons in Hnd.
      apply NoDup_app in Hnd as (_ & _ & Hnd).
      apply NoDup_cons in Hnd as [Hlast _].
      rewrite Hsplit, upsert_users_last in Hrow by done.
      by injection Hrow as <-.
    + destruct (upsert_users_lookup (Team.TeamName team) (Team.Members team)
                  (users db) userID) as [_ Hother].
      rewrite Hother in Hrow by done. by eapply Husers.
Qed.

Lemma exec_no_blank db call :
  no_blank TrimSpace db →
  match call with
  | CallCreateTeam team =>
      TrimSpace (Team.TeamName team) ≠ ""
      ∧ members_valid TrimSpace (Team.Members team)
  | CallCreatePullRequest _ _ prID prName authorID =>
      TrimSpace prID ≠ "" ∧ TrimSpace prName ≠ ""
  | _ => True
  end →
  no_blank TrimSpace (exec db call).
Proof.
  intros Hdb Hcall. pose proof Hdb as (Hteams & Husers & Hprs).
  destruct call as [team|teamName|userID isActive
                    |rnd dbnow prID prName authorID
                    |now prID|rnd prID oldUserID|userID].
  - destruct Hcall. by apply CreateTeam_no_blank.
  - done.
  - simpl. destruct (SetUserActiveStatus_cases userID isActive db)
      as [[_ ->]|(row & Hrow & ->)]; simpl; [done|].
    split; [done|]. split; [|done]. simpl. intros userID' row'.
    destruct (decide (userID' = userID)) as [->|Hne].
    + rewrite lookup_insert_eq. intros [= <-]. simpl. by eapply Husers.
    + rewrite lookup_insert_ne by done. apply Husers.
  - simpl. destruct (CreatePullRequest_cases rnd dbnow prID prName authorID db)
      as [(e' & -> & _)|(a & _ & _ & ->)]; simpl; [done|].
    split; [done|]. split; [done|]. simpl. intros prID' r'.
    destruct (decide (prID' = prID)) as [->|Hne].
    + rewrite lookup_insert_eq. by intros [= <-].
    + rewrite lookup_insert_ne by done. apply Hprs.
  - simpl. destruct (MergePullRequest_cases now prID db)
      as [[_ ->]|[(r & _ & _ & ->)|(r & Hr & _ & ->)]]; simpl; [done..|].
    split; [done|]. split; [done|]. simpl. intros prID' r'.
    destruct (decide (prID' = prID)) as [->|Hne].
    + rewrite lookup_insert_eq. intros [= <-]. simpl. by eapply Hprs.
    + rewrite lookup_insert_ne by done. apply Hprs.
  - simpl. destruct (ReassignReviewer_cases rnd prID oldUserID db)
      as [(e' & -> & _)|(r & u & x & rest & Hr & _ & _ & _ & _ & ->)];
      simpl; [done|].
    split; [done|]. split; [done|]. simpl. intros prID' r'.
    destruct (decide (prID' = prID)) as [->|Hne].
    + rewrite lookup_insert_eq. intros [= <-]. simpl. by eapply Hprs.
    + rewrite lookup_insert_ne by done. apply Hprs.
  - done.
Qed.

Lemma SetupRouter_no_blank req db :
  no_blank TrimSpace db →
  no_blank TrimSpace (SetupRouter TrimSpace collate req db).2.
Proof.
  intros Hdb.
  destruct (SetupRouter_cases TrimSpace collate req db)
    as [(e & _ & ->)|[(status & body & -> & _)
                     |(call & status & body & -> & _ & _ & _ & Hcall)]];
    [done..|].
  by apply exec_no_blank.
Qed.

(** X16. With a database whose statements fail only for a missing row or a
    key that is taken, every answer of a handler behind the router has
    status 200, 201, 400, 404 or 409, never 500; the body is an error object
    exactly when the status is 400 or above, and a request answered with an
    error has written nothing. *)
Theorem SetupRouter_status req db :
  Response.Status (SetupRouter TrimSpace collate req db).1
  ∈ [StatusOK; StatusCreated; StatusBadRequest; StatusNotFound;
     StatusConflict]
  ∧ (is_error_body (Response.Body (SetupRouter TrimSpace collate req db).1) = true
     ↔ 400 ≤ Response.Status (SetupRouter TrimSpace collate req db).1)
  ∧ (400 ≤ Response.Status (SetupRouter TrimSpace collate req db).1 →
     (SetupRouter TrimSpace collate req db).2 = db).
Proof.
  destruct (SetupRouter_cases TrimSpace collate req db)
    as [(e & He & ->)|[(status & body & -> & -> & Hbody)
                      |(call & status & body & -> & Hst & Hbody & _)]];
    simpl.
  - destruct (respondError_domain e He) as [Hst ->].
    unfold StatusBadRequest, StatusNotFound, StatusConflict in Hst.
    split; [set_solver|]. split; [|done]. split; [|done]. intros _.
    rewrite !elem_of_cons, elem_of_nil in Hst.
    destruct Hst as [->|[->|[->|[]]]]; lia.
  - rewrite Hbody. unfold StatusOK. split; [set_solver|].
    split; [|lia]. split; [done|lia].
  - rewrite Hbody. unfold StatusOK, StatusCreated in *.
    split; [set_solver|].
    rewrite !elem_of_cons, elem_of_nil in Hst.
    split; [|destruct Hst as [->|[->|[]]]; lia].
    split; [done|destruct Hst as [->|[->|[]]]; lia].
Qed.

(** X17. The HTTP interface reaches no database that the public API of the
    service does not reach: serving any requests has the effect of a
    sequence of API calls, at most one per request. *)
Theorem serve_all_is_run reqs db :
  ∃ calls, serve_all TrimSpace collate reqs db = run calls db
           ∧ length calls ≤ length reqs.
Proof.
  revert db. induction reqs as [|req reqs IH]; intros db.
  - by exists [].
  - rewrite serve_all_cons.
    destruct (SetupRouter_cases TrimSpace collate req db)
      as [(e & _ & ->)|[(status & body & -> & _)
                       |(call & status & body & -> & _)]]; simpl.
    + destruct (IH db) as (calls & -> & Hlen). exists calls. split; [done|].
      lia.
    + destruct (IH db) as (calls & -> & Hlen). exists calls. split; [done|].
      lia.
    + destruct (IH (exec db call)) as (calls & -> & Hlen).
      exists (call :: calls). split; [by rewrite run_cons|]. simpl. lia.
Qed.

(** X18. Whatever requests are served, starting from the empty database, no
    team name, user identifier, user name, pull request identifier or pull
    request name that is stored is blank, that is, trimmed to the empty
    string by [strings.TrimSpace]. *)
Theorem serve_all_no_blank reqs :
  no_blank TrimSpace (serve_all TrimSpace collate reqs empty_DB).
Proof.
  assert (∀ db, no_blank TrimSpace db →
                no_blank TrimSpace (serve_all TrimSpace collate reqs db))
    as Hall.
  { induction reqs as [|req reqs IH]; intros db Hdb; [done|].
    rewrite serve_all_cons. by apply IH, SetupRouter_no_blank. }
  apply Hall. split; [|split]; simpl.
  - by intros teamName ?%elem_of_empty.
  - intros userID row. by rewrite lookup_empty.
  - intros prID r. by rewrite lookup_empty.
Qed.

(** X19. [POST /pullRequest/reassign] reads the reviewer to replace from
    [old_user_id] and, only when that field is empty or missing, from
    [old_reviewer_id]: a body that gives the reviewer in the second field
    alone is served as the body that gives it in the first, and the second
    field is ignored when the first is not empty. *)
Theorem handler_ReassignReviewer_legacy_field rnd prID oldUserID legacyOld
    db :
  handler.ReassignReviewer TrimSpace rnd
    (Some (ReassignRequest.mk prID "" legacyOld)) db
  = handler.ReassignReviewer TrimSpace rnd
      (Some (ReassignRequest.mk prID legacyOld "")) db
  ∧ (oldUserID ≠ "" →
     handler.ReassignReviewer TrimSpace rnd
       (Some (ReassignRequest.mk prID oldUserID legacyOld)) db
     = handler.ReassignReviewer TrimSpace rnd
         (Some (ReassignRequest.mk prID oldUserID "")) db).
Proof.
  unfold handler.ReassignReviewer, decode.
  cbn [ReassignRequest.OldUserID ReassignRequest.LegacyOld
       ReassignRequest.PRID].
  split.
  - rewrite (decide_True (P := "" = "")) by done.
    by destruct (decide (legacyOld = "")) as [->|Hne].
  - intros Hne. by rewrite !(decide_False (P := oldUserID = "")).
Qed.
End http.

(** ** Reading and writing a pull request row *)

Lemma pull_requests_row_eta r :
  mk_pr_row (pull_request_name r) (author_id r) (status r)
    (assigned_reviewers r) (created_at r) (merged_at r) = r.
Proof. by destruct r. Qed.

(** X20. [UpdatePR] and [GetPRByID] agree.  Writing back the pull request
    that was read changes nothing and returns it; after any successful
    [UpdatePR] a read returns what the update returned, which carries the
    status and the reviewers that were given, the merge time that was given
    cut to whole microseconds, and the name, author and creation time of the
    stored row whatever the argument says.  Updating an identifier that is
    not stored is a NotFound error of the repository and writes nothing. *)
Theorem UpdatePR_round_trip db :
  (∀ prID pr, GetPRByID prID db = (Ok pr, db) →
     UpdatePR pr db = (Ok pr, db))
  ∧ (∀ pr r, pull_requests db !! PullRequest.ID pr = Some r →
       ∃ pr' db',
         UpdatePR pr db = (Ok pr', db')
         ∧ GetPRByID (PullRequest.ID pr) db' = (Ok pr', db')
         ∧ PullRequest.Status pr' = PullRequest.Status pr
         ∧ PullRequest.AssignedReviewers pr'
           = PullRequest.AssignedReviewers pr
         ∧ PullRequest.MergedAt pr'
           = (λ t, t / 1000 * 1000)%Z <$> PullRequest.MergedAt pr
         ∧ PullRequest.Name pr' = pull_request_name r
         ∧ PullRequest.AuthorID pr' = author_id r
         ∧ PullRequest.CreatedAt pr'
           = Some (decode_timestamptz (created_at r)))
  ∧ (∀ pr, pull_requests db !! PullRequest.ID pr = None →
       UpdatePR pr db = (Err repo_ErrNotFound, db)).
Proof.
  split; [|split].
  - intros prID pr. unfold GetPRByID, fetchPR, UpdatePR.
    destruct (pull_requests db !! prID) as [r|] eqn:Hr; [|done].
    intros [= <-]. simpl. rewrite Hr. simpl.
    rewrite encode_decode_timestamptz_fmap, pull_requests_row_eta.
    rewrite insert_id by done. by destruct db.
  - intros pr r Hr. unfold GetPRByID, fetchPR, UpdatePR. rewrite Hr.
    eexists _, _. split; [done|]. simpl. rewrite lookup_insert_eq.
    split; [done|]. repeat split.
    by destruct (PullRequest.MergedAt pr).
  - intros pr Hr. unfold UpdatePR. by rewrite Hr.
Qed.


(** ** The candidates' slice after [selectRandom] *)

Section argument.
Implicit Types (m : Memory) (s ids : slice).

Lemma append_to_nil_lookup xs m base :
  base ∈ dom m → (append_to_nil xs m).2 !! base = m !! base.
Proof.
  intros Hbase. destruct xs as [|x xs]; [done|]. simpl.
  rewrite lookup_insert_ne; [done|]. intros <-. by apply is_fresh in Hbase.
Qed.

Lemma append_to_nil_elems_old xs m s :
  slice_ok m s → elems (append_to_nil xs m).2 s = elems m s.
Proof.
  destruct s as [|base off len]; [done|]. intros (arr & Harr & _). simpl.
  rewrite append_to_nil_lookup; [done|]. by eapply elem_of_dom_2.
Qed.

Lemma swap_mem_lookup m base off len i j base' :
  base' ≠ base →
  swap_mem (mk_slice base off len) i j m !! base' = m !! base'.
Proof.
  intros Hne. simpl. destruct (m !! base) as [arr|]; [|done].
  case_decide; [|done].
  destruct (arr !! (off + i)) as [a|]; [|done].
  destruct (arr !! (off + j)) as [b|]; [|done].
  by rewrite lookup_insert_ne.
Qed.

Lemma Shuffle_loop_mem_lookup rnd n m base off len base' :
  base' ≠ base →
  Shuffle_loop_mem rnd n (mk_slice base off len) m !! base' = m !! base'.
Proof.
  intros Hne. revert m.
  induction n as [|n IH]; intros m; cbn [Shuffle_loop_mem]; [done|].
  by rewrite IH, swap_mem_lookup.
Qed.

Lemma Shuffle_loop_mem_ok rnd n ids m s :
  slice_ok m s → slice_ok (Shuffle_loop_mem rnd n ids m) s.
Proof.
  revert m. induction n as [|n IH]; intros m Hok; simpl; [done|].
  by apply IH, swap_mem_ok.
Qed.

(** X22. [selectRandom] works on the caller's slice.  With at most [limit]
    candidates the slice is left as it was; with more, it is shuffled in
    place, so that afterwards it holds the same candidates in the order of
    the shuffle and the candidates returned are its first [limit] entries.
    Arrays other than the one behind the slice are never written. *)
Theorem selectRandom_mem_argument rnd ids limit m :
  slice_ok m ids →
  (slice_len ids ≤ limit →
   elems (selectRandom_mem rnd ids limit m).2 ids = elems m ids)
  ∧ (limit < slice_len ids →
     elems (selectRandom_mem rnd ids limit m).2 ids
     = Shuffle rnd (elems m ids)
     ∧ elems (selectRandom_mem rnd ids limit m).2
             (selectRandom_mem rnd ids limit m).1
       = take limit (elems (selectRandom_mem rnd ids limit m).2 ids))
  ∧ elems (selectRandom_mem rnd ids limit m).2 ids ≡ₚ elems m ids
  ∧ (∀ base arr, m !! base = Some arr →
       (∀ off len, ids ≠ mk_slice base off len) →
       (selectRandom_mem rnd ids limit m).2 !! base = Some arr).
Proof.
  intros Hok.
  assert (slice_len ids ≤ limit →
          elems (selectRandom_mem rnd ids limit m).2 ids = elems m ids)
    as Hsmall.
  { intros Hle. unfold selectRandom_mem. rewrite decide_True by done.
    by apply append_to_nil_elems_old. }
  assert (limit < slice_len ids →
          elems (selectRandom_mem rnd ids limit m).2 ids
          = Shuffle rnd (elems m ids)) as Hlarge.
  { intros Hlt. unfold selectRandom_mem. rewrite decide_False by lia.
    rewrite append_to_nil_elems_old by (by apply Shuffle_loop_mem_ok).
    unfold Shuffle. rewrite Shuffle_loop_mem_elems by done.
    by rewrite (elems_length m ids). }
  split; [done|]. split; [|split].
  - intros Hlt. split; [by apply Hlarge|].
    rewrite selectRandom_mem_elems, Hlarge by done.
    unfold selectRandom. rewrite decide_False; [done|].
    rewrite (elems_length m ids) by done. lia.
  - destruct (decide (slice_len ids ≤ limit)) as [Hle|Hgt].
    + by rewrite Hsmall.
    + rewrite Hlarge by lia. apply Shuffle_Permutation.
  - intros base arr Harr Hother. unfold selectRandom_mem.
    case_decide.
    + rewrite append_to_nil_lookup; [done|]. by eapply elem_of_dom_2.
    + rewrite append_to_nil_lookup.
      * destruct ids as [|base' off len]; [done|].
        rewrite Shuffle_loop_mem_lookup; [done|].
        intros ->. by apply (Hother off len).
      * rewrite Shuffle_loop_mem_dom. by eapply elem_of_dom_2.
Qed.
End argument.

(** ** The error answers *)

(** X23. [respondError] answers 500 exactly for an error that is neither
    BadRequest nor one of the six domain errors, and then with the code
    INTERNAL_ERROR and a fixed message instead of the text of the error.
    For the seven other errors the message is the text of the error, the
    status is 404 for NotFound alone and 400 for BadRequest alone, and the
    answers differ from one error to the next. *)
Theorem respondError_answers err :
  (Response.Status (respondError err) = StatusInternalServerError
   ↔ err ∉ model_ErrBadRequest :: domain_errors)
  ∧ (err ∉ model_ErrBadRequest :: domain_errors →
     Response.Body (respondError err)
     = APIErrorResponse "INTERNAL_ERROR" "An unexpected error occurred")
  ∧ (err ∈ model_ErrBadRequest :: domain_errors →
     (∃ code, Response.Body (respondError err)
              = APIErrorResponse code (Error err))
     ∧ (Response.Status (respondError err) = StatusNotFound
        ↔ err = model_ErrNotFound)
     ∧ (Response.Status (respondError err) = StatusBadRequest
        ↔ err = model_ErrBadRequest)
     ∧ ∀ err', respondError err' = respondError err → err' = err).
Proof.
  split; [|split].
  - destruct err as [| | | | | | | | | | |[|]];
      (split;
       [intros Hst;
        first [by_compute | vm_compute in Hst; discriminate Hst]
       |intros Hnot;
        first [reflexivity | exfalso; apply Hnot; by_compute]]).
  - destruct err as [| | | | | | | | | | |[|]]; try done;
      intros Hnot; exfalso; apply Hnot; by_compute.
  - intros Hin.
    assert (err = model_ErrBadRequest ∨ err = model_ErrNotFound
            ∨ err = model_ErrTeamExists ∨ err = model_ErrPRExists
            ∨ err = model_ErrPRMerged ∨ err = model_ErrNotAssigned
            ∨ err = model_ErrNoCandidate) as Hcases.
    { unfold domain_errors in Hin.
      rewrite !elem_of_cons, elem_of_nil in Hin. tauto. }
    clear Hin.
    destruct Hcases as [->|[->|[->|[->|[->|[->| ->]]]]]];
      (split; [by eexists|]); (split; [by split|]); (split; [by split|]);
      intros [| | | | | | | | | | |[|]]; by vm_compute.
Qed.

(** ** Instances on the sample data *)


Lemma GetUserReviewPRs_lists_assigned_witness :
  pull_requests demo_db !! "pr1" = Some demo_row
  ∧ "u2" ∈ assigned_reviewers demo_row
  ∧ ∃ rows : list (string * pull_requests_row),
      GetUserReviewPRs "u2" demo_db = (Ok (scan_short <$> rows), demo_db)
      ∧ ("pr1", demo_row) ∈ rows.
Proof.
  assert (pull_requests demo_db !! "pr1" = Some demo_row) as Hpr
    by (vm_compute; reflexivity).
  assert ("u2" ∈ assigned_reviewers demo_row) as Hin by by_compute.
  split; [exact Hpr|]. split; [exact Hin|].
  destruct (GetUserReviewPRs_lists_assigned "u2" demo_db)
    as (rows & Hcall & _ & Hrows & _).
  exists rows. split; [exact Hcall|].
  exact (proj2 (Hrows "pr1" demo_row) (conj Hpr Hin)).
Defined.

Lemma GetTeam_lists_members_witness :
  ("backend" ∈ teams demo_db)
  ∧ ∃ members,
      service_GetTeam bytewise "backend" demo_db
      = (Ok (Team.mk "backend" members), demo_db)
      ∧ NoDup (TeamMember.UserID <$> members)
      ∧ (∀ i j a b, i < j → members !! i = Some a → members !! j = Some b →
                    bytewise (TeamMember.UserID a) (TeamMember.UserID b)).
Proof.
  assert ("backend" ∈ teams demo_db) as Hin by by_compute.
  split; [exact Hin|].
  destruct (proj2 (GetTeam_lists_members bytewise "backend" demo_db) Hin)
    as (members & Hcall & Hnd & _ & Hsorted).
  exists members. split; [exact Hcall|]. split; [exact Hnd|].
  exact (Hsorted bytewise_trans bytewise_total).
Defined.

Lemma CreateTeam_then_GetTeam_witness :
  demo_db = run demo_calls empty_DB
  ∧ (Team.TeamName pair ∉ teams demo_db)
  ∧ NoDup (TeamMember.UserID <$> Team.Members pair)
  ∧ ∃ members,
      service_GetTeam bytewise (Team.TeamName pair)
        (CreateTeam pair demo_db).2
      = (Ok (Team.mk (Team.TeamName pair) members),
         (CreateTeam pair demo_db).2)
      ∧ members ≡ₚ Team.Members pair.
Proof.
  assert (demo_db = run demo_calls empty_DB) as Hdb by reflexivity.
  assert (Team.TeamName pair ∉ teams demo_db) as Hnew by by_compute.
  assert (NoDup (TeamMember.UserID <$> Team.Members pair)) as Hnd
    by by_compute.
  split; [exact Hdb|]. split; [exact Hnew|]. split; [exact Hnd|].
  exact (CreateTeam_then_GetTeam bytewise demo_calls pair demo_db Hdb Hnew
           Hnd).
Defined.

Lemma ReassignReviewer_moves_review_witness :
  demo_db = run demo_calls empty_DB
  ∧ ∃ pr replacedBy db',
      ReassignReviewer rnd0 "pr1" "u2" demo_db = (Ok (pr, replacedBy), db')
      ∧ ("pr1" ∈ review_ids "u2" demo_db) ∧ ("pr1" ∉ review_ids "u2" db')
      ∧ ("pr1" ∉ review_ids replacedBy demo_db)
      ∧ ("pr1" ∈ review_ids replacedBy db')
      ∧ ∀ userID p, p ≠ "pr1" ∨ (userID ≠ "u2" ∧ userID ≠ replacedBy) →
          (p ∈ review_ids userID db' ↔ p ∈ review_ids userID demo_db).
Proof.
  assert (demo_db = run demo_calls empty_DB) as Hdb by reflexivity.
  split; [exact Hdb|].
  eexists _, _, _. split; [vm_compute; reflexivity|].
  eapply (ReassignReviewer_moves_review demo_calls rnd0 "pr1" "u2" demo_db);
    [exact Hdb|].
  vm_compute; reflexivity.
Defined.

Lemma CreatePullRequest_shows_in_reviews_witness :
  ∃ pr db',
    CreatePullRequest rnd0 dbnow1 "pr2" "docs" "u1" demo_db = (Ok pr, db')
    ∧ (∀ userID, "pr2" ∈ review_ids userID db'
                 ↔ userID ∈ PullRequest.AssignedReviewers pr)
    ∧ ("pr2" ∉ review_ids "u1" db')
    ∧ (∀ userID p, p ≠ "pr2" →
         (p ∈ review_ids userID db' ↔ p ∈ review_ids userID demo_db))
    ∧ (∀ userID, "pr2" ∉ review_ids userID demo_db).
Proof.
  eexists _, _. split; [vm_compute; reflexivity|].
  apply (CreatePullRequest_shows_in_reviews rnd0 dbnow1 "pr2" "docs" "u1"
           demo_db).
  vm_compute; reflexivity.
Defined.

Lemma inactive_user_gets_no_new_reviews_witness :
  users demo_db !! "u5" = Some erin_row
  ∧ is_active erin_row = false
  ∧ Forall (λ call, ¬ activates "u5" call) quiet_calls
  ∧ (∃ row', users (run quiet_calls demo_db) !! "u5" = Some row'
             ∧ is_active row' = false)
  ∧ ∀ p, p ∈ review_ids "u5" (run quiet_calls demo_db) →
         p ∈ review_ids "u5" demo_db.
Proof.
  assert (users demo_db !! "u5" = Some erin_row) as Hrow
    by (vm_compute; reflexivity).
  assert (is_active erin_row = false) as Hinactive by reflexivity.
  assert (Forall (λ call, ¬ activates "u5" call) quiet_calls) as Hquiet
    by by_compute.
  split; [exact Hrow|]. split; [exact Hinactive|]. split; [exact Hquiet|].
  exact (inactive_user_gets_no_new_reviews quiet_calls demo_db "u5" erin_row
           Hrow Hinactive Hquiet).
Defined.

Lemma handler_CreateTeam_validates_witness :
  trim_left "pair" ≠ ""
  ∧ members_valid trim_left (Team.Members pair)
  ∧ handler.CreateTeam trim_left pair_body demo_db
    = (if decide ("pair" ∈ teams demo_db) then
         (Response.mk StatusConflict
            (APIErrorResponse "TEAM_EXISTS" "team_name already exists"),
          demo_db)
       else
         (Response.mk StatusCreated
            (TeamCreatedBody (Team.mk "pair" (Team.Members pair))),
          exec demo_db
            (CallCreateTeam (Team.mk "pair" (Team.Members pair)))))
  ∧ handler.CreateTeam trim_left None demo_db
    = (Response.mk StatusBadRequest
         (APIErrorResponse "BAD_REQUEST"
            "invalid request payload or parameters"), demo_db).
Proof.
  assert (trim_left "pair" ≠ "") as Hname by by_compute.
  assert (members_valid trim_left (Team.Members pair)) as Hvalid.
  { split; [|by_compute]. intros m Hm. simpl in Hm.
    rewrite !elem_of_cons, elem_of_nil in Hm.
    destruct Hm as [->|[->|[]]]; split; by_compute. }
  assert (¬ ∃ teamName members,
            (None : option CreateTeamRequest.t)
            = Some (CreateTeamRequest.mk teamName
                      (request_member <$> members))
            ∧ trim_left teamName ≠ "" ∧ members_valid trim_left members)
    as Hnone.
  { intros (teamName & members & Heq & _). discriminate Heq. }
  split; [exact Hname|]. split; [exact Hvalid|]. split.
  - exact (proj1 (handler_CreateTeam_validates trim_left pair_body demo_db)
             "pair" (Team.Members pair) eq_refl Hname Hvalid).
  - exact (proj2 (handler_CreateTeam_validates trim_left None demo_db)
             Hnone).
Defined.

Lemma SetupRouter_status_witness :
  400 ≤ Response.Status
          (SetupRouter trim_left bytewise
             (PostPullRequestMerge now1 (Some (MergePRRequest.mk "pr9")))
             demo_db).1
  ∧ is_error_body
      (Response.Body
         (SetupRouter trim_left bytewise
            (PostPullRequestMerge now1 (Some (MergePRRequest.mk "pr9")))
            demo_db).1) = true
  ∧ (SetupRouter trim_left bytewise
       (PostPullRequestMerge now1 (Some (MergePRRequest.mk "pr9")))
       demo_db).2 = demo_db.
Proof.
  assert (400 ≤ Response.Status
                  (SetupRouter trim_left bytewise
                     (PostPullRequestMerge now1
                        (Some (MergePRRequest.mk "pr9")))
                     demo_db).1) as Hst by by_compute.
  destruct (SetupRouter_status trim_left bytewise
              (PostPullRequestMerge now1 (Some (MergePRRequest.mk "pr9")))
              demo_db) as (_ & Hbody & Hdb).
  split; [exact Hst|]. split; [exact (proj2 Hbody Hst)|exact (Hdb Hst)].
Defined.

Lemma serve_all_is_run_witness :
  ∃ calls, serve_all trim_left bytewise sample_requests demo_db
           = run calls demo_db
           ∧ length calls ≤ length sample_requests.
Proof. exact (serve_all_is_run trim_left bytewise sample_requests demo_db). Defined.

Lemma serve_all_no_blank_witness :
  no_blank trim_left (serve_all trim_left bytewise sample_requests empty_DB).
Proof. exact (serve_all_no_blank trim_left bytewise sample_requests). Defined.

Lemma handler_ReassignReviewer_legacy_field_witness :
  "u2" ≠ ""
  ∧ handler.ReassignReviewer trim_left rnd0
      (Some (ReassignRequest.mk "pr1" "" "u2")) demo_db
    = handler.ReassignReviewer trim_left rnd0
        (Some (ReassignRequest.mk "pr1" "u2" "")) demo_db
  ∧ handler.ReassignReviewer trim_left rnd0
      (Some (ReassignRequest.mk "pr1" "u2" "u4")) demo_db
    = handler.ReassignReviewer trim_left rnd0
        (Some (ReassignRequest.mk "pr1" "u2" "")) demo_db.
Proof.
  assert ("u2" ≠ "") as Hne by by_compute.
  destruct (handler_ReassignReviewer_legacy_field trim_left rnd0 "pr1" "u2"
              "u2" demo_db) as [Hlegacy _].
  destruct (handler_ReassignReviewer_legacy_field trim_left rnd0 "pr1" "u2"
              "u4" demo_db) as [_ Hignored].
  split; [exact Hne|]. split; [exact Hlegacy|exact (Hignored Hne)].
Defined.

Lemma UpdatePR_round_trip_witness :
  GetPRByID "pr1" demo_db = (Ok (scan_pr "pr1" demo_row), demo_db)
  ∧ UpdatePR (scan_pr "pr1" demo_row) demo_db
    = (Ok (scan_pr "pr1" demo_row), demo_db)
  ∧ pull_requests demo_db !! "pr9" = None
  ∧ UpdatePR (scan_pr "pr9" demo_row) demo_db
    = (Err repo_ErrNotFound, demo_db).
Proof.
  assert (GetPRByID "pr1" demo_db = (Ok (scan_pr "pr1" demo_row), demo_db))
    as Hread by (vm_compute; reflexivity).
  assert (pull_requests demo_db !! "pr9" = None) as Hnone
    by (vm_compute; reflexivity).
  destruct (UpdatePR_round_trip demo_db) as (Hback & _ & Hmissing).
  split; [exact Hread|]. split; [exact (Hback _ _ Hread)|].
  split; [exact Hnone|]. exact (Hmissing (scan_pr "pr9" demo_row) Hnone).
Defined.


Lemma selectRandom_mem_argument_witness :
  slice_ok sample_memory (mk_slice 0 1 3)
  ∧ 2 < slice_len (mk_slice 0 1 3)
  ∧ sample_memory !! 5 = Some ["k"]
  ∧ elems (selectRandom_mem rnd0 (mk_slice 0 1 3) 2 sample_memory).2
          (mk_slice 0 1 3)
    = Shuffle rnd0 (elems sample_memory (mk_slice 0 1 3))
  ∧ elems (selectRandom_mem rnd0 (mk_slice 0 1 3) 2 sample_memory).2
          (mk_slice 0 1 3)
    ≡ₚ elems sample_memory (mk_slice 0 1 3)
  ∧ (selectRandom_mem rnd0 (mk_slice 0 1 3) 2 sample_memory).2 !! 5
    = Some ["k"].
Proof.
  assert (slice_ok sample_memory (mk_slice 0 1 3)) as Hok.
  { exists ["z"; "a"; "b"; "c"]. split; [vm_compute; reflexivity|simpl; lia]. }
  assert (2 < slice_len (mk_slice 0 1 3)) as Hlt by (simpl; lia).
  assert (sample_memory !! 5 = Some ["k"]) as Hother
    by (vm_compute; reflexivity).
  assert (∀ off len, mk_slice 0 1 3 ≠ mk_slice 5 off len) as Hne
    by (intros off len Heq; discriminate Heq).
  destruct (selectRandom_mem_argument rnd0 (mk_slice 0 1 3) 2 sample_memory
              Hok) as (_ & Hlarge & Hperm & Hframe).
  split; [exact Hok|]. split; [exact Hlt|]. split; [exact Hother|].
  split; [exact (proj1 (Hlarge Hlt))|]. split; [exact Hperm|].
  exact (Hframe 5 ["k"] Hother Hne).
Defined.

Lemma respondError_answers_witness :
  (PgError UniqueViolation ∉ model_ErrBadRequest :: domain_errors)
  ∧ (model_ErrPRMerged ∈ model_ErrBadRequest :: domain_errors)
  ∧ Response.Body (respondError (PgError UniqueViolation))
    = APIErrorResponse "INTERNAL_ERROR" "An unexpected error occurred"
  ∧ ∃ code, Response.Body (respondError model_ErrPRMerged)
            = APIErrorResponse code (Error model_ErrPRMerged).
Proof.
  assert (PgError UniqueViolation ∉ model_ErrBadRequest :: domain_errors)
    as Hnot by by_compute.
  assert (model_ErrPRMerged ∈ model_ErrBadRequest :: domain_errors) as Hin
    by by_compute.
  destruct (respondError_answers (PgError UniqueViolation))
    as (_ & Hinternal & _).
  destruct (respondError_answers model_ErrPRMerged) as (_ & _ & Hdomain).
  split; [exact Hnot|]. split; [exact Hin|].
  split; [exact (Hinternal Hnot)|exact (proj1 (Hdomain Hin))].
Defined.
